(** * SlpFileWriter: stream reassembly, dispatch, recording and relay

    A shallow embedding of [SlpFileWriter] (the console stream writer of the
    Slippi desktop app) and the verification of its specification.

    The JavaScript object [this] becomes the record [SlpFileWriter]; every
    method becomes a computation in the monad [M], which threads that record
    and can end in a thrown exception.  Calls on external collaborators (the
    OBS web socket, relay sockets, the file system, timers, the console) are
    recorded, in order, in the [effects] field. *)

From Stdlib Require Import ZArith NArith List Lia String Ascii.
From Stdlib.Strings Require Import Byte.
From stdpp Require Import base option list gmap strings sorting pretty.
Import ListNotations.

Local Open Scope nat_scope.

(** ** Bytes, buffers and data views *)

Abbreviation Buffer := (list byte).

#[export] Instance byte_eq_decision : EqDecision byte.
Proof.
  intros x y. destruct (Byte.eqb x y) eqn:E.
  - left. by apply byte_dec_bl.
  - right. by apply eqb_false.
Defined.

(** [Buffer.from(str)] of an ASCII literal. *)
Definition ascii_bytes (s : string) : Buffer := list_byte_of_string s.

(** [Buffer.from([n])]: one octet, the number taken modulo 256. *)
Definition octet (n : nat) : byte :=
  default x00 (Byte.of_nat (n mod 256)).

(** [buf.slice(from)] and [buf.slice(from, to)]. *)
Definition slice_from (from : nat) (buf : Buffer) : Buffer := drop from buf.
Definition slice (from to : nat) (buf : Buffer) : Buffer :=
  take (to - from) (drop from buf).

(** A [DataView] over [data.buffer] at a byte offset is the list of bytes from
    that offset on.  Every getter is bounds-checked by the runtime: reading
    past the end of the view throws a [RangeError], here [None]. *)
Definition getUint8 (view : Buffer) (off : nat) : option nat :=
  Byte.to_nat <$> view !! off.

Definition getUint16 (view : Buffer) (off : nat) : option nat :=
  hi ← getUint8 view off;
  lo ← getUint8 view (off + 1);
  Some (256 * hi + lo).

Definition getUint32 (view : Buffer) (off : nat) : option Z :=
  b0 ← getUint8 view off;
  b1 ← getUint8 view (off + 1);
  b2 ← getUint8 view (off + 2);
  b3 ← getUint8 view (off + 3);
  Some (Z.of_nat b0 * 16777216 + Z.of_nat b1 * 65536
        + Z.of_nat b2 * 256 + Z.of_nat b3)%Z.

(** Big-endian two's complement. *)
Definition getInt32 (view : Buffer) (off : nat) : option Z :=
  u ← getUint32 view off;
  Some (if (u <? 2147483648)%Z then u else u - 4294967296)%Z.

(** The four big-endian octets of a number in [0, 2^32). *)
Definition be32 (n : Z) : Buffer :=
  [ octet (Z.to_nat ((n / 16777216) mod 256));
    octet (Z.to_nat ((n / 65536) mod 256));
    octet (Z.to_nat ((n / 256) mod 256));
    octet (Z.to_nat (n mod 256)) ].

(** [createInt32Buffer]: [writeInt32BE] throws outside [-2^31, 2^31). *)
Definition createInt32Buffer (number : Z) : option Buffer :=
  if decide (-2147483648 ≤ number < 2147483648)%Z
  then Some (be32 (number mod 4294967296))
  else None.

(** [createUInt32Buffer]: [writeUInt32BE] throws outside [0, 2^32). *)
Definition createUInt32Buffer (number : Z) : option Buffer :=
  if decide (0 ≤ number < 4294967296)%Z
  then Some (be32 number)
  else None.

(** ** Strings and time stamps

    A JavaScript string enters the trailer twice: through [str.length] (UTF-16
    code units) and through [Buffer.from(str)] (its UTF-8 bytes).  The two are
    kept side by side. *)
Record JsString := {
  js_length : nat;
  js_utf8 : Buffer;
}.

Definition lit (s : string) : JsString :=
  {| js_length := String.length s; js_utf8 := ascii_bytes s |}.

(** A [moment()] value, by the three renderings the writer asks for. *)
Record Moment := {
  format_YYYYMMDD : string;
  format_HHmmss : string;
  toISOString : JsString;
}.

(** ** The writer's state *)

Definition CMD_RECEIVE_COMMANDS : nat := 53.          (* 0x35 *)
Definition CMD_GAME_START : nat := 54.                (* 0x36 *)
Definition CMD_RECEIVE_POST_FRAME_UPDATE : nat := 56. (* 0x38 *)
Definition CMD_RECEIVE_GAME_END : nat := 57.          (* 0x39 *)

(** What was handed to [writeStream.write], by call site: the preamble, a
    frame (the buffer written is the command byte followed by the payload), or
    the trailer. *)
Inductive Chunk :=
  | HeaderChunk (bytes : Buffer)
  | FrameChunk (command : byte) (payload : Buffer)
  | FooterChunk (bytes : Buffer).

Definition chunk_bytes (chunk : Chunk) : Buffer :=
  match chunk with
  | HeaderChunk bytes | FooterChunk bytes => bytes
  | FrameChunk command payload => command :: payload
  end.

(** A write stream: the chunks [write] has accepted so far, in order (they
    are the content of the file), whether [end] has been called, and the
    chunks handed to [write] after [end].  The stream refuses those (the
    runtime's [ERR_STREAM_WRITE_AFTER_END]): they never reach the file. *)
Record WriteStream := {
  ws_path : string;
  ws_written : list Chunk;
  ws_ended : bool;
  ws_refused : list Chunk;
}.

Record Player := {
  characterUsage : gmap nat N;
}.

Record Metadata := {
  startTime : option Moment;
  lastFrame : Z;
  players : gmap nat Player;
}.

Record CurrentFile := {
  payloadSizes : gmap nat nat;
  previousBuffer : Buffer;
  fullBuffer : Buffer;
  path : option string;
  writeStream : option WriteStream;
  bytesWritten : N;
  metadata : Metadata;
}.

Record StatusOutput := {
  status : bool;
  timeout : option nat;
}.

Record Client := {
  socket : nat;
  readPos : nat;
}.

(** The trace: calls on external collaborators, and one mark, [Dispatched],
    for every frame (command byte and payload) that the dispatcher hands to
    [writeCommand]. *)
Inductive Effect :=
  | Dispatched (command : nat) (payload : Buffer)
  | ObsSetVisible (scene item : string) (visible : bool)
  | SetTimeout (id : nat) (ms : nat)
  | ClearTimeout (id : nat)
  | SocketWrite (sock : nat) (bytes : Buffer)
  | SocketDestroy (sock : nat)
  | ServerListen
  | ServerClose
  | CreateWriteStream (file : string)
  | FsOpen (file : string)
  | FsWrite (file : string) (bytes : Buffer) (position : nat)
  | FsClose (file : string)
  | FileStateChange
  | ConsoleLog.

Record SlpFileWriter := {
  folderPath : string;
  obsSourceName : string;
  consoleNick : JsString;
  obsPairs : list (string * string);
  currentFile : CurrentFile;
  statusOutput : StatusOutput;
  isRelaying : bool;
  server : bool;
  clients : list Client;
  (* runtime bookkeeping: timer handles and pending stream-end callbacks *)
  nextTimer : nat;
  pendingEnd : nat;
  (* observation: the trace of effects so far, oldest first *)
  effects : list Effect;
}.

Definition getClearedCurrentFile : CurrentFile := {|
  payloadSizes := ∅;
  previousBuffer := [];
  fullBuffer := [];
  path := None;
  writeStream := None;
  bytesWritten := 0;
  metadata := {| startTime := None; lastFrame := -124; players := ∅ |};
|}.

(** Field updates ([this.currentFile.x = ...], [{...obj, x: ...}]). *)
Definition with_payloadSizes (v : gmap nat nat) (cf : CurrentFile) : CurrentFile :=
  {| payloadSizes := v; previousBuffer := previousBuffer cf;
     fullBuffer := fullBuffer cf; path := path cf;
     writeStream := writeStream cf; bytesWritten := bytesWritten cf;
     metadata := metadata cf |}.
Definition with_previousBuffer (v : Buffer) (cf : CurrentFile) : CurrentFile :=
  {| payloadSizes := payloadSizes cf; previousBuffer := v;
     fullBuffer := fullBuffer cf; path := path cf;
     writeStream := writeStream cf; bytesWritten := bytesWritten cf;
     metadata := metadata cf |}.
Definition with_fullBuffer (v : Buffer) (cf : CurrentFile) : CurrentFile :=
  {| payloadSizes := payloadSizes cf; previousBuffer := previousBuffer cf;
     fullBuffer := v; path := path cf;
     writeStream := writeStream cf; bytesWritten := bytesWritten cf;
     metadata := metadata cf |}.
Definition with_writeStream (v : option WriteStream) (cf : CurrentFile) : CurrentFile :=
  {| payloadSizes := payloadSizes cf; previousBuffer := previousBuffer cf;
     fullBuffer := fullBuffer cf; path := path cf;
     writeStream := v; bytesWritten := bytesWritten cf;
     metadata := metadata cf |}.
Definition with_bytesWritten (v : N) (cf : CurrentFile) : CurrentFile :=
  {| payloadSizes := payloadSizes cf; previousBuffer := previousBuffer cf;
     fullBuffer := fullBuffer cf; path := path cf;
     writeStream := writeStream cf; bytesWritten := v;
     metadata := metadata cf |}.
Definition with_metadata (v : Metadata) (cf : CurrentFile) : CurrentFile :=
  {| payloadSizes := payloadSizes cf; previousBuffer := previousBuffer cf;
     fullBuffer := fullBuffer cf; path := path cf;
     writeStream := writeStream cf; bytesWritten := bytesWritten cf;
     metadata := v |}.

Definition with_currentFile (v : CurrentFile) (s : SlpFileWriter) : SlpFileWriter :=
  {| folderPath := folderPath s; obsSourceName := obsSourceName s;
     consoleNick := consoleNick s; obsPairs := obsPairs s;
     currentFile := v; statusOutput := statusOutput s;
     isRelaying := isRelaying s; server := server s; clients := clients s;
     nextTimer := nextTimer s; pendingEnd := pendingEnd s;
     effects := effects s |}.
Definition with_statusOutput (v : StatusOutput) (s : SlpFileWriter) : SlpFileWriter :=
  {| folderPath := folderPath s; obsSourceName := obsSourceName s;
     consoleNick := consoleNick s; obsPairs := obsPairs s;
     currentFile := currentFile s; statusOutput := v;
     isRelaying := isRelaying s; server := server s; clients := clients s;
     nextTimer := nextTimer s; pendingEnd := pendingEnd s;
     effects := effects s |}.
Definition with_server (v : bool) (s : SlpFileWriter) : SlpFileWriter :=
  {| folderPath := folderPath s; obsSourceName := obsSourceName s;
     consoleNick := consoleNick s; obsPairs := obsPairs s;
     currentFile := currentFile s; statusOutput := statusOutput s;
     isRelaying := isRelaying s; server := v; clients := clients s;
     nextTimer := nextTimer s; pendingEnd := pendingEnd s;
     effects := effects s |}.
Definition with_clients (v : list Client) (s : SlpFileWriter) : SlpFileWriter :=
  {| folderPath := folderPath s; obsSourceName := obsSourceName s;
     consoleNick := consoleNick s; obsPairs := obsPairs s;
     currentFile := currentFile s; statusOutput := statusOutput s;
     isRelaying := isRelaying s; server := server s; clients := v;
     nextTimer := nextTimer s; pendingEnd := pendingEnd s;
     effects := effects s |}.
Definition with_nextTimer (v : nat) (s : SlpFileWriter) : SlpFileWriter :=
  {| folderPath := folderPath s; obsSourceName := obsSourceName s;
     consoleNick := consoleNick s; obsPairs := obsPairs s;
     currentFile := currentFile s; statusOutput := statusOutput s;
     isRelaying := isRelaying s; server := server s; clients := clients s;
     nextTimer := v; pendingEnd := pendingEnd s;
     effects := effects s |}.
Definition with_pendingEnd (v : nat) (s : SlpFileWriter) : SlpFileWriter :=
  {| folderPath := folderPath s; obsSourceName := obsSourceName s;
     consoleNick := consoleNick s; obsPairs := obsPairs s;
     currentFile := currentFile s; statusOutput := statusOutput s;
     isRelaying := isRelaying s; server := server s; clients := clients s;
     nextTimer := nextTimer s; pendingEnd := v;
     effects := effects s |}.
Definition with_effects (v : list Effect) (s : SlpFileWriter) : SlpFileWriter :=
  {| folderPath := folderPath s; obsSourceName := obsSourceName s;
     consoleNick := consoleNick s; obsPairs := obsPairs s;
     currentFile := currentFile s; statusOutput := statusOutput s;
     isRelaying := isRelaying s; server := server s; clients := clients s;
     nextTimer := nextTimer s; pendingEnd := pendingEnd s;
     effects := v |}.

(** ** The monad of methods: state passing with thrown exceptions *)

Inductive Exn := RangeError | TypeError.

Inductive Result (A : Type) :=
  | Ok (a : A)
  | Throw (e : Exn).
Arguments Ok {A} a.
Arguments Throw {A} e.

Definition M (A : Type) : Type := SlpFileWriter → Result A * SlpFileWriter.

Definition ret {A} (a : A) : M A := λ s, (Ok a, s).
Definition throw {A} (e : Exn) : M A := λ s, (Throw e, s).
Definition bind {A B} (m : M A) (k : A → M B) : M B :=
  λ s, match m s with
       | (Ok a, s') => k a s'
       | (Throw e, s') => (Throw e, s')
       end.
Definition get : M SlpFileWriter := λ s, (Ok s, s).
Definition modify (f : SlpFileWriter → SlpFileWriter) : M unit := λ s, (Ok tt, f s).

Declare Scope M_scope.
Delimit Scope M_scope with M.
Notation "x <- m ;; k" := (bind m (λ x, k))
  (at level 100, m at next level, right associativity) : M_scope.
Notation "m ;; k" := (bind m (λ _, k))
  (at level 100, right associativity) : M_scope.

(** A bounds-checked read: out of range is a thrown [RangeError]. *)
Definition checked {A} (o : option A) : M A :=
  match o with
  | Some a => ret a
  | None => throw RangeError
  end.

Definition modifyFile (f : CurrentFile → CurrentFile) : M unit :=
  modify (λ s, with_currentFile (f (currentFile s)) s).

Definition perform (e : Effect) : M unit :=
  modify (λ s, with_effects (effects s ++ [e]) s).

Definition emit (command : nat) (payload : Buffer) : M unit :=
  perform (Dispatched command payload).

Definition run {A} (m : M A) (s : SlpFileWriter) : SlpFileWriter := snd (m s).
Definition result {A} (m : M A) (s : SlpFileWriter) : Result A := fst (m s).

Local Open Scope M_scope.

(** ** Relay server ([manageRelay] and the callbacks it installs) *)

Definition manageRelay : M unit :=
  s <- get ;;
  if negb (isRelaying s) then
    (* relay disabled: drop every client and the server *)
    modify (λ s, with_effects (effects s ++ map (λ c, SocketDestroy (socket c)) (clients s)) s) ;;
    (if server s then perform ServerClose else ret tt) ;;
    modify (with_server false) ;;
    modify (with_clients [])
  else if server s then
    ret tt
  else
    modify (with_server true) ;;
    perform ServerListen.

(** The connection callback of [net.createServer]: a new client starts at
    read position 0. *)
Definition onConnection (sock : nat) : M unit :=
  modify (λ s, with_clients (clients s ++ [{| socket := sock; readPos := 0 |}]) s).

(** The socket's ["close"] listener. *)
Definition onSocketClose (sock : nat) : M unit :=
  modify (λ s, with_clients (filter (λ c, socket c ≠ sock) (clients s)) s).

(** ** Status output *)

Definition setStatus (value : bool) : M unit :=
  modify (λ s, with_statusOutput
    {| status := value; timeout := timeout (statusOutput s) |} s) ;;
  s <- get ;;
  modify (λ s, with_effects
    (effects s ++ map (λ pair, ObsSetVisible pair.1 (obsSourceName s) value) (obsPairs s)) s).

(** The callback armed by [setTimer]. *)
Definition onTimeout : M unit := setStatus false.

(** The local closure [setTimer] of [handleStatusOutput]. *)
Definition setTimer (timeoutLength : nat) : M unit :=
  s <- get ;;
  match timeout (statusOutput s) with
  | Some t => perform (ClearTimeout t)
  | None => ret tt
  end ;;
  s <- get ;;
  let t := nextTimer s in
  modify (with_nextTimer (S t)) ;;
  perform (SetTimeout t timeoutLength) ;;
  modify (λ s, with_statusOutput
    {| status := status (statusOutput s); timeout := Some t |} s).

Definition handleStatusOutput (timeoutLength : nat) : M unit :=
  s <- get ;;
  if decide (lastFrame (metadata (currentFile s)) < -60)%Z then
    (* only show the source in the later portion of the loading stage *)
    ret tt
  else if status (statusOutput s) then
    setTimer timeoutLength
  else
    setStatus true ;;
    setTimer timeoutLength.

(** ** Writing frames *)

(** [writeStream.write(chunk)]: appended to the file while the stream is
    open, refused once [end] has been called. *)
Definition stream_write (chunk : Chunk) (ws : WriteStream) : WriteStream :=
  if ws_ended ws then
    {| ws_path := ws_path ws;
       ws_written := ws_written ws;
       ws_ended := true;
       ws_refused := ws_refused ws ++ [chunk] |}
  else
    {| ws_path := ws_path ws;
       ws_written := ws_written ws ++ [chunk];
       ws_ended := false;
       ws_refused := ws_refused ws |}.

Definition stream_end (ws : WriteStream) : WriteStream :=
  {| ws_path := ws_path ws; ws_written := ws_written ws; ws_ended := true;
     ws_refused := ws_refused ws |}.

Definition writeCommand (command : nat) (payloadPtr : Buffer) (payloadLen : nat) : M unit :=
  s <- get ;;
  match writeStream (currentFile s) with
  | None => ret tt
  | Some ws =>
      let payloadBuf := slice 0 payloadLen payloadPtr in
      let bufToWrite := FrameChunk (octet command) payloadBuf in
      modifyFile (λ cf, with_bytesWritten (bytesWritten cf + N.of_nat (payloadLen + 1)) cf) ;;
      modifyFile (with_writeStream (Some (stream_write bufToWrite ws)))
  end.

(** [path.join], as Node's [path.posix] implements it: the non-empty
    arguments are joined by a slash and the result is normalised.  (On Windows
    [path] is [path.win32], which also takes a backslash for a separator.) *)
Fixpoint segments_from (current p : string) : list string :=
  match p with
  | EmptyString => [current]
  | String c rest =>
      if Ascii.eqb c "/" then current :: segments_from "" rest
      else segments_from (current +:+ String c "") rest
  end.

(** The pieces of a path between its slashes. *)
Definition segments (p : string) : list string := segments_from "" p.

(** One segment of [normalizeString]; [res] holds the segments kept so far,
    the last one first.  Empty segments and ["."] are skipped, [".."] removes
    the segment before it, and is itself kept only where nothing is left to
    remove and the path is relative. *)
Definition normalize_segment (allowAboveRoot : bool) (res : list string) (segment : string)
    : list string :=
  if decide (segment = "" ∨ segment = ".") then res
  else if decide (segment = "..") then
    match res with
    | top :: below =>
        if decide (top = "..") then (if allowAboveRoot then ".." :: res else res)
        else below
    | [] => if allowAboveRoot then [".."] else []
    end
  else segment :: res.

Definition normalizeString (p : string) (allowAboveRoot : bool) : string :=
  String.concat "/" (rev (fold_left (normalize_segment allowAboveRoot) (segments p) [])).

Definition path_normalize (p : string) : string :=
  if decide (p = "") then "."
  else
    let isAbsolute := bool_decide (head (segments p) = Some "") in
    let trailingSeparator := bool_decide (last (segments p) = Some "") in
    let p' := normalizeString p (negb isAbsolute) in
    if decide (p' = "") then
      if isAbsolute then "/" else if trailingSeparator then "./" else "."
    else
      ((if isAbsolute then "/" else "") +:+ p' +:+ (if trailingSeparator then "/" else ""))%string.

Definition path_join (args : list string) : string :=
  match List.filter (λ arg, negb (String.eqb arg "")) args with
  | [] => "."
  | joined => path_normalize (String.concat "/" joined)
  end.

Definition getNewFilePath (folder : string) (m : Moment) : string :=
  path_join [folder;
             ("Game_" +:+ format_YYYYMMDD m +:+ "T" +:+ format_HHmmss m +:+ ".slp")%string].

Definition header : Buffer :=
  ascii_bytes "{U" ++ [octet 3] ++ ascii_bytes "raw[$U#l" ++ [octet 0; octet 0; octet 0; octet 0].

(** [initializeNewGame]; [now] is the value of [moment()]. *)
Definition initializeNewGame (now : Moment) : M unit :=
  s <- get ;;
  let startTime := now in
  let filePath := getNewFilePath (folderPath s) startTime in
  perform (CreateWriteStream filePath) ;;
  let writeStream :=
    {| ws_path := filePath; ws_written := []; ws_ended := false; ws_refused := [] |} in
  let clearFileObj := getClearedCurrentFile in
  modify (with_currentFile
    {| payloadSizes := payloadSizes clearFileObj;
       previousBuffer := previousBuffer clearFileObj;
       fullBuffer := fullBuffer clearFileObj;
       path := Some filePath;
       writeStream := Some writeStream;
       bytesWritten := bytesWritten clearFileObj;
       metadata := {| startTime := Some startTime;
                      lastFrame := lastFrame (metadata clearFileObj);
                      players := players (metadata clearFileObj) |} |}) ;;
  (* clear clients back to position zero *)
  modify (λ s, with_clients
    (map (λ client, {| socket := socket client; readPos := 0 |}) (clients s)) s) ;;
  modifyFile (with_writeStream (Some (stream_write (HeaderChunk header) writeStream))) ;;
  perform ConsoleLog.

(** ** Finishing a recording *)

(** Own keys of a plain object with integer-like names are visited in
    ascending numeric order. *)
Definition key_le {V} (a b : nat * V) : Prop := a.1 ≤ b.1.

#[local] Instance key_le_dec {V} (a b : nat * V) : Decision (key_le a b).
Proof. unfold key_le. apply _. Defined.

Definition entries {V} (m : gmap nat V) : list (nat * V) :=
  merge_sort key_le (map_to_list m).

(** [Buffer.from([str.length])] followed by [Buffer.from(str)]. *)
Definition counted (str : JsString) : Buffer :=
  octet (js_length str) :: js_utf8 str.

(** Key strings of the players and characters objects are decimal numerals. *)
Definition key_name (k : nat) : string := pretty k.

Definition footer_character (entry : nat * N) : option Buffer :=
  let '(internalId, usage) := entry in
  count ← createUInt32Buffer (Z.of_N usage);
  Some (ascii_bytes "U" ++ [octet (String.length (key_name internalId))]
        ++ ascii_bytes (key_name internalId +:+ "l") ++ count).

Definition footer_player (entry : nat * Player) : option Buffer :=
  let '(index, player) := entry in
  characters ← mapM footer_character (entries (characterUsage player));
  Some (ascii_bytes "U" ++ [octet (String.length (key_name index))]
        ++ ascii_bytes (key_name index +:+ "{")
        ++ ascii_bytes "U" ++ [octet 10] ++ ascii_bytes "characters{"
        ++ concat characters
        ++ ascii_bytes "}}").

Definition compose_footer (startTimeStr : JsString) (lastFrame : Z)
    (consoleNick : JsString) (players : gmap nat Player) : option Buffer :=
  frame ← createInt32Buffer lastFrame;
  perPlayer ← mapM footer_player (entries players);
  Some (ascii_bytes "U" ++ [octet 8] ++ ascii_bytes "metadata{"
        ++ ascii_bytes "U" ++ [octet 7] ++ ascii_bytes "startAtSU" ++ counted startTimeStr
        ++ ascii_bytes "U" ++ [octet 9] ++ ascii_bytes "lastFramel" ++ frame
        ++ ascii_bytes "U" ++ [octet 11] ++ ascii_bytes "consoleNickSU" ++ counted consoleNick
        ++ ascii_bytes "U" ++ [octet 7] ++ ascii_bytes "players{"
        ++ concat perPlayer
        ++ ascii_bytes "}"
        ++ ascii_bytes "U" ++ [octet 8] ++ ascii_bytes "playedOnSU"
        ++ [octet 7] ++ ascii_bytes "network"
        ++ ascii_bytes "}}").

Definition onFileStateChange : M unit := perform FileStateChange.

(** [endGame]: the synchronous part.  The callback handed to
    [writeStream.end] is [onStreamFinished]; [pendingEnd] counts the callbacks
    that are registered and have not run yet. *)
Definition endGame : M unit :=
  s <- get ;;
  match writeStream (currentFile s) with
  | None =>
      (* clear current file *)
      modify (with_currentFile getClearedCurrentFile)
  | Some ws =>
      start <- match startTime (metadata (currentFile s)) with
               | Some m => ret m
               | None => throw TypeError
               end ;;
      footer <- checked (compose_footer (toISOString start)
                           (lastFrame (metadata (currentFile s)))
                           (consoleNick s)
                           (players (metadata (currentFile s)))) ;;
      modifyFile (with_writeStream (Some (stream_end (stream_write (FooterChunk footer) ws)))) ;;
      modify (λ s, with_pendingEnd (S (pendingEnd s)) s)
  end.

(** The callback of [writeStream.end]: patch the length placeholder, then clear
    the current file. *)
Definition onStreamFinished : M unit :=
  s <- get ;;
  match path (currentFile s) with
  | None => throw TypeError
  | Some file =>
      perform (FsOpen file) ;;
      buf <- checked (createUInt32Buffer (Z.of_N (bytesWritten (currentFile s)))) ;;
      perform (FsWrite file buf 11) ;;
      perform (FsClose file) ;;
      perform ConsoleLog ;;
      modify (with_currentFile getClearedCurrentFile) ;;
      onFileStateChange
  end.

(** ** Interpreting commands *)

Fixpoint receiveLoop (fuel : nat) (dataView : Buffer) (payloadLen i : nat) : M unit :=
  match fuel with
  | O => ret tt
  | S fuel' =>
      if decide (i < payloadLen) then
        commandByte <- checked (getUint8 dataView i) ;;
        payloadSize <- checked (getUint16 dataView (i + 1)) ;;
        modifyFile (λ cf, with_payloadSizes (<[commandByte := payloadSize]> (payloadSizes cf)) cf) ;;
        receiveLoop fuel' dataView payloadLen (i + 3)
      else ret tt
  end.

Definition processReceiveCommands (dataView : Buffer) : M nat :=
  payloadLen <- checked (getUint8 dataView 0) ;;
  receiveLoop payloadLen dataView payloadLen 1 ;;
  ret payloadLen.

Definition with_lastFrame (v : Z) (md : Metadata) : Metadata :=
  {| startTime := startTime md; lastFrame := v; players := players md |}.
Definition with_players (v : gmap nat Player) (md : Metadata) : Metadata :=
  {| startTime := startTime md; lastFrame := lastFrame md; players := v |}.

(** The character-usage update of a non-follower frame update. *)
Definition countCharacterFrame (playerIndex internalCharacterId : nat)
    (allPlayers : gmap nat Player) : gmap nat Player :=
  let prevUsage := match allPlayers !! playerIndex with
                   | Some prevPlayer => characterUsage prevPlayer
                   | None => ∅
                   end in
  let curCharFrames := default 0%N (prevUsage !! internalCharacterId) in
  let player := {| characterUsage :=
                     <[internalCharacterId := (curCharFrames + 1)%N]> prevUsage |} in
  <[playerIndex := player]> allPlayers.

Definition processCommand (command : nat) (dataView : Buffer) : M nat :=
  s <- get ;;
  match payloadSizes (currentFile s) !! command with
  | None | Some 0 => ret 0
  | Some payloadSize =>
      (if decide (command = CMD_RECEIVE_POST_FRAME_UPDATE) then
         (* here we need to update some metadata fields *)
         frameIndex <- checked (getInt32 dataView 0) ;;
         playerIndex <- checked (getUint8 dataView 4) ;;
         isFollower <- checked (getUint8 dataView 5) ;;
         internalCharacterId <- checked (getUint8 dataView 6) ;;
         if decide (isFollower ≠ 0) then
           (* no need to do this for follower *)
           ret tt
         else
           modifyFile (λ cf, with_metadata (with_lastFrame frameIndex (metadata cf)) cf) ;;
           modifyFile (λ cf, with_metadata
             (with_players (countCharacterFrame playerIndex internalCharacterId
                              (players (metadata cf))) (metadata cf)) cf)
       else if decide (command = CMD_RECEIVE_GAME_END) then
         endMethod <- checked (getUint8 dataView 0) ;;
         if decide (endMethod ≠ 7) then handleStatusOutput 700 else ret tt
       else
         (* nothing to do *)
         ret tt) ;;
      ret payloadSize
  end.

(** ** Ingesting a delivery *)

Record Flags := {
  isNewGame : bool;
  isGameEnd : bool;
}.

(** The keep-alive token ["HELO\0"].  Five bytes decode (as UTF-8) to that
    string exactly when they are these five bytes. *)
Definition HELO : Buffer := ascii_bytes "HELO" ++ [x00].

(** The [switch (command)] of [handleData]: interprets the frame that starts
    at [payloadPtr] (the data after the command byte), hands it to
    [writeCommand], and yields the payload length with the updated flags. *)
Definition dispatch (now : Moment) (command : nat) (payloadPtr : Buffer) (flags : Flags)
    : M (nat * Flags) :=
  let payloadDataView := payloadPtr in
  if decide (command = CMD_RECEIVE_COMMANDS) then
    initializeNewGame now ;;
    payloadLen <- processReceiveCommands payloadDataView ;;
    emit command (slice 0 payloadLen payloadPtr) ;;
    writeCommand command payloadPtr payloadLen ;;
    onFileStateChange ;;
    ret (payloadLen, {| isNewGame := true; isGameEnd := isGameEnd flags |})
  else if decide (command = CMD_RECEIVE_GAME_END) then
    payloadLen <- processCommand command payloadDataView ;;
    emit command (slice 0 payloadLen payloadPtr) ;;
    writeCommand command payloadPtr payloadLen ;;
    endGame ;;
    ret (payloadLen, {| isNewGame := isNewGame flags; isGameEnd := true |})
  else if decide (command = CMD_GAME_START) then
    payloadLen <- processCommand command payloadDataView ;;
    emit command (slice 0 payloadLen payloadPtr) ;;
    writeCommand command payloadPtr payloadLen ;;
    ret (payloadLen, flags)
  else
    payloadLen <- processCommand command payloadDataView ;;
    emit command (slice 0 payloadLen payloadPtr) ;;
    writeCommand command payloadPtr payloadLen ;;
    handleStatusOutput 200 ;;
    ret (payloadLen, flags).

(** The [while (index < data.length)] loop.  Every iteration that continues
    advances [index], so [fuel] beyond [length data - index] is never used up
    (see [parseLoop_fuel]). *)
Fixpoint parseLoop (fuel : nat) (now : Moment) (data : Buffer) (index : nat) (flags : Flags)
    : M Flags :=
  match fuel with
  | O => ret flags
  | S fuel' =>
      if decide (index < length data) then
        if decide (slice index (index + 5) data = HELO) then
          (* keep-alive: just ignore it *)
          parseLoop fuel' now data (index + 5) flags
        else
          (* make sure we have enough data to read a full payload *)
          command <- checked (getUint8 data index) ;;
          s <- get ;;
          let payloadSize := default 0 (payloadSizes (currentFile s) !! command) in
          let remainingLen := length data - index in
          if decide (remainingLen < payloadSize + 1) then
            modifyFile (with_previousBuffer (slice_from index data)) ;;
            ret flags
          else
            modifyFile (with_previousBuffer []) ;;
            (* increment by one for the command byte *)
            let index := index + 1 in
            let payloadPtr := slice_from index data in
            frame <- dispatch now command payloadPtr flags ;;
            let payloadLen := frame.1 in
            parseLoop fuel' now data (index + payloadLen) frame.2
      else ret flags
  end.

(** The relay write at the end of [handleData]. *)
Definition relay : M unit :=
  s <- get ;;
  let buf := fullBuffer (currentFile s) in
  modify (λ s, with_effects
    (effects s ++ map (λ client, SocketWrite (socket client) (slice_from (readPos client) buf))
                      (clients s)) s) ;;
  modify (λ s, with_clients
    (map (λ client, {| socket := socket client; readPos := length buf |}) (clients s)) s).

Definition handleData (now : Moment) (newData : Buffer) : M Flags :=
  s <- get ;;
  let data := previousBuffer (currentFile s) ++ newData in
  flags <- parseLoop (S (length data)) now data 0 {| isNewGame := false; isGameEnd := false |} ;;
  (* write data to relay, after processing *)
  modifyFile (λ cf, with_fullBuffer (fullBuffer cf ++ newData) cf) ;;
  relay ;;
  ret flags.

(** ** Construction and the event loop *)

Record Settings := {
  st_folderPath : string;
  st_obsSourceName : string;
  st_consoleNick : JsString;
  st_isRelaying : bool;
}.

Definition constructor (settings : Settings) : SlpFileWriter :=
  run manageRelay
    {| folderPath := st_folderPath settings;
       obsSourceName := st_obsSourceName settings;
       consoleNick := st_consoleNick settings;
       obsPairs := [];
       currentFile := getClearedCurrentFile;
       statusOutput := {| status := false; timeout := None |};
       isRelaying := st_isRelaying settings;
       server := false;
       clients := [];
       nextTimer := 0;
       pendingEnd := 0;
       effects := [] |}.

(** What the event loop can run on the writer: a delivery from the console
    connection, the completion callback of a stream that was ended, the
    auto-hide timer, and relay connections coming and going. *)
Inductive Event :=
  | Deliver (now : Moment) (newData : Buffer)
  | StreamFinished
  | TimerFired
  | Connect (sock : nat)
  | Disconnect (sock : nat)
  | ScenesDiscovered (pairs : list (string * string)).

Definition with_obsPairs (v : list (string * string)) (s : SlpFileWriter) : SlpFileWriter :=
  {| folderPath := folderPath s; obsSourceName := obsSourceName s;
     consoleNick := consoleNick s; obsPairs := v;
     currentFile := currentFile s; statusOutput := statusOutput s;
     isRelaying := isRelaying s; server := server s; clients := clients s;
     nextTimer := nextTimer s; pendingEnd := pendingEnd s;
     effects := effects s |}.

(** One turn of the event loop.  An exception thrown by a handler ends that
    turn; the writer keeps the state the handler left. *)
Definition step (s : SlpFileWriter) (e : Event) : SlpFileWriter :=
  match e with
  | Deliver now newData => run (handleData now newData) s
  | StreamFinished =>
      match pendingEnd s with
      | O => s
      | S n => run onStreamFinished (with_pendingEnd n s)
      end
  | TimerFired => run onTimeout s
  | Connect sock => if server s then run (onConnection sock) s else s
  | Disconnect sock => run (onSocketClose sock) s
  | ScenesDiscovered pairs => with_obsPairs pairs s
  end.

Definition steps (s : SlpFileWriter) (es : list Event) : SlpFileWriter :=
  fold_left step es s.

(** ** Settings updates and scene discovery

    The methods the application calls on a writer that is in use.  For
    [manageRelay] this matters: the relay's clients are the records
    [{socket, readPos}] pushed by the connection callback, and such a record has
    no [destroy] method, so [_.each(clients, (client) => client.destroy())]
    throws a [TypeError] at the first client.  At construction there is no
    client and the loop body never runs; the definition [manageRelay] above is
    that case (see [manageRelay_unconnected]). *)
Module InUse.

Definition manageRelay : M unit :=
  s <- get ;;
  if negb (isRelaying s) then
    (* if relay has been disabled, clear states *)
    match clients s with
    | [] => ret tt
    | _ :: _ => throw TypeError   (* client.destroy is not a function *)
    end ;;
    (if server s then perform ServerClose else ret tt) ;;
    modify (with_server false) ;;
    modify (with_clients [])
  else if server s then
    (* if server is already up, no need to start *)
    ret tt
  else
    modify (with_server true) ;;
    perform ServerListen.

(** The argument of [updateSettings], by the fields the writer keeps;
    [consoleNick] may be missing. *)
Record NewSettings := {
  targetFolder : string;
  new_obsSourceName : string;
  new_isRelaying : bool;
  new_consoleNick : option JsString;
}.

(** [settings.consoleNick || this.consoleNick]: a missing or empty nickname
    is falsy. *)
Definition nick_or (given : option JsString) (current : JsString) : JsString :=
  match given with
  | Some nick => if decide (js_length nick = 0) then current else nick
  | None => current
  end.

Definition updateSettings (settings : NewSettings) : M unit :=
  modify (λ s,
    {| folderPath := targetFolder settings;
       obsSourceName := new_obsSourceName settings;
       consoleNick := nick_or (new_consoleNick settings) (consoleNick s);
       obsPairs := obsPairs s;
       currentFile := currentFile s; statusOutput := statusOutput s;
       isRelaying := new_isRelaying settings;
       server := server s; clients := clients s;
       nextTimer := nextTimer s; pendingEnd := pendingEnd s;
       effects := effects s |}) ;;
  manageRelay.

(** A scene of the answer to ["GetSceneList"]; [sources] may be missing. *)
Record Scene := {
  scene_name : string;
  scene_sources : option (list string);
}.

(** [getSceneSources], from the answer of OBS on: [scenes] is [res.scenes]. *)
Definition getSceneSources (scenes : option (list Scene)) : M unit :=
  let scenes := default [] scenes in
  let pairs := flat_map (λ scene,
                 map (λ source, (scene_name scene, source))
                     (default [] (scene_sources scene))) scenes in
  s <- get ;;
  modify (with_obsPairs (filter (λ pair, pair.2 = obsSourceName s) pairs)).

Definition getCurrentFilePath (s : SlpFileWriter) : option string :=
  path (currentFile s).

(** What is called on a writer: the event loop's callbacks, and the
    application's settings updates and scene lists. *)
Inductive Call :=
  | Loop (e : Event)
  | UpdateSettings (settings : NewSettings)
  | SceneList (scenes : option (list Scene)).

Definition call (s : SlpFileWriter) (c : Call) : SlpFileWriter :=
  match c with
  | Loop e => step s e
  | UpdateSettings settings => run (updateSettings settings) s
  | SceneList scenes => run (getSceneSources scenes) s
  end.

Definition calls (s : SlpFileWriter) (cs : list Call) : SlpFileWriter :=
  fold_left call cs s.

End InUse.

(** ** The file loader: paging through the games ([actions/fileLoader.js]) *)
Module FileLoader.
Section Paging.
Context {Game : Type}.

(** A file as [loadFilesInFolder] lists it; [game] is [null] when the file
    could not be parsed. *)
Record File := {
  fullPath : string;
  fileName : string;
  game : option Game;
  hasError : bool;
}.

(** What [setStatsGamePage] hands on: the action it dispatches, and the game
    it passes to [gameProfileLoad]. *)
Inductive Handed :=
  | SET_STATS_GAME_PAGE (statsGameIndex : Z)
  | GameProfileLoad (game : option Game).

(** [setStatsGamePage(index)] on the files of the store, for an integer
    [index]: what it hands on, in order, and how it ends.  [files[i]] is
    [undefined] outside the array, and reading [game] of it throws. *)
Definition setStatsGamePage (files : list File) (index : Z) : list Handed * Result unit :=
  let statsGameIndex :=
    if decide (Z.of_nat (length files) ≤ index)%Z then 0%Z else index in
  let statsGameIndex :=
    if decide (statsGameIndex < 0)%Z then (Z.of_nat (length files) - 1)%Z else statsGameIndex in
  match (if decide (0 ≤ statsGameIndex)%Z then files !! Z.to_nat statsGameIndex else None) with
  | Some file => ([SET_STATS_GAME_PAGE statsGameIndex; GameProfileLoad (game file)], Ok tt)
  | None => ([SET_STATS_GAME_PAGE statsGameIndex], Throw TypeError)
  end.

End Paging.
End FileLoader.

(** ** Vocabulary of the statements *)

(** A frame: one command byte and its payload. *)
Record Frame := {
  fr_command : nat;
  fr_payload : Buffer;
}.

Definition frame_of (e : Effect) : option Frame :=
  match e with
  | Dispatched command payload => Some {| fr_command := command; fr_payload := payload |}
  | _ => None
  end.

(** The frames emitted so far, in order. *)
Definition frames (trace : list Effect) : list Frame := omap frame_of trace.
Definition emitted (s : SlpFileWriter) : list Frame := frames (effects s).

(** The recorded usage count [characterUsage[player][charId]] (0 when absent). *)
Definition usage (s : SlpFileWriter) (player charId : nat) : N :=
  match players (metadata (currentFile s)) !! player with
  | Some p => default 0%N (characterUsage p !! charId)
  | None => 0%N
  end.

(** Calls that toggle visibility or arm and disarm the auto-hide timer. *)
Definition is_status_effect (e : Effect) : bool :=
  match e with
  | ObsSetVisible _ _ _ | SetTimeout _ _ | ClearTimeout _ => true
  | _ => false
  end.

Definition status_effects (s : SlpFileWriter) : list Effect :=
  List.filter is_status_effect (effects s).

(** [keeps f m]: the method [m] leaves the observation [f] of the writer as
    it was, however it ends. *)
Definition keeps {A B} (f : SlpFileWriter → B) (m : M A) : Prop :=
  ∀ s, f (run m s) = f s.

(** [within R m]: every run of [m], however it ends, takes a state to one
    related to it by [R]. *)
Definition within {A} (R : relation SlpFileWriter) (m : M A) : Prop :=
  ∀ s, R s (run m s).

Definition is_socket_write (e : Effect) : bool :=
  match e with SocketWrite _ _ => true | _ => false end.

Definition cursor_kept_or_reset (c c' : Client) : Prop :=
  socket c' = socket c ∧ (readPos c' = readPos c ∨ readPos c' = 0).

(** What processing a delivery may do to the relay state before the relay
    write: the accumulated buffer is kept or emptied, every client keeps its
    cursor or is sent back to 0, and no socket is written to. *)
Definition relay_reset (s mid : SlpFileWriter) : Prop :=
  (fullBuffer (currentFile mid) = fullBuffer (currentFile s)
   ∨ fullBuffer (currentFile mid) = []) ∧
  Forall2 cursor_kept_or_reset (clients s) (clients mid) ∧
  ∃ new, effects mid = effects s ++ new ∧ Forall (λ e, is_socket_write e = false) new.

Definition cursors_at (position : nat) (cs : list Client) : list Client :=
  map (λ client, {| socket := socket client; readPos := position |}) cs.

(** The frames written to a stream: command byte and payload of every frame
    chunk, in order. *)
Definition written_frames (ws : WriteStream) : list (byte * Buffer) :=
  omap (λ chunk, match chunk with
                 | FrameChunk command payload => Some (command, payload)
                 | _ => None
                 end) (ws_written ws).

(** The sum of [1 + payloadLength] over the frames written. *)
Definition body_length (ws : WriteStream) : nat :=
  sum_list_with (λ frame, 1 + length frame.2) (written_frames ws).

(** The frames handed to the stream after [end], which it refused, and the
    sum of [1 + payloadLength] over them. *)
Definition refused_frames (ws : WriteStream) : list (byte * Buffer) :=
  omap (λ chunk, match chunk with
                 | FrameChunk command payload => Some (command, payload)
                 | _ => None
                 end) (ws_refused ws).

Definition refused_length (ws : WriteStream) : nat :=
  sum_list_with (λ frame, 1 + length frame.2) (refused_frames ws).

#[local] Instance Effect_eq_dec : EqDecision Effect.
Proof. solve_decision. Defined.

(** What the recorder keeps track of. *)
Definition recorder (s : SlpFileWriter) : option WriteStream * option string * N :=
  (writeStream (currentFile s), path (currentFile s), bytesWritten (currentFile s)).

(** The counter agrees with the stream: it counts every frame handed to the
    stream, written or refused; and [path] names the stream's file. *)
Definition count_agrees (r : option WriteStream * option string * N) : Prop :=
  match r with
  | (None, file, _) => file = None
  | (Some ws, file, count) =>
      file = Some (ws_path ws) ∧ N.to_nat count = body_length ws + refused_length ws
  end.

Definition counted_writes (s : SlpFileWriter) : Prop := count_agrees (recorder s).

Definition keeps_counted : relation SlpFileWriter :=
  λ s s', counted_writes s → counted_writes s'.

(** What the status indicator shows and has asked of its collaborators. *)
Definition visibility (s : SlpFileWriter) : StatusOutput * list Effect :=
  (statusOutput s, status_effects s).

Definition below_threshold (s : SlpFileWriter) : Prop :=
  (lastFrame (metadata (currentFile s)) < -60)%Z.

(** The current file after a non-follower frame update. *)
Definition frameUpdate (frameIndex : Z) (playerIndex internalCharacterId : nat)
    (cf : CurrentFile) : CurrentFile :=
  with_metadata
    {| startTime := startTime (metadata cf);
       lastFrame := frameIndex;
       players := countCharacterFrame playerIndex internalCharacterId (players (metadata cf)) |}
    cf.

(** What a dispatch does for a command other than the handshake: first
    [processCommand], then the rest. *)
Definition afterProcess (command : nat) (view : Buffer) (flags : Flags) (payloadLen : nat)
    : M (nat * Flags) :=
  emit command (slice 0 payloadLen view) ;;
  writeCommand command view payloadLen ;;
  if decide (command = CMD_RECEIVE_GAME_END) then
    endGame ;; ret (payloadLen, {| isNewGame := isNewGame flags; isGameEnd := true |})
  else if decide (command = CMD_GAME_START) then
    ret (payloadLen, flags)
  else handleStatusOutput 200 ;; ret (payloadLen, flags).

(** The states the parsing loop passes through: the one after each frame it
    dispatches, whether the dispatch returns or throws. *)
Fixpoint parse_states (fuel : nat) (now : Moment) (data : Buffer) (index : nat) (flags : Flags)
    (s : SlpFileWriter) : list SlpFileWriter :=
  match fuel with
  | O => []
  | S fuel' =>
      if decide (index < length data) then
        if decide (slice index (index + 5) data = HELO) then
          parse_states fuel' now data (index + 5) flags s
        else
          match getUint8 data index with
          | None => []
          | Some command =>
              let payloadSize := default 0 (payloadSizes (currentFile s) !! command) in
              if decide (length data - index < payloadSize + 1) then []
              else
                let s1 := run (modifyFile (with_previousBuffer [])) s in
                match dispatch now command (slice_from (index + 1) data) flags s1 with
                | (Ok frame, s2) =>
                    s2 :: parse_states fuel' now data (index + 1 + frame.1) frame.2 s2
                | (Throw _, s2) => [s2]
                end
          end
      else []
  end.

(** The states one turn of the event loop passes through: for a delivery the
    state after each frame dispatched, and for every event the state at the
    end of the turn. *)
Definition turn_states (s : SlpFileWriter) (e : Event) : list SlpFileWriter :=
  match e with
  | Deliver now newData =>
      let data := previousBuffer (currentFile s) ++ newData in
      parse_states (S (length data)) now data 0 {| isNewGame := false; isGameEnd := false |} s
  | _ => []
  end ++ [step s e].

Fixpoint visited_states (s : SlpFileWriter) (events : list Event) : list SlpFileWriter :=
  match events with
  | [] => []
  | e :: events => turn_states s e ++ visited_states (step s e) events
  end.

#[local] Instance below_threshold_dec s : Decision (below_threshold s).
Proof. unfold below_threshold. apply _. Defined.

(** A call that hides the source. *)
Definition is_hide (e : Effect) : Prop :=
  match e with
  | ObsSetVisible _ _ false => True
  | _ => False
  end.

(** What can happen to the status indicator while the pulses are ignored: the
    timer handle stays, the flag is left or lowered, and the calls made are
    calls that hide the source. *)
Definition hidden_at_most (s s' : SlpFileWriter) : Prop :=
  timeout (statusOutput s') = timeout (statusOutput s) ∧
  (status (statusOutput s') = true → status (statusOutput s) = true) ∧
  ∃ hides, status_effects s' = status_effects s ++ hides ∧ Forall is_hide hides.

(** A frame update that is not a follower's, by [player] playing [charId]. *)
Definition counts_for (player charId : nat) (frame : Frame) : Prop :=
  fr_command frame = CMD_RECEIVE_POST_FRAME_UPDATE ∧
  getUint8 (fr_payload frame) 4 = Some player ∧
  getUint8 (fr_payload frame) 5 = Some 0 ∧
  getUint8 (fr_payload frame) 6 = Some charId.

#[local] Instance counts_for_dec player charId frame : Decision (counts_for player charId frame).
Proof. unfold counts_for. apply _. Defined.

(** The frames of the current session: those dispatched since the current file
    was last replaced, be it by [initializeNewGame] (which first creates the
    write stream) or by the completion callback of a finished recording (which
    first closes the patched file). *)
Definition session_step (session : list Frame) (e : Effect) : list Frame :=
  match e with
  | CreateWriteStream _ | FsClose _ => []
  | Dispatched command payload =>
      session ++ [{| fr_command := command; fr_payload := payload |}]
  | _ => session
  end.

Definition session_frames (trace : list Effect) : list Frame :=
  fold_left session_step trace [].

(** The number of non-follower frame updates observed for a player and a
    character during the current session. *)
Definition observed (s : SlpFileWriter) (player charId : nat) : N :=
  N.of_nat (length (filter (counts_for player charId) (session_frames (effects s)))).

(** A frame update carries the seven bytes in which the dispatcher reads its
    fields, unless its command has no payload at all. *)
Definition sized (frame : Frame) : Prop :=
  fr_command frame = CMD_RECEIVE_POST_FRAME_UPDATE →
  fr_payload frame = [] ∨ 7 ≤ length (fr_payload frame).

Definition is_neutral (e : Effect) : bool :=
  match e with
  | CreateWriteStream _ | FsClose _ | Dispatched _ _ => false
  | _ => true
  end.

(** No write stream is open. *)
Definition idle (s : SlpFileWriter) : bool :=
  match writeStream (currentFile s) with
  | None => true
  | Some _ => false
  end.

(** What the relay write depends on: the clients with their cursors, whether
    no recording is open, and the accumulated buffer. *)
Definition relay_state (s : SlpFileWriter) : list Client * bool * Buffer :=
  (clients s, idle s, fullBuffer (currentFile s)).

(** The relay state after frames have been dispatched, by whether a handshake
    and whether a game end was among them.  A handshake empties the buffer and
    sends every cursor back to 0 ([initializeNewGame]); a game end that finds
    no recording open empties the buffer and leaves the cursors ([endGame]);
    nothing else touches either. *)
Definition relay_after (handshake gameEnd : bool) (r : list Client * bool * Buffer)
    : list Client * bool * Buffer :=
  if handshake then (cursors_at 0 r.1.1, false, [])
  else (r.1.1, r.1.2, if gameEnd && r.1.2 then [] else r.2).

(** The accumulated buffer that a delivery is appended to, and the cursor a
    client is served from, by the flags the delivery returns. *)
Definition backlog (flags : Flags) (s : SlpFileWriter) : Buffer :=
  if isNewGame flags || (isGameEnd flags && idle s) then [] else fullBuffer (currentFile s).

Definition cursor (flags : Flags) (client : Client) : nat :=
  if isNewGame flags then 0 else readPos client.

(** What usage counting depends on. *)
Definition session (s : SlpFileWriter)
    : gmap nat Player * gmap nat nat * bool * list Frame * list Frame :=
  (players (metadata (currentFile s)), payloadSizes (currentFile s),
   idle s,
   session_frames (effects s), emitted s).

Definition usage_counted (player charId : nat) (s : SlpFileWriter) : Prop :=
  usage s player charId = observed s player charId ∧
  (writeStream (currentFile s) = None →
   payloadSizes (currentFile s) = ∅ ∧ players (metadata (currentFile s)) = ∅).

Definition trace_grows : relation SlpFileWriter :=
  λ s s', ∃ new, effects s' = effects s ++ new.

#[local] Instance sized_dec frame : Decision (sized frame).
Proof. unfold sized. apply _. Defined.

(** Counting stays right from [s] to [s'], as long as the frame updates
    emitted up to [s'] are sized. *)
Definition counting_kept (player charId : nat) : relation SlpFileWriter :=
  λ s s', Forall sized (emitted s') →
          Forall sized (emitted s) ∧
          (usage_counted player charId s → usage_counted player charId s').

(** The writer without its relay state: accumulated buffer, clients and the
    writes made to their sockets. *)
Definition unrelayed (s : SlpFileWriter) : SlpFileWriter :=
  with_clients []
    (with_effects (List.filter (λ e, negb (is_socket_write e)) (effects s))
       (with_currentFile (with_fullBuffer [] (currentFile s)) s)).

(** [m] neither reads the relay state nor lets it influence anything else. *)
Definition relay_blind {A} (m : M A) : Prop :=
  ∀ s, result m s = result m (unrelayed s) ∧
       unrelayed (run m s) = unrelayed (run m (unrelayed s)).

(** ** The flags do not influence the state *)
(** The payload length a dispatch returns, or the exception it throws. *)
Definition payload_of (r : Result (nat * Flags)) : Result nat :=
  match r with
  | Ok frame => Ok frame.1
  | Throw e => Throw e
  end.

Definition same_but_flags (m m' : M (nat * Flags)) : Prop :=
  ∀ s, run m s = run m' s ∧ payload_of (result m s) = payload_of (result m' s).

(** The retained tail is kept or emptied by a dispatch. *)
Definition tail_kept_or_emptied : relation SlpFileWriter :=
  λ s s', previousBuffer (currentFile s') = previousBuffer (currentFile s)
          ∨ previousBuffer (currentFile s') = [].

(** The writer without its relay state and without the retained tail. *)
Definition untailed (s : SlpFileWriter) : SlpFileWriter :=
  unrelayed (with_currentFile (with_previousBuffer [] (currentFile s)) s).

(** No occurrence of the keep-alive token in [before ++ after] starts in
    [before] and ends in [after]. *)
Definition straddle_free (before after : Buffer) : Prop :=
  ∀ index, index < length before → length before < index + 5 →
           slice index (index + 5) (before ++ after) ≠ HELO.

(** The part of an iteration that follows the length check. *)
Definition handleFrame (fuel : nat) (now : Moment) (data : Buffer) (index command : nat)
    (flags : Flags) : M Flags :=
  frame <- dispatch now command (slice_from (index + 1) data) flags ;;
  parseLoop fuel now data (index + 1 + frame.1) frame.2.

(** The retained tail [tail], followed by [next], does not begin with a
    keep-alive token: the next iteration will overwrite it. *)
Definition tail_settled (tail next : Buffer) : Prop :=
  tail = [] ∨ (0 < length tail ∧ slice 0 5 (tail ++ next) ≠ HELO).

(** Sub-deliveries fed to [handleData] one after the other. *)
Definition deliver (now : Moment) (s : SlpFileWriter) (chunks : list Buffer) : SlpFileWriter :=
  fold_left (λ s chunk, run (handleData now chunk) s) chunks s.

(** Every sub-delivery but the last returns (throws no exception). *)
Fixpoint returns_before_last (now : Moment) (s : SlpFileWriter) (chunks : list Buffer) : Prop :=
  match chunks with
  | [] => True
  | chunk :: later =>
      match later with
      | [] => True
      | _ => (∃ flags, result (handleData now chunk) s = Ok flags) ∧
             returns_before_last now (run (handleData now chunk) s) later
      end
  end.

(** No split between sub-deliveries falls inside a keep-alive token;
    [before] is what precedes the first of them. *)
Fixpoint splits_clear (before : Buffer) (chunks : list Buffer) : Prop :=
  match chunks with
  | [] => True
  | chunk :: later =>
      straddle_free (before ++ chunk) (concat later) ∧ splits_clear (before ++ chunk) later
  end.

#[local] Instance straddle_free_dec (before after : Buffer) :
  Decision (straddle_free before after).
Proof.
  refine (cast_if (decide (Forall (λ index, length before < index + 5 →
                                            slice index (index + 5) (before ++ after) ≠ HELO)
                             (seq 0 (length before)))));
    unfold straddle_free; rewrite Forall_forall in *.
  - intros index Hlt. apply f. apply elem_of_seq. lia.
  - intros Hfree. apply n. intros index Hin%elem_of_seq. apply Hfree. lia.
Defined.

#[local] Instance splits_clear_dec (before : Buffer) (chunks : list Buffer) :
  Decision (splits_clear before chunks).
Proof.
  revert before. induction chunks as [|chunk later IH]; intros before; simpl;
    [left; exact I | apply and_dec; [apply _ | apply IH]].
Defined.

#[local] Instance returns_dec {A} (m : M A) (s : SlpFileWriter) :
  Decision (∃ a, result m s = Ok a).
Proof.
  destruct (result m s) as [a|e]; [left; by exists a | right; by intros [? ?]].
Defined.

#[local] Instance returns_before_last_dec now (s : SlpFileWriter) (chunks : list Buffer) :
  Decision (returns_before_last now s chunks).
Proof.
  revert s. induction chunks as [|chunk later IH]; intros s; simpl;
    [left; exact I |].
  destruct later as [|chunk2 later]; [left; exact I |].
  apply and_dec; [apply _ | apply IH].
Defined.

(** ** Further vocabulary: encodings, invariants, and the writer in use *)

(** The size table as a handshake carries it: the length byte, which counts
    itself, then three bytes for every entry: the command byte and its
    payload size, big-endian. *)
Definition encode_entry (entry : nat * nat) : Buffer :=
  [octet entry.1; octet (entry.2 / 256); octet (entry.2 mod 256)].

Definition encode_table (entries : list (nat * nat)) : Buffer :=
  octet (1 + 3 * length entries) :: flat_map encode_entry entries.

(** The entries recorded one after the other in a table. *)
Definition declare (table : gmap nat nat) (entries : list (nat * nat)) : gmap nat nat :=
  fold_left (λ table entry, <[entry.1 := entry.2]> table) entries table.

(** A frame as it travels: the command byte, then the payload. *)
Definition encode_frame (frame : Frame) : Buffer :=
  octet (fr_command frame) :: fr_payload frame.

Definition encode_frames (fs : list Frame) : Buffer := flat_map encode_frame fs.

(** A frame of a game in progress, for the size table [table]: its command
    fits a byte, is neither the handshake nor the game end, is not the letter
    H (72) a keep-alive token begins with, and its payload has the length the
    table gives for the command (0 when it gives none); a frame update with a
    payload carries the seven bytes its fields are read in. *)
Definition in_game (table : gmap nat nat) (frame : Frame) : Prop :=
  fr_command frame < 256 ∧
  fr_command frame ≠ CMD_RECEIVE_COMMANDS ∧
  fr_command frame ≠ CMD_RECEIVE_GAME_END ∧
  fr_command frame ≠ 72 ∧
  length (fr_payload frame) = default 0 (table !! fr_command frame) ∧
  sized frame.

#[local] Instance in_game_dec table frame : Decision (in_game table frame).
Proof. unfold in_game. apply _. Defined.

(** What a delivery is made of: frames, and keep-alive tokens ([None])
    between them. *)
Definition encode_item (item : option Frame) : Buffer :=
  match item with
  | Some frame => encode_frame frame
  | None => HELO
  end.

Definition encode_items (items : list (option Frame)) : Buffer :=
  flat_map encode_item items.

Definition in_game_item (table : gmap nat nat) (item : option Frame) : Prop :=
  match item with
  | Some frame => in_game table frame
  | None => True
  end.

#[local] Instance in_game_item_dec table item : Decision (in_game_item table item).
Proof. destruct item; simpl; apply _. Defined.

(** Calls that create, open, patch or close a file. *)
Definition is_file_effect (e : Effect) : bool :=
  match e with
  | CreateWriteStream _ | FsOpen _ | FsWrite _ _ _ | FsClose _ => true
  | _ => false
  end.

(** A delivery none of whose bytes is 0x35, the handshake command. *)
Definition no_handshake_byte (e : Event) : Prop :=
  match e with
  | Deliver _ newData => x35 ∉ newData
  | _ => True
  end.

#[local] Instance no_handshake_byte_dec e : Decision (no_handshake_byte e).
Proof. destruct e; simpl; apply _. Defined.

(** The writer has not recorded anything and is not about to. *)
Definition unused (s : SlpFileWriter) : Prop :=
  writeStream (currentFile s) = None ∧
  path (currentFile s) = None ∧
  payloadSizes (currentFile s) = ∅ ∧
  previousBuffer (currentFile s) = [] ∧
  metadata (currentFile s) = metadata getClearedCurrentFile ∧
  pendingEnd s = 0 ∧
  status (statusOutput s) = false ∧
  timeout (statusOutput s) = None ∧
  Forall (λ e, is_file_effect e = false) (effects s).

(** The socket writes among the effects of going from [s] to [s']. *)
Definition relayed (s s' : SlpFileWriter) : list Effect :=
  List.filter is_socket_write (drop (length (effects s)) (effects s')).

(** Whether the relay server is listening, by the trace: [None] when it was
    asked to listen while listening, or closed while not. *)
Definition server_step (up : option bool) (e : Effect) : option bool :=
  match e with
  | ServerListen => match up with Some false => Some true | _ => None end
  | ServerClose => match up with Some true => Some false | _ => None end
  | _ => up
  end.

Definition listening (trace : list Effect) : option bool :=
  fold_left server_step trace (Some false).

(** What the relay depends on besides its clients. *)
Definition relay_setup (s : SlpFileWriter) : bool * bool * option bool * nat :=
  (isRelaying s, server s, listening (effects s), length (clients s)).

(** The relay server is up whenever relaying is enabled, clients exist only
    while it is up, and it was started and closed in turns. *)
Definition relay_sound (s : SlpFileWriter) : Prop :=
  (isRelaying s = true → server s = true) ∧
  (server s = false → clients s = []) ∧
  listening (effects s) = Some (server s).

Definition is_server_effect (e : Effect) : bool :=
  match e with ServerListen | ServerClose => true | _ => false end.

Definition same {B} (f : SlpFileWriter → B) : relation SlpFileWriter :=
  λ s s', f s' = f s.

(** The timers armed and not cleared since, by the trace. *)
Definition timer_step (armed : list nat) (e : Effect) : list nat :=
  match e with
  | SetTimeout t _ => armed ++ [t]
  | ClearTimeout t => filter (λ t', t' ≠ t) armed
  | _ => armed
  end.

Definition uncleared (trace : list Effect) : list nat :=
  fold_left timer_step trace [].

Definition is_timer_effect (e : Effect) : bool :=
  match e with SetTimeout _ _ | ClearTimeout _ => true | _ => false end.

(** What the timer handling depends on. *)
Definition timer_view (s : SlpFileWriter) : option nat * list nat :=
  (timeout (statusOutput s), uncleared (effects s)).

(** The only timer armed and not cleared is the one whose handle the writer
    holds. *)
Definition one_timer (s : SlpFileWriter) : Prop :=
  uncleared (effects s) = option_list (timeout (statusOutput s)).

Definition keeps_one_timer : relation SlpFileWriter :=
  λ s s', one_timer s → one_timer s'.

(** Whether a recording is open, and its metadata. *)
Definition trailer_view (s : SlpFileWriter) : bool * Metadata :=
  (idle s, metadata (currentFile s)).

(** An open recording has its start time, and [lastFrame] is a signed 32-bit
    number. *)
Definition trailer_ready (s : SlpFileWriter) : Prop :=
  (idle s = false → startTime (metadata (currentFile s)) ≠ None) ∧
  (-2147483648 ≤ lastFrame (metadata (currentFile s)) < 2147483648)%Z.

Definition keeps_trailer_ready : relation SlpFileWriter :=
  λ s s', trailer_ready s → trailer_ready s'.

(** Every usage count of the metadata fits 32 bits. *)
Definition usage_fits (s : SlpFileWriter) : Prop :=
  map_Forall (λ _ player,
    map_Forall (λ _ count, (count < 4294967296)%N) (characterUsage player))
    (players (metadata (currentFile s))).

#[local] Instance usage_fits_dec s : Decision (usage_fits s).
Proof. unfold usage_fits. apply _. Defined.

Definition is_frame_chunk (chunk : Chunk) : bool :=
  match chunk with FrameChunk _ _ => true | _ => false end.

(** The open stream, if any, was given the preamble first, and frames alone
    after it for as long as it has not been ended. *)
Definition preamble_first (s : SlpFileWriter) : Prop :=
  ∀ ws, writeStream (currentFile s) = Some ws →
    ∃ body, ws_written ws = HeaderChunk header :: body ∧
            (ws_ended ws = false → Forall (λ chunk, is_frame_chunk chunk = true) body).

Definition keeps_preamble_first : relation SlpFileWriter :=
  λ s s', preamble_first s → preamble_first s'.

(** ** Sample inputs *)

Definition sample_settings : Settings :=
  {| st_folderPath := "replays"; st_obsSourceName := "live";
     st_consoleNick := lit "station"; st_isRelaying := true |}.

Definition sample_now : Moment :=
  {| format_YYYYMMDD := "20200101"; format_HHmmss := "120000";
     toISOString := lit "2020-01-01T12:00:00.000Z" |}.

(** A handshake declaring command 0x38 with payload length 10. *)
Definition handshake_38 : Buffer := [x35; x04; x38; x00; x0a].

(** A frame update: frame index -100, player 0, not a follower, character 18. *)
Definition update_minus100 : Buffer :=
  [x38; xff; xff; xff; x9c; x00; x00; x12; x00; x00; x00].

(** A game end with end method 7. *)
Definition game_end_7 : Buffer := [x39; x07].

Definition fresh : SlpFileWriter := constructor sample_settings.

(** Scenario C: the writer after the handshake and one frame update at
    frame -100. *)
Definition loading : SlpFileWriter :=
  steps fresh [Deliver sample_now (handshake_38 ++ update_minus100)].

(** A frame update at frame 0, by player 0 with character 18, and the same
    frame reported for a follower (flag at payload offset 5 set). *)
Definition update_0 : Buffer :=
  [x38; x00; x00; x00; x00; x00; x00; x12; x00; x00; x00].
Definition follower_update : Buffer :=
  [x38; x00; x00; x00; x01; x00; x01; x12; x00; x00; x00].

(** A recording in progress past the loading stage, one OBS scene showing the
    source, after the auto-hide timer has fired. *)
Definition playing : SlpFileWriter :=
  steps fresh [ScenesDiscovered [("scene", "live")];
               Deliver sample_now (handshake_38 ++ update_0);
               TimerFired].

(** A handshake declaring 0x38 (10 bytes) and the game end 0x39 (1 byte), and
    the writer once it has been received. *)
Definition handshake_38_39 : Buffer := [x35; x07; x38; x00; x0a; x39; x00; x01].

Definition recording : SlpFileWriter :=
  steps fresh [Deliver sample_now handshake_38_39].

Definition no_flags : Flags := {| isNewGame := false; isGameEnd := false |}.

Definition scenario_A : list Event :=
  [Deliver sample_now (handshake_38 ++ update_minus100 ++ game_end_7)].

(** A whole game in one delivery: the handshake declares the game end, which
    is the last frame. *)
Definition finished_game : list Event :=
  [Deliver sample_now (handshake_38_39 ++ update_minus100 ++ game_end_7)].

Definition sample_later : Moment :=
  {| format_YYYYMMDD := "20200101"; format_HHmmss := "120500";
     toISOString := lit "2020-01-01T12:05:00.000Z" |}.


(** Scenario B: 500 bytes have been accumulated (a handshake and 99
    keep-alive tokens) when a relay client connects; then one more frame is
    delivered. *)
Definition backlog_500 : Buffer := handshake_38 ++ concat (replicate 99 HELO).

Definition late_joiner : SlpFileWriter :=
  steps fresh [Deliver sample_now backlog_500; Connect 7].

Definition joined : SlpFileWriter :=
  run (handleData sample_now update_minus100) late_joiner.

(** The keep-alive token cut after its third byte. *)
Definition helo_split : list Buffer := [take 3 HELO; drop 3 HELO].

(** A recording session cut into three deliveries: the second cut falls inside
    a frame update, and keep-alive tokens sit whole inside the first and the
    last delivery. *)
Definition cut_session : list Buffer :=
  [handshake_38_39 ++ HELO;
   take 4 update_minus100;
   drop 4 update_minus100 ++ HELO ++ game_end_7].

(** A game is being shown (the source is visible and the auto-hide timer is
    armed) when the handshake of the next game arrives. *)
Definition next_game : SlpFileWriter :=
  steps fresh [ScenesDiscovered [("scene", "live")];
               Deliver sample_now (handshake_38 ++ update_0);
               Deliver sample_later handshake_38].

(** Two relay clients during a recording: one connected before the first
    delivery and has been sent all 500 bytes, the other has just connected. *)
Definition mixed_audience : SlpFileWriter :=
  steps fresh [Connect 3; Deliver sample_now backlog_500; Connect 7].

Definition idle_chatter : list Event :=
  [Deliver sample_now (HELO ++ update_0 ++ game_end_7); Connect 3; TimerFired;
   Deliver sample_now HELO; StreamFinished].

Definition connected : SlpFileWriter := steps fresh [Connect 7].

Definition relay_off : InUse.NewSettings :=
  {| InUse.targetFolder := "replays"; InUse.new_obsSourceName := "live";
     InUse.new_isRelaying := false; InUse.new_consoleNick := None |}.

(** * Verification *)

(** ** Reasoning about methods *)

Ltac unfold_M :=
  unfold onFileStateChange, emit, perform, modifyFile, checked, run, result in *;
  unfold bind, ret, throw, get, modify in *.

Lemma bind_ok {A B} (m : M A) (k : A → M B) s a s' :
  m s = (Ok a, s') → bind m k s = k a s'.
Proof. intros H. unfold bind. by rewrite H. Qed.

Lemma bind_throw {A B} (m : M A) (k : A → M B) s e s' :
  m s = (Throw e, s') → bind m k s = (Throw e, s').
Proof. intros H. unfold bind. by rewrite H. Qed.

Lemma run_bind {A B} (m : M A) (k : A → M B) s :
  run (bind m k) s =
    match result m s with
    | Ok a => run (k a) (run m s)
    | Throw _ => run m s
    end.
Proof. unfold run, result, bind. by destruct (m s) as [[a|e] s1]. Qed.

Lemma result_bind {A B} (m : M A) (k : A → M B) s :
  result (bind m k) s =
    match result m s with
    | Ok a => result (k a) (run m s)
    | Throw e => Throw e
    end.
Proof. unfold run, result, bind. by destruct (m s) as [[a|e] s1]. Qed.

Lemma run_get_bind {B} (k : SlpFileWriter → M B) s : run (bind get k) s = run (k s) s.
Proof. reflexivity. Qed.

Lemma run_ret {A} (a : A) s : run (ret a) s = s.
Proof. reflexivity. Qed.

Section Keeps.
Context {B : Type} (f : SlpFileWriter → B).

Lemma keeps_ret {A} (a : A) : keeps f (ret a).
Proof. by intros s. Qed.

Lemma keeps_throw {A} e : keeps f (@throw A e).
Proof. by intros s. Qed.

Lemma keeps_get : keeps f get.
Proof. by intros s. Qed.

Lemma keeps_checked {A} (o : option A) : keeps f (checked o).
Proof. by destruct o. Qed.

Lemma keeps_bind {A C} (m : M A) (k : A → M C) :
  keeps f m → (∀ a, keeps f (k a)) → keeps f (bind m k).
Proof.
  intros Hm Hk s. rewrite run_bind.
  destruct (result m s); [rewrite Hk|]; apply Hm.
Qed.

Lemma keeps_modify g : (∀ s, f (g s) = f s) → keeps f (modify g).
Proof. intros H s. apply H. Qed.

End Keeps.

Lemma status_effects_app s (new : list Effect) :
  status_effects (with_effects (effects s ++ new) s)
  = status_effects s ++ List.filter is_status_effect new.
Proof. unfold status_effects. simpl. apply List.filter_app. Qed.

Lemma frames_app (l1 l2 : list Effect) : frames (l1 ++ l2) = frames l1 ++ frames l2.
Proof. apply omap_app. Qed.

Ltac keeps_field :=
  intros; try reflexivity;
  unfold visibility, emitted; simpl;
  rewrite ?status_effects_app, ?frames_app; simpl;
  rewrite ?app_nil_r; reflexivity.

Ltac keeps_step :=
  lazymatch goal with
  | |- keeps _ (bind _ _) => apply keeps_bind; [|intros]
  | |- keeps _ (ret _) => apply keeps_ret
  | |- keeps _ (throw _) => apply keeps_throw
  | |- keeps _ get => apply keeps_get
  | |- keeps _ (checked _) => apply keeps_checked
  | |- keeps _ (modify _) => apply keeps_modify; keeps_field
  | |- keeps _ (modifyFile _) => apply keeps_modify; keeps_field
  | |- keeps _ (perform _) => apply keeps_modify; keeps_field
  | |- keeps _ (emit _ _) => apply keeps_modify; keeps_field
  | |- keeps _ onFileStateChange => apply keeps_modify; keeps_field
  | |- keeps _ (match ?x with _ => _ end) => destruct x
  end.

Ltac keeps_tac := repeat keeps_step.

(** ** Reads from a data view *)

Lemma getUint8_in_range view off :
  off < length view → ∃ b, getUint8 view off = Some b.
Proof.
  intros H. destruct (lookup_lt_is_Some_2 view off H) as [x Hx].
  exists (Byte.to_nat x). unfold getUint8. by rewrite Hx.
Qed.

Lemma getUint8_Some_lt view off b : getUint8 view off = Some b → off < length view.
Proof.
  unfold getUint8. intros (x & Hx & _)%fmap_Some. by apply lookup_lt_Some in Hx.
Qed.

Lemma getInt32_in_range view off :
  off + 3 < length view → ∃ z, getInt32 view off = Some z.
Proof.
  intros H. unfold getInt32, getUint32.
  destruct (getUint8_in_range view off) as [b0 ->]; [lia|].
  destruct (getUint8_in_range view (off + 1)) as [b1 ->]; [lia|].
  destruct (getUint8_in_range view (off + 2)) as [b2 ->]; [lia|].
  destruct (getUint8_in_range view (off + 3)) as [b3 ->]; [lia|].
  simpl. eauto.
Qed.

(** ** What each method leaves alone *)

Lemma setStatus_currentFile value : keeps currentFile (setStatus value).
Proof. unfold setStatus. keeps_tac. Qed.

Lemma setTimer_currentFile t : keeps currentFile (setTimer t).
Proof. unfold setTimer. keeps_tac. Qed.

Lemma handleStatusOutput_currentFile t : keeps currentFile (handleStatusOutput t).
Proof.
  unfold handleStatusOutput. keeps_tac;
    auto using setStatus_currentFile, setTimer_currentFile.
Qed.

Lemma writeCommand_metadata command payloadPtr payloadLen :
  keeps (λ s, metadata (currentFile s)) (writeCommand command payloadPtr payloadLen).
Proof. unfold writeCommand. keeps_tac. Qed.

Lemma writeCommand_visibility command payloadPtr payloadLen :
  keeps visibility (writeCommand command payloadPtr payloadLen).
Proof. unfold writeCommand. keeps_tac. Qed.

(** ** C7 and C9: guards that return early *)

Lemma handleStatusOutput_below timeoutLength s :
  below_threshold s → handleStatusOutput timeoutLength s = (Ok tt, s).
Proof.
  intros Hlow. unfold handleStatusOutput. unfold_M.
  destruct (decide _) as [_|Hge]; [reflexivity | contradiction].
Qed.

(** C7 (status pulse suppression below threshold): whenever
    [handleStatusOutput] is invoked while [lastFrame] is below -60, it returns
    at once and leaves the writer as it was: visibility is not shown, no timer
    is armed, and no call on an external collaborator is made. *)
Theorem C7_pulse_suppressed_below_threshold (timeoutLength : nat) (s : SlpFileWriter) :
  (lastFrame (metadata (currentFile s)) < -60)%Z →
  handleStatusOutput timeoutLength s = (Ok tt, s).
Proof.
  intros Hlow. by apply handleStatusOutput_below.
Qed.

Lemma C7_witness :
  (lastFrame (metadata (currentFile loading)) = -100)%Z ∧
  handleStatusOutput 200 loading = (Ok tt, loading).
Proof.
  split; [vm_compute; reflexivity |].
  apply (C7_pulse_suppressed_below_threshold 200 loading).
  vm_compute. reflexivity.
Defined.

(** C9 (finalize without an open output resource): when no write stream is
    open, [endGame] only replaces the current file by a cleared one (nothing
    is written, no trailer is composed, no completion callback is registered
    and so no placeholder is patched), and [writeCommand] changes nothing, in
    particular not [bytesWritten]. *)
Theorem C9_no_open_resource (s : SlpFileWriter) :
  writeStream (currentFile s) = None →
  endGame s = (Ok tt, with_currentFile getClearedCurrentFile s) ∧
  ∀ command payloadPtr payloadLen,
    writeCommand command payloadPtr payloadLen s = (Ok tt, s).
Proof.
  intros Hnone. split.
  - unfold endGame. unfold_M. rewrite Hnone. reflexivity.
  - intros. unfold writeCommand. unfold_M. rewrite Hnone. reflexivity.
Qed.

Lemma C9_witness :
  endGame fresh = (Ok tt, with_currentFile getClearedCurrentFile fresh) ∧
  ∀ command payloadPtr payloadLen,
    writeCommand command payloadPtr payloadLen fresh = (Ok tt, fresh).
Proof.
  apply (C9_no_open_resource fresh). reflexivity.
Defined.

(** ** [processCommand], case by case *)

Lemma processCommand_unrecognized command view s :
  default 0 (payloadSizes (currentFile s) !! command) = 0 →
  processCommand command view s = (Ok 0, s).
Proof.
  intros H. unfold processCommand. unfold_M.
  destruct (payloadSizes (currentFile s) !! command) as [[|n]|]; simpl in H; done.
Qed.

Lemma processCommand_game_end view s payloadSize endMethod :
  payloadSizes (currentFile s) !! CMD_RECEIVE_GAME_END = Some payloadSize →
  payloadSize ≠ 0 →
  getUint8 view 0 = Some endMethod →
  processCommand CMD_RECEIVE_GAME_END view s =
    ((if decide (endMethod ≠ 7) then handleStatusOutput 700 else ret tt) ;;
     ret payloadSize) s.
Proof.
  intros Htab Hnz Hend. unfold processCommand.
  rewrite (bind_ok get _ s s s) by reflexivity. rewrite Htab.
  destruct payloadSize as [|n]; [done|].
  destruct (decide (CMD_RECEIVE_GAME_END = CMD_RECEIVE_POST_FRAME_UPDATE)) as [E|_];
    [discriminate E|].
  destruct (decide (CMD_RECEIVE_GAME_END = CMD_RECEIVE_GAME_END)) as [_|E]; [|done].
  rewrite Hend. reflexivity.
Qed.

Lemma processCommand_other command view s payloadSize :
  payloadSizes (currentFile s) !! command = Some payloadSize →
  command ≠ CMD_RECEIVE_POST_FRAME_UPDATE →
  command ≠ CMD_RECEIVE_GAME_END →
  processCommand command view s = (Ok payloadSize, s).
Proof.
  intros Htab H1 H2. unfold processCommand.
  rewrite (bind_ok get _ s s s) by reflexivity. rewrite Htab.
  destruct payloadSize as [|n]; [done|].
  destruct (decide _); [done|]. destruct (decide _); [done|]. reflexivity.
Qed.

Lemma processCommand_update view s payloadSize frameIndex playerIndex isFollower charId :
  payloadSizes (currentFile s) !! CMD_RECEIVE_POST_FRAME_UPDATE = Some payloadSize →
  payloadSize ≠ 0 →
  getInt32 view 0 = Some frameIndex →
  getUint8 view 4 = Some playerIndex →
  getUint8 view 5 = Some isFollower →
  getUint8 view 6 = Some charId →
  processCommand CMD_RECEIVE_POST_FRAME_UPDATE view s =
    (Ok payloadSize,
     if decide (isFollower ≠ 0) then s
     else with_currentFile (frameUpdate frameIndex playerIndex charId (currentFile s)) s).
Proof.
  intros Htab Hnz H0 H4 H5 H6. unfold processCommand.
  rewrite (bind_ok get _ s s s) by reflexivity. rewrite Htab.
  destruct payloadSize as [|n]; [done|].
  destruct (decide _) as [_|]; [|done].
  rewrite H0, H4, H5, H6. unfold_M. simpl.
  destruct (decide (isFollower ≠ 0)); reflexivity.
Qed.

Lemma processCommand_update_throw view s payloadSize :
  payloadSizes (currentFile s) !! CMD_RECEIVE_POST_FRAME_UPDATE = Some payloadSize →
  payloadSize ≠ 0 →
  length view < 7 →
  processCommand CMD_RECEIVE_POST_FRAME_UPDATE view s = (Throw RangeError, s).
Proof.
  intros Htab Hnz Hlen. unfold processCommand.
  rewrite (bind_ok get _ s s s) by reflexivity. rewrite Htab.
  destruct payloadSize as [|n]; [done|].
  destruct (decide _) as [_|]; [|done].
  unfold_M.
  destruct (getInt32 view 0) as [a|]; [|reflexivity]. simpl.
  destruct (getUint8 view 4) as [b|]; [|reflexivity]. simpl.
  destruct (getUint8 view 5) as [c|]; [|reflexivity]. simpl.
  destruct (getUint8 view 6) as [d|] eqn:E; [|reflexivity].
  apply getUint8_Some_lt in E. lia.
Qed.

(** ** C3: a handshake starts from a cleared recording *)

Lemma initializeNewGame_eq now s :
  initializeNewGame now s =
    (Ok tt,
     with_effects (effects s ++ [CreateWriteStream (getNewFilePath (folderPath s) now); ConsoleLog])
       (with_clients (map (λ client, {| socket := socket client; readPos := 0 |}) (clients s))
          (with_currentFile
             {| payloadSizes := ∅; previousBuffer := []; fullBuffer := [];
                path := Some (getNewFilePath (folderPath s) now);
                writeStream := Some {| ws_path := getNewFilePath (folderPath s) now;
                                       ws_written := [HeaderChunk header];
                                       ws_ended := false;
                                       ws_refused := [] |};
                bytesWritten := 0;
                metadata := {| startTime := Some now; lastFrame := -124; players := ∅ |} |}
             s))).
Proof.
  unfold initializeNewGame. unfold_M. simpl. rewrite <- (assoc_L (++)). reflexivity.
Qed.

(** C3 (session reset on handshake): whatever the state [s] in which a
    handshake frame arrives, its handling begins with [initializeNewGame],
    which leaves the payload-size table empty, the relay buffer (and the
    retained tail) empty, the bytes-written counter 0, every client's cursor
    0, and the players map and [lastFrame] at their initial values; only then
    is the handshake payload read.  Nothing of the previous current file has
    any influence on what follows. *)
Theorem C3_session_reset (now : Moment) (view : Buffer) (flags : Flags) (s : SlpFileWriter) :
  let s1 := run (initializeNewGame now) s in
  (payloadSizes (currentFile s1) = ∅ ∧
   previousBuffer (currentFile s1) = [] ∧
   fullBuffer (currentFile s1) = [] ∧
   bytesWritten (currentFile s1) = 0%N ∧
   lastFrame (metadata (currentFile s1)) = (-124)%Z ∧
   players (metadata (currentFile s1)) = ∅ ∧
   clients s1 = map (λ client, {| socket := socket client; readPos := 0 |}) (clients s)) ∧
  dispatch now CMD_RECEIVE_COMMANDS view flags s =
    (payloadLen <- processReceiveCommands view ;;
     emit CMD_RECEIVE_COMMANDS (slice 0 payloadLen view) ;;
     writeCommand CMD_RECEIVE_COMMANDS view payloadLen ;;
     onFileStateChange ;;
     ret (payloadLen, {| isNewGame := true; isGameEnd := isGameEnd flags |})) s1 ∧
  ∀ cf, dispatch now CMD_RECEIVE_COMMANDS view flags (with_currentFile cf s)
        = dispatch now CMD_RECEIVE_COMMANDS view flags s.
Proof.
  split; [|split].
  - unfold run. rewrite initializeNewGame_eq. simpl. repeat split; reflexivity.
  - reflexivity.
  - intros cf. reflexivity.
Qed.

(** ** C4: what follows a follower's frame update and other commands *)

(** C4, refuted as stated: a frame update whose is-follower flag is set is not
    ignored entirely.  Delivered to a recording past the loading stage whose
    source is hidden, it shows the source and arms the auto-hide timer. *)
Lemma C4_counterexample :
  getUint8 (slice_from 1 follower_update) 5 = Some 1 ∧
  status (statusOutput playing) = false ∧
  visibility (step playing (Deliver sample_now follower_update)) =
    ({| status := true; timeout := Some 1 |},
     status_effects playing
       ++ [ObsSetVisible "scene" "live" true; ClearTimeout 0; SetTimeout 1 200]).
Proof. vm_compute. done. Qed.

(** C4, amended: a frame update whose is-follower flag is set, and any
    recognized command other than handshake, game start, game end and frame
    update, changes no metadata ([lastFrame], character usage, start time);
    the frame is handed verbatim to [writeCommand], and after that the default
    status pulse [handleStatusOutput 200] is invoked. *)
Theorem C4_follower_and_other_commands (now : Moment) (command : nat) (view : Buffer)
    (flags : Flags) (s : SlpFileWriter) (payloadSize : nat) :
  payloadSizes (currentFile s) !! command = Some payloadSize →
  payloadSize ≠ 0 →
  (command = CMD_RECEIVE_POST_FRAME_UPDATE ∧ 7 ≤ length view ∧ getUint8 view 5 ≠ Some 0)
  ∨ (command ∉ [CMD_RECEIVE_COMMANDS; CMD_GAME_START;
                 CMD_RECEIVE_POST_FRAME_UPDATE; CMD_RECEIVE_GAME_END]) →
  dispatch now command view flags s =
    (emit command (slice 0 payloadSize view) ;;
     writeCommand command view payloadSize ;;
     handleStatusOutput 200 ;;
     ret (payloadSize, flags)) s
  ∧ metadata (currentFile (run (dispatch now command view flags) s))
    = metadata (currentFile s).
Proof.
  intros Htab Hnz Hcase.
  assert (Hproc : processCommand command view s = (Ok payloadSize, s)).
  { destruct Hcase as [(-> & Hlen & Hfollower) | Hother].
    - destruct (getInt32_in_range view 0) as [frameIndex H0]; [lia|].
      destruct (getUint8_in_range view 4) as [playerIndex H4]; [lia|].
      destruct (getUint8_in_range view 5) as [isFollower H5]; [lia|].
      destruct (getUint8_in_range view 6) as [charId H6]; [lia|].
      rewrite (processCommand_update view s payloadSize _ _ _ _ Htab Hnz H0 H4 H5 H6).
      destruct (decide (isFollower ≠ 0)) as [|Hz]; [reflexivity|].
      exfalso. apply Hfollower. rewrite H5. f_equal. lia.
    - apply processCommand_other; [done| |]; intros ->; apply Hother; set_solver. }
  assert (Heq : dispatch now command view flags s =
    (emit command (slice 0 payloadSize view) ;;
     writeCommand command view payloadSize ;;
     handleStatusOutput 200 ;;
     ret (payloadSize, flags)) s).
  { unfold dispatch.
    destruct (decide (command = CMD_RECEIVE_COMMANDS)) as [->|_].
    { destruct Hcase as [(E & _)|Hother]; [discriminate E | exfalso; apply Hother; set_solver]. }
    destruct (decide (command = CMD_RECEIVE_GAME_END)) as [->|_].
    { destruct Hcase as [(E & _)|Hother]; [discriminate E | exfalso; apply Hother; set_solver]. }
    destruct (decide (command = CMD_GAME_START)) as [->|_].
    { destruct Hcase as [(E & _)|Hother]; [discriminate E | exfalso; apply Hother; set_solver]. }
    by rewrite (bind_ok _ _ _ _ _ Hproc). }
  split; [exact Heq|].
  unfold run at 1. rewrite Heq.
  assert (Hk : keeps (λ s, metadata (currentFile s))
    (emit command (slice 0 payloadSize view) ;;
     writeCommand command view payloadSize ;;
     handleStatusOutput 200 ;;
     ret (payloadSize, flags))).
  { keeps_tac.
    - apply writeCommand_metadata.
    - intros s'. f_equal. apply (handleStatusOutput_currentFile 200 s'). }
  apply Hk.
Qed.

Lemma C4_witness :
  dispatch sample_now CMD_RECEIVE_POST_FRAME_UPDATE (slice_from 1 follower_update)
      no_flags playing =
    (emit CMD_RECEIVE_POST_FRAME_UPDATE (slice 0 10 (slice_from 1 follower_update)) ;;
     writeCommand CMD_RECEIVE_POST_FRAME_UPDATE (slice_from 1 follower_update) 10 ;;
     handleStatusOutput 200 ;;
     ret (10, no_flags)) playing
  ∧ metadata (currentFile (run (dispatch sample_now CMD_RECEIVE_POST_FRAME_UPDATE
                                  (slice_from 1 follower_update) no_flags) playing))
    = metadata (currentFile playing).
Proof.
  apply (C4_follower_and_other_commands sample_now CMD_RECEIVE_POST_FRAME_UPDATE
           (slice_from 1 follower_update) no_flags playing 10).
  - vm_compute. reflexivity.
  - lia.
  - left. split; [reflexivity|]. split; [vm_compute; lia|]. vm_compute. discriminate.
Defined.

(** ** C8: the game-end frame *)



(** When the table has no payload for 0x39, no end method is read and no
    pulse is invoked; the bare command byte is handed on and [endGame] is
    called all the same. *)
Lemma game_end_unrecognized now view flags s :
  default 0 (payloadSizes (currentFile s) !! CMD_RECEIVE_GAME_END) = 0 →
  dispatch now CMD_RECEIVE_GAME_END view flags s =
    (emit CMD_RECEIVE_GAME_END [] ;;
     writeCommand CMD_RECEIVE_GAME_END view 0 ;;
     endGame ;;
     ret (0, {| isNewGame := isNewGame flags; isGameEnd := true |})) s.
Proof.
  intros Htab. unfold dispatch.
  destruct (decide (CMD_RECEIVE_GAME_END = CMD_RECEIVE_COMMANDS)) as [E|_];
    [discriminate E|].
  destruct (decide (CMD_RECEIVE_GAME_END = CMD_RECEIVE_GAME_END)) as [_|E]; [|done].
  by rewrite (bind_ok _ _ _ _ _ (processCommand_unrecognized _ view s Htab)).
Qed.

(** ** C10: nothing is shown during the loading stage *)

(** The handshake loop only ever touches the payload-size table. *)
Lemma receiveLoop_keeps {B} (f : SlpFileWriter → B) fuel view payloadLen i :
  (∀ table s, f (with_currentFile (with_payloadSizes table (currentFile s)) s) = f s) →
  keeps f (receiveLoop fuel view payloadLen i).
Proof.
  intros Hf. revert i. induction fuel as [|fuel IH]; intros i; simpl.
  - apply keeps_ret.
  - destruct (decide _); [|apply keeps_ret].
    apply keeps_bind; [apply keeps_checked|intros].
    apply keeps_bind; [apply keeps_checked|intros].
    apply keeps_bind; [|intros; apply IH].
    apply keeps_modify. intros s. apply Hf.
Qed.

Lemma processReceiveCommands_keeps {B} (f : SlpFileWriter → B) view :
  (∀ table s, f (with_currentFile (with_payloadSizes table (currentFile s)) s) = f s) →
  keeps f (processReceiveCommands view).
Proof.
  intros Hf. unfold processReceiveCommands.
  apply keeps_bind; [apply keeps_checked|intros].
  apply keeps_bind; [by apply receiveLoop_keeps|intros]. apply keeps_ret.
Qed.

Lemma initializeNewGame_visibility now : keeps visibility (initializeNewGame now).
Proof. unfold initializeNewGame. keeps_tac. Qed.

Lemma endGame_visibility : keeps visibility endGame.
Proof. unfold endGame. keeps_tac. Qed.

Lemma endGame_below s : below_threshold s → below_threshold (run endGame s).
Proof.
  unfold endGame, below_threshold. intros Hs.
  rewrite run_bind. simpl. change (run get s) with s.
  destruct (writeStream (currentFile s)); [|simpl; lia].
  assert (Hk : ∀ ws, keeps (λ s, metadata (currentFile s))
    (start <- match startTime (metadata (currentFile s)) with
               | Some m => ret m
               | None => throw TypeError
               end ;;
      footer <- checked (compose_footer (toISOString start)
                           (lastFrame (metadata (currentFile s)))
                           (consoleNick s)
                           (players (metadata (currentFile s)))) ;;
      modifyFile (with_writeStream (Some (stream_end (stream_write (FooterChunk footer) ws)))) ;;
      modify (λ s, with_pendingEnd (S (pendingEnd s)) s))).
  { intros. keeps_tac. }
  rewrite Hk. exact Hs.
Qed.

(** [processCommand] changes the current file only through a recognized,
    non-follower frame update. *)
Lemma processCommand_currentFile command view s :
  currentFile (run (processCommand command view) s) = currentFile s ∨
  ∃ payloadSize frameIndex playerIndex charId,
    command = CMD_RECEIVE_POST_FRAME_UPDATE ∧
    payloadSizes (currentFile s) !! command = Some payloadSize ∧ payloadSize ≠ 0 ∧
    getInt32 view 0 = Some frameIndex ∧ getUint8 view 4 = Some playerIndex ∧
    getUint8 view 5 = Some 0 ∧ getUint8 view 6 = Some charId ∧
    processCommand command view s =
      (Ok payloadSize,
       with_currentFile (frameUpdate frameIndex playerIndex charId (currentFile s)) s).
Proof.
  destruct (payloadSizes (currentFile s) !! command) as [payloadSize|] eqn:Htab.
  2:{ left. unfold run. rewrite processCommand_unrecognized; [done|]. by rewrite Htab. }
  destruct (decide (payloadSize = 0)) as [->|Hnz].
  { left. unfold run. rewrite processCommand_unrecognized; [done|]. by rewrite Htab. }
  destruct (decide (command = CMD_RECEIVE_POST_FRAME_UPDATE)) as [->|Hne].
  - destruct (decide (length view < 7)) as [Hshort|Hlong].
    { left. unfold run. by rewrite (processCommand_update_throw _ _ _ Htab Hnz Hshort). }
    destruct (getInt32_in_range view 0) as [frameIndex H0]; [lia|].
    destruct (getUint8_in_range view 4) as [playerIndex H4]; [lia|].
    destruct (getUint8_in_range view 5) as [isFollower H5]; [lia|].
    destruct (getUint8_in_range view 6) as [charId H6]; [lia|].
    pose proof (processCommand_update view s payloadSize _ _ _ _ Htab Hnz H0 H4 H5 H6) as Heq.
    destruct (decide (isFollower ≠ 0)) as [|Hz].
    + left. unfold run. by rewrite Heq.
    + right. exists payloadSize, frameIndex, playerIndex, charId.
      assert (isFollower = 0) as -> by lia. done.
  - left. destruct (decide (command = CMD_RECEIVE_GAME_END)) as [->|Hne'].
    + unfold processCommand. rewrite run_bind. simpl. change (run get s) with s.
      rewrite Htab. destruct payloadSize as [|n]; [done|].
      assert (Hk : keeps currentFile
        ((endMethod <- checked (getUint8 view 0);;
          (if decide (endMethod ≠ 7) then handleStatusOutput 700 else ret ())) ;; ret (S n))).
      { keeps_tac; apply handleStatusOutput_currentFile. }
      apply Hk.
    + unfold run. by rewrite (processCommand_other _ _ _ _ Htab Hne Hne').
Qed.

Lemma processCommand_quiet command view s :
  below_threshold s → visibility (run (processCommand command view) s) = visibility s.
Proof.
  intros Hlow. unfold processCommand. rewrite run_bind. simpl. change (run get s) with s.
  destruct (payloadSizes (currentFile s) !! command) as [[|n]|]; [done| |done].
  destruct (decide (command = CMD_RECEIVE_POST_FRAME_UPDATE)).
  { assert (Hk : ∀ view, keeps visibility
      ((frameIndex <- checked (getInt32 view 0);;
        playerIndex <- checked (getUint8 view 4);;
        isFollower <- checked (getUint8 view 5);;
        internalCharacterId <- checked (getUint8 view 6);;
        (if decide (isFollower ≠ 0) then ret ()
         else
          modifyFile (λ cf, with_metadata (with_lastFrame frameIndex (metadata cf)) cf);;
          modifyFile (λ cf, with_metadata
            (with_players (countCharacterFrame playerIndex internalCharacterId
                             (players (metadata cf))) (metadata cf)) cf)));;
       ret (S n))).
    { intros. keeps_tac. }
    apply Hk. }
  destruct (decide (command = CMD_RECEIVE_GAME_END)); [|done].
  unfold run, bind, checked.
  destruct (getUint8 view 0) as [endMethod|]; [|done]. simpl.
  destruct (decide (endMethod ≠ 7)); [|done].
  by rewrite (handleStatusOutput_below 700 s Hlow).
Qed.

Lemma writeCommand_result command payloadPtr payloadLen s :
  result (writeCommand command payloadPtr payloadLen) s = Ok tt.
Proof.
  unfold writeCommand, result. unfold_M. by destruct (writeStream (currentFile s)).
Qed.

Lemma endGame_metadata s :
  metadata (currentFile (run endGame s)) = metadata (currentFile s)
  ∨ currentFile (run endGame s) = getClearedCurrentFile.
Proof.
  unfold endGame. rewrite run_bind. simpl. change (run get s) with s.
  destruct (writeStream (currentFile s)); [left|by right].
  assert (Hk : ∀ ws, keeps (λ s, metadata (currentFile s))
    (start <- match startTime (metadata (currentFile s)) with
               | Some m => ret m
               | None => throw TypeError
               end ;;
      footer <- checked (compose_footer (toISOString start)
                           (lastFrame (metadata (currentFile s)))
                           (consoleNick s)
                           (players (metadata (currentFile s)))) ;;
      modifyFile (with_writeStream (Some (stream_end (stream_write (FooterChunk footer) ws)))) ;;
      modify (λ s, with_pendingEnd (S (pendingEnd s)) s))).
  { intros. keeps_tac. }
  apply Hk.
Qed.

Lemma dispatch_handshake_visibility now view flags :
  keeps visibility (dispatch now CMD_RECEIVE_COMMANDS view flags).
Proof.
  unfold dispatch. simpl. keeps_tac.
  - apply initializeNewGame_visibility.
  - by apply processReceiveCommands_keeps.
  - apply writeCommand_visibility.
Qed.

Lemma dispatch_handshake_metadata now view flags s :
  metadata (currentFile (run (dispatch now CMD_RECEIVE_COMMANDS view flags) s))
  = {| startTime := Some now; lastFrame := -124; players := ∅ |}.
Proof.
  unfold dispatch. simpl. rewrite run_bind.
  assert (result (initializeNewGame now) s = Ok tt) as ->
    by (unfold result; by rewrite initializeNewGame_eq).
  assert (Hk : keeps (λ s, metadata (currentFile s))
    (payloadLen <- processReceiveCommands view ;;
     emit CMD_RECEIVE_COMMANDS (slice 0 payloadLen view) ;;
     writeCommand CMD_RECEIVE_COMMANDS view payloadLen ;;
     onFileStateChange ;;
     ret (payloadLen, {| isNewGame := true; isGameEnd := isGameEnd flags |}))).
  { keeps_tac; [by apply processReceiveCommands_keeps | apply writeCommand_metadata]. }
  rewrite Hk. unfold run. by rewrite initializeNewGame_eq.
Qed.

Lemma dispatch_other now command view flags :
  command ≠ CMD_RECEIVE_COMMANDS →
  dispatch now command view flags =
    (payloadLen <- processCommand command view ;;
     afterProcess command view flags payloadLen).
Proof.
  intros Hne. unfold dispatch, afterProcess.
  destruct (decide (command = CMD_RECEIVE_COMMANDS)); [done|].
  destruct (decide (command = CMD_RECEIVE_GAME_END)); [done|].
  destruct (decide (command = CMD_GAME_START)); done.
Qed.

Lemma afterProcess_lastFrame command view flags payloadLen s :
  metadata (currentFile (run (afterProcess command view flags payloadLen) s))
    = metadata (currentFile s)
  ∨ currentFile (run (afterProcess command view flags payloadLen) s) = getClearedCurrentFile.
Proof.
  unfold afterProcess. rewrite run_bind. simpl.
  rewrite run_bind, writeCommand_result.
  set (s1 := run (emit _ _) s). set (s2 := run (writeCommand _ _ _) s1).
  assert (Hm : metadata (currentFile s2) = metadata (currentFile s)).
  { unfold s2. by rewrite writeCommand_metadata. }
  destruct (decide (command = CMD_RECEIVE_GAME_END)).
  - rewrite run_bind.
    destruct (endGame_metadata s2) as [H|H].
    + left. destruct (result endGame s2); rewrite ?run_ret; congruence.
    + right. by destruct (result endGame s2); rewrite ?run_ret.
  - left. destruct (decide (command = CMD_GAME_START)); [done|].
    rewrite run_bind.
    pose proof (handleStatusOutput_currentFile 200 s2) as Hc. simpl in Hc.
    destruct (result (handleStatusOutput 200) s2); rewrite ?run_ret; congruence.
Qed.

Lemma afterProcess_quiet command view flags payloadLen s :
  below_threshold (run (afterProcess command view flags payloadLen) s) →
  visibility (run (afterProcess command view flags payloadLen) s) = visibility s.
Proof.
  unfold afterProcess. rewrite run_bind. simpl.
  rewrite run_bind, writeCommand_result.
  set (s1 := run (emit _ _) s). set (s2 := run (writeCommand _ _ _) s1).
  assert (Hv : visibility s2 = visibility s).
  { unfold s2. rewrite writeCommand_visibility. unfold s1, emit.
    assert (Hk : ∀ c p, keeps visibility (perform (Dispatched c p))) by (intros; keeps_tac).
    apply Hk. }
  destruct (decide (command = CMD_RECEIVE_GAME_END)).
  - intros _. rewrite run_bind.
    destruct (result endGame s2); rewrite ?run_ret; by rewrite endGame_visibility.
  - destruct (decide (command = CMD_GAME_START)); [done|].
    rewrite run_bind.
    pose proof (handleStatusOutput_currentFile 200 s2) as Hc. simpl in Hc.
    assert (Hrun : below_threshold (run (handleStatusOutput 200) s2) →
                   run (handleStatusOutput 200) s2 = s2).
    { unfold below_threshold. rewrite Hc. intros Hlow. unfold run.
      by rewrite (handleStatusOutput_below 200 s2 Hlow). }
    destruct (result (handleStatusOutput 200) s2); rewrite ?run_ret; intros Hlow;
      by rewrite (Hrun Hlow).
Qed.

Lemma dispatch_quiet now command view flags s :
  below_threshold s →
  below_threshold (run (dispatch now command view flags) s) →
  visibility (run (dispatch now command view flags) s) = visibility s.
Proof.
  intros Hs Hs'. destruct (decide (command = CMD_RECEIVE_COMMANDS)) as [->|Hne].
  - apply dispatch_handshake_visibility.
  - rewrite (dispatch_other _ _ _ _ Hne) in *. rewrite run_bind in *.
    destruct (result (processCommand command view) s).
    + rewrite afterProcess_quiet; [|done]. by apply processCommand_quiet.
    + by apply processCommand_quiet.
Qed.

(** [lastFrame] is left as it was, reset to -124, or set to the frame index of
    a non-follower frame update. *)
Lemma dispatch_lastFrame now command view flags s :
  let s' := run (dispatch now command view flags) s in
  lastFrame (metadata (currentFile s')) = lastFrame (metadata (currentFile s))
  ∨ lastFrame (metadata (currentFile s')) = (-124)%Z
  ∨ (command = CMD_RECEIVE_POST_FRAME_UPDATE ∧ getUint8 view 5 = Some 0 ∧
     getInt32 view 0 = Some (lastFrame (metadata (currentFile s')))).
Proof.
  intros s'. unfold s'. destruct (decide (command = CMD_RECEIVE_COMMANDS)) as [->|Hne].
  { right. left. by rewrite dispatch_handshake_metadata. }
  rewrite (dispatch_other _ _ _ _ Hne). rewrite run_bind.
  destruct (processCommand_currentFile command view s)
    as [Hsame | (L & fi & p & ch & -> & _ & _ & H0 & _ & H5 & _ & Heq)].
  - destruct (result (processCommand command view) s) as [L|e].
    + destruct (afterProcess_lastFrame command view flags L (run (processCommand command view) s))
        as [-> | ->]; [left; by rewrite Hsame | right; by left].
    + left. by rewrite Hsame.
  - assert (Hres : result (processCommand CMD_RECEIVE_POST_FRAME_UPDATE view) s = Ok L)
      by (unfold result; by rewrite Heq).
    assert (Hrun : run (processCommand CMD_RECEIVE_POST_FRAME_UPDATE view) s
                   = with_currentFile (frameUpdate fi p ch (currentFile s)) s)
      by (unfold run; by rewrite Heq).
    rewrite Hres, Hrun.
    destruct (afterProcess_lastFrame CMD_RECEIVE_POST_FRAME_UPDATE view flags L
                (with_currentFile (frameUpdate fi p ch (currentFile s)) s)) as [-> | ->].
    + right. right. done.
    + right. by left.
Qed.

Lemma relay_eq s :
  relay s =
    (Ok tt,
     with_clients (cursors_at (length (fullBuffer (currentFile s))) (clients s))
       (with_effects
          (effects s ++ map (λ client, SocketWrite (socket client)
                                         (slice_from (readPos client) (fullBuffer (currentFile s))))
                            (clients s)) s)).
Proof. reflexivity. Qed.

Lemma same_visibility_hidden s s' : visibility s' = visibility s → hidden_at_most s s'.
Proof.
  unfold visibility. intros [= Hout Heff]. unfold hidden_at_most. rewrite Hout, Heff.
  split; [done|]. split; [done|]. exists []. by rewrite app_nil_r.
Qed.

#[local] Instance hidden_at_most_preorder : PreOrder hidden_at_most.
Proof.
  split.
  - intros s. by apply same_visibility_hidden.
  - intros s1 s2 s3 (Ht1 & Hs1 & h1 & He1 & Hh1) (Ht2 & Hs2 & h2 & He2 & Hh2).
    split; [congruence|]. split; [tauto|].
    exists (h1 ++ h2). rewrite He2, He1, (assoc_L (++)). split; [done|]. by apply Forall_app.
Qed.

(** [parse_states] follows [parseLoop]: the last state it lists is the state
    the loop ends in, up to the tail the loop retains (and the state of the
    start, where no frame is dispatched). *)
Lemma parse_states_end fuel now data index flags s :
  let settled t := with_currentFile (with_previousBuffer [] (currentFile t)) t in
  settled (run (parseLoop fuel now data index flags) s)
  = settled (default s (last (parse_states fuel now data index flags s))).
Proof.
  intros settled. revert index flags s.
  induction fuel as [|fuel IH]; intros index flags s; [done|].
  unfold run. simpl.
  destruct (decide (index < length data)) as [Hlt|]; [|done].
  destruct (decide (slice index (index + 5) data = HELO)); [by apply IH|].
  destruct (getUint8 data index) as [command|] eqn:Hcmd; [|done].
  unfold checked. rewrite (bind_ok (ret command) _ s command s) by done.
  rewrite (bind_ok get _ s s s) by done.
  destruct (decide (length data - index
                    < default 0 (payloadSizes (currentFile s) !! command) + 1)); [done|].
  set (s1 := run (modifyFile (with_previousBuffer [])) s) in *.
  rewrite (bind_ok (modifyFile (with_previousBuffer [])) _ s tt s1) by done.
  destruct (dispatch now command (slice_from (index + 1) data) flags s1) as [[frame|e] s2] eqn:Hd.
  - rewrite (bind_ok _ _ s1 frame s2 Hd).
    specialize (IH (index + 1 + frame.1) frame.2 s2). unfold run in IH. rewrite IH.
    f_equal. rewrite last_cons. by destruct (last _).
  - by rewrite (bind_throw _ _ s1 e s2 Hd).
Qed.

Lemma parseLoop_quiet fuel now data index flags s :
  below_threshold s →
  Forall below_threshold (parse_states fuel now data index flags s) →
  visibility (run (parseLoop fuel now data index flags) s) = visibility s ∧
  below_threshold (run (parseLoop fuel now data index flags) s).
Proof.
  revert index flags s. induction fuel as [|fuel IH]; intros index flags s Hs Hall; [done|].
  simpl in Hall. unfold run. simpl.
  destruct (decide (index < length data)) as [Hlt|]; [|done].
  destruct (decide (slice index (index + 5) data = HELO)); [by apply IH|].
  destruct (getUint8 data index) as [command|] eqn:Hcmd; [|done].
  unfold checked. rewrite (bind_ok (ret command) _ s command s) by done.
  rewrite (bind_ok get _ s s s) by done.
  simpl in Hall.
  destruct (decide (length data - index
                    < default 0 (payloadSizes (currentFile s) !! command) + 1)); [done|].
  set (s1 := run (modifyFile (with_previousBuffer [])) s) in *.
  rewrite (bind_ok (modifyFile (with_previousBuffer [])) _ s tt s1) by done.
  assert (Hs1 : below_threshold s1) by exact Hs.
  assert (Hv1 : visibility s1 = visibility s) by done.
  pose proof (dispatch_quiet now command (slice_from (index + 1) data) flags s1 Hs1) as Hq.
  unfold run in Hq.
  destruct (dispatch now command (slice_from (index + 1) data) flags s1) as [[frame|e] s2] eqn:Hd.
  - apply Forall_cons in Hall as [Hs2 Hall].
    rewrite (bind_ok _ _ s1 frame s2 Hd).
    destruct (IH _ _ _ Hs2 Hall) as [Hv Hb]. split; [|exact Hb].
    unfold run in Hv. rewrite Hv, <- Hv1. by apply Hq.
  - apply Forall_cons in Hall as [Hs2 _].
    rewrite (bind_throw _ _ s1 e s2 Hd). simpl. split; [|done].
    rewrite <- Hv1. by apply Hq.
Qed.

Lemma handleData_quiet now newData s :
  below_threshold s →
  Forall below_threshold (turn_states s (Deliver now newData)) →
  visibility (step s (Deliver now newData)) = visibility s.
Proof.
  intros Hs Hall. unfold turn_states in Hall. apply Forall_app in Hall as [Hall _].
  simpl. unfold handleData. rewrite run_get_bind.
  set (data := previousBuffer (currentFile s) ++ newData) in *.
  destruct (parseLoop_quiet _ _ _ _ _ _ Hs Hall) as [Hv _].
  rewrite run_bind. destruct (result _ s) as [flags|]; [|done].
  set (mid := run _ s) in *.
  rewrite run_bind. simpl result. cbv iota. rewrite run_bind.
  unfold result, run at 1 2 3. rewrite relay_eq. simpl.
  rewrite <- Hv. unfold visibility, status_effects. simpl. f_equal.
  rewrite List.filter_app.
  assert (List.filter is_status_effect
            (map (λ client, SocketWrite (socket client)
                    (slice_from (readPos client) (fullBuffer (currentFile mid) ++ newData)))
                 (clients mid)) = []) as ->; [|by rewrite app_nil_r].
  by induction (clients mid).
Qed.

Lemma onTimeout_hides s : hidden_at_most s (run onTimeout s).
Proof.
  unfold onTimeout, setStatus, run. unfold_M. simpl.
  split; [done|]. split; [done|].
  exists (map (λ pair, ObsSetVisible pair.1 (obsSourceName s) false) (obsPairs s)).
  unfold status_effects. simpl. rewrite List.filter_app. split.
  - f_equal. by induction (obsPairs s) as [|pair pairs IH]; [|simpl; rewrite IH].
  - apply Forall_map. by apply Forall_true.
Qed.

Lemma onStreamFinished_visibility : keeps visibility onStreamFinished.
Proof. unfold onStreamFinished. keeps_tac. Qed.

Lemma step_quiet s e :
  below_threshold s →
  Forall below_threshold (turn_states s e) →
  hidden_at_most s (step s e) ∧ (e ≠ TimerFired → visibility (step s e) = visibility s).
Proof.
  intros Hs Hall. destruct e as [now newData| | |sock|sock|pairs].
  - pose proof (handleData_quiet now newData s Hs Hall) as Hv.
    split; [by apply same_visibility_hidden | done].
  - assert (Hv : visibility (step s StreamFinished) = visibility s).
    { simpl. destruct (pendingEnd s) as [|n]; [done|].
      by rewrite onStreamFinished_visibility. }
    split; [by apply same_visibility_hidden | done].
  - split; [apply onTimeout_hides | done].
  - assert (Hv : visibility (step s (Connect sock)) = visibility s)
      by (simpl; by destruct (server s)).
    split; [by apply same_visibility_hidden | done].
  - split; [by apply same_visibility_hidden | done].
  - split; [by apply same_visibility_hidden | done].
Qed.

Lemma turn_states_last s e : step s e ∈ turn_states s e.
Proof. unfold turn_states. apply elem_of_app. right. by left. Qed.

Lemma steps_quiet events s :
  below_threshold s →
  Forall below_threshold (visited_states s events) →
  hidden_at_most s (steps s events) ∧
  (TimerFired ∉ events → visibility (steps s events) = visibility s).
Proof.
  revert s. induction events as [|e events IH]; intros s Hs Hall.
  { split; [reflexivity | done]. }
  simpl in Hall. apply Forall_app in Hall as [Hturn Hrest].
  assert (Hs1 : below_threshold (step s e)).
  { rewrite Forall_forall in Hturn. apply Hturn, turn_states_last. }
  destruct (step_quiet s e Hs Hturn) as [H1 Hv1].
  destruct (IH (step s e) Hs1 Hrest) as [H2 Hv2].
  simpl. split; [by etrans|].
  intros Hno. rewrite Hv2, Hv1; [done| |].
  - intros ->. apply Hno. by left.
  - intros Hin. apply Hno. by right.
Qed.

(** C10 (amended): a cleared current file, and the one [initializeNewGame]
    installs, have [lastFrame] = -124, which is below -60.  From a state below
    the threshold, only a non-follower frame update can bring [lastFrame] to
    -60 or above.  And over any run of the event loop that stays below the
    threshold, at every frame dispatched and at the end of every turn, every
    status pulse is ignored: the source is never shown and no timer is armed
    or cleared.  The calls made are those of a timer that was armed before
    and fires now, which hides the source; without a timer firing, the
    visibility flag, the timer handle and the calls made are those of the
    start. *)
Theorem C10_quiet_until_threshold (now : Moment) (s : SlpFileWriter) (events : list Event) :
  (lastFrame (metadata getClearedCurrentFile) = -124 ∧
   lastFrame (metadata (currentFile (run (initializeNewGame now) s))) = -124 ∧
   -124 < -60)%Z ∧
  (∀ command view flags,
     below_threshold s →
     ¬ below_threshold (run (dispatch now command view flags) s) →
     command = CMD_RECEIVE_POST_FRAME_UPDATE ∧ getUint8 view 5 = Some 0 ∧
     getInt32 view 0 =
       Some (lastFrame (metadata (currentFile (run (dispatch now command view flags) s))))) ∧
  (below_threshold s →
   Forall below_threshold (visited_states s events) →
   hidden_at_most s (steps s events) ∧
   (TimerFired ∉ events → visibility (steps s events) = visibility s)).
Proof.
  split; [|split].
  - split; [reflexivity|]. split; [|lia]. unfold run. by rewrite initializeNewGame_eq.
  - intros command view flags Hs Hs'.
    destruct (dispatch_lastFrame now command view flags s) as [H | [H | H]].
    + exfalso. apply Hs'. unfold below_threshold in *. by rewrite H.
    + exfalso. apply Hs'. unfold below_threshold. rewrite H. lia.
    + exact H.
  - intros Hs Hall. by apply steps_quiet.
Qed.

Lemma C10_witness :
  hidden_at_most next_game
    (steps next_game [Deliver sample_later update_minus100; TimerFired; StreamFinished]) ∧
  (TimerFired ∉ [Deliver sample_later update_minus100; TimerFired; StreamFinished] →
   visibility (steps next_game [Deliver sample_later update_minus100; TimerFired; StreamFinished])
   = visibility next_game).
Proof.
  apply (proj2 (proj2 (C10_quiet_until_threshold sample_now next_game
    [Deliver sample_later update_minus100; TimerFired; StreamFinished]))).
  - apply (bool_decide_unpack _). vm_compute. exact I.
  - apply (bool_decide_unpack _). vm_compute. exact I.
Defined.

(** C10, where the original statement fails: a call that toggles visibility
    while [lastFrame] is -124.  A game was being shown when the handshake of
    the next game arrived; the auto-hide timer armed by the last pulse of the
    first game (handle 0, never cleared) fires before the first frame update
    of the new session and hides the source. *)
Lemma C10_counterexample :
  lastFrame (metadata (currentFile next_game)) = (-124)%Z ∧
  statusOutput next_game = {| status := true; timeout := Some 0 |} ∧
  status_effects next_game = [ObsSetVisible "scene" "live" true; SetTimeout 0 200] ∧
  lastFrame (metadata (currentFile (step next_game TimerFired))) = (-124)%Z ∧
  effects (step next_game TimerFired)
    = effects next_game ++ [ObsSetVisible "scene" "live" false].
Proof. vm_compute. done. Qed.

(** ** Relations between the state before and after a method *)


Section Within.
Context (R : relation SlpFileWriter) `{!PreOrder R}.

Lemma within_ret {A} (a : A) : within R (ret a).
Proof. intros s. reflexivity. Qed.

Lemma within_throw {A} e : within R (@throw A e).
Proof. intros s. reflexivity. Qed.

Lemma within_get : within R get.
Proof. intros s. reflexivity. Qed.

Lemma within_checked {A} (o : option A) : within R (checked o).
Proof. destruct o; intros s; reflexivity. Qed.

Lemma within_bind {A C} (m : M A) (k : A → M C) :
  within R m → (∀ a, within R (k a)) → within R (bind m k).
Proof.
  intros Hm Hk s. rewrite run_bind.
  destruct (result m s); [|apply Hm].
  etrans; [apply Hm | apply Hk].
Qed.

Lemma within_modify g : (∀ s, R s (g s)) → within R (modify g).
Proof. intros H s. apply H. Qed.

(** The loop of [handleData] stays within [R] when updates of the retained
    tail and the handling of any frame that passed the length check do. *)
Lemma within_parseLoop fuel now data index flags :
  (∀ tail, within R (modifyFile (with_previousBuffer tail))) →
  (∀ command view fl s,
     default 0 (payloadSizes (currentFile s) !! command) ≤ length view →
     R s (run (dispatch now command view fl) s)) →
  within R (parseLoop fuel now data index flags).
Proof.
  intros Htail Hdisp. revert index flags.
  induction fuel as [|fuel IH]; intros index flags; simpl.
  - apply within_ret.
  - destruct (decide (index < length data)) as [Hlt|]; [|apply within_ret].
    destruct (decide (slice index (index + 5) data = HELO)); [apply IH|].
    apply within_bind; [apply within_checked|intros command].
    intros s. rewrite run_bind. simpl. change (run get s) with s.
    destruct (decide (length data - index <
                      default 0 (payloadSizes (currentFile s) !! command) + 1)) as [|Hfit].
    { apply within_bind; [apply Htail | intros; apply within_ret]. }
    rewrite run_bind. simpl result. cbv iota.
    etrans; [apply (Htail [])|].
    set (s1 := run (modifyFile (with_previousBuffer [])) s).
    rewrite run_bind.
    assert (Hd : R s1 (run (dispatch now command (slice_from (index + 1) data) flags) s1)).
    { apply Hdisp. unfold slice_from. rewrite length_drop. simpl. lia. }
    destruct (result _ s1); [|exact Hd].
    etrans; [exact Hd | apply IH].
Qed.

End Within.

Lemma bind_ext {A B} (m : M A) (k1 k2 : A → M B) s :
  (∀ a s', k1 a s' = k2 a s') → bind m k1 s = bind m k2 s.
Proof. intros H. unfold bind. destruct (m s) as [[a|e] s']; [apply H | done]. Qed.

Lemma parseLoop_fuel fuel1 fuel2 now data index flags s :
  length data - index < fuel1 → length data - index < fuel2 →
  parseLoop fuel1 now data index flags s = parseLoop fuel2 now data index flags s.
Proof.
  revert fuel2 index flags s.
  induction fuel1 as [|fuel1 IH]; intros fuel2 index flags s H1 H2; [lia|].
  destruct fuel2 as [|fuel2]; [lia|]. simpl.
  destruct (decide (index < length data)) as [Hlt|]; [|done].
  destruct (decide (slice index (index + 5) data = HELO)); [apply IH; lia|].
  apply bind_ext; intros command s0.
  apply bind_ext; intros s1 s1'.
  destruct (decide _); [done|].
  apply bind_ext; intros _ s2.
  apply bind_ext; intros frame s3.
  apply IH; lia.
Qed.

(** ** C6: every client is sent the accumulated buffer from its cursor on *)


#[local] Instance cursor_kept_or_reset_preorder : PreOrder cursor_kept_or_reset.
Proof.
  split.
  - intros c. split; auto.
  - intros c1 c2 c3 [E1 H1] [E2 H2]. split; [congruence|].
    destruct H2 as [H2|H2]; [rewrite H2; exact H1 | by right].
Qed.

#[local] Instance relay_reset_preorder : PreOrder relay_reset.
Proof.
  split.
  - intros s. split; [by left|]. split; [reflexivity|].
    exists []. by rewrite app_nil_r.
  - intros s1 s2 s3 (Hb1 & Hc1 & new1 & He1 & Hn1) (Hb2 & Hc2 & new2 & He2 & Hn2).
    split; [|split].
    + destruct Hb2 as [-> | ->]; auto.
    + etrans; eauto.
    + exists (new1 ++ new2). rewrite He2, He1, <- (assoc_L (++)). split; [done|].
      by apply Forall_app.
Qed.

Lemma relay_reset_leaf s s' new :
  (fullBuffer (currentFile s') = fullBuffer (currentFile s)
   ∨ fullBuffer (currentFile s') = []) →
  Forall2 cursor_kept_or_reset (clients s) (clients s') →
  effects s' = effects s ++ new →
  Forall (λ e, is_socket_write e = false) new →
  relay_reset s s'.
Proof. intros. split; [done|]. split; [done|]. by exists new. Qed.

Lemma cursors_reset (cs : list Client) :
  Forall2 cursor_kept_or_reset cs
    (map (λ client, {| socket := socket client; readPos := 0 |}) cs).
Proof. induction cs; constructor; [split; auto | done]. Qed.

Lemma no_socket_write_map {X} (g : X → Effect) (l : list X) :
  (∀ x, is_socket_write (g x) = false) → Forall (λ e, is_socket_write e = false) (map g l).
Proof. intros H. apply Forall_map. by apply Forall_true. Qed.

Ltac relay_leaf :=
  intros;
  first
    [ eapply relay_reset_leaf with (new := []);
      [ simpl; auto | simpl; first [reflexivity | apply cursors_reset]
      | simpl; by rewrite app_nil_r | constructor ]
    | eapply relay_reset_leaf;
      [ simpl; auto | simpl; first [reflexivity | apply cursors_reset]
      | simpl; reflexivity
      | first [ by repeat constructor | by apply no_socket_write_map ] ] ].

Ltac within_step leaf :=
  lazymatch goal with
  | |- within _ (bind _ _) => apply within_bind; [try apply _| |intros]
  | |- within _ (ret _) => apply within_ret; apply _
  | |- within _ (throw _) => apply within_throw; apply _
  | |- within _ get => apply within_get; apply _
  | |- within _ (checked _) => apply within_checked; apply _
  | |- within _ (modify _) => apply within_modify; leaf
  | |- within _ (modifyFile _) => apply within_modify; leaf
  | |- within _ (perform _) => apply within_modify; leaf
  | |- within _ (emit _ _) => apply within_modify; leaf
  | |- within _ onFileStateChange => apply within_modify; leaf
  | |- within _ (setStatus _) => unfold setStatus
  | |- within _ (setTimer _) => unfold setTimer
  | |- within _ (handleStatusOutput _) => unfold handleStatusOutput
  | |- within _ (writeCommand _ _ _) => unfold writeCommand
  | |- within _ (initializeNewGame _) => unfold initializeNewGame
  | |- within _ endGame => unfold endGame
  | |- within _ (processCommand _ _) => unfold processCommand
  | |- within _ (afterProcess _ _ _ _) => unfold afterProcess
  | |- within _ (dispatch _ _ _ _) => unfold dispatch
  | |- within _ (match ?x with _ => _ end) => destruct x
  end.

Ltac within_tac leaf := repeat within_step leaf.

Lemma within_receiveLoop R `{!PreOrder R} fuel view payloadLen i :
  (∀ table s, R s (with_currentFile (with_payloadSizes table (currentFile s)) s)) →
  within R (receiveLoop fuel view payloadLen i).
Proof.
  intros Hf. revert i. induction fuel as [|fuel IH]; intros i; simpl.
  - by apply within_ret.
  - destruct (decide _); [|by apply within_ret].
    apply within_bind; [done|by apply within_checked|intros].
    apply within_bind; [done|by apply within_checked|intros].
    apply within_bind; [done| |intros; apply IH].
    apply within_modify. intros s. apply Hf.
Qed.

Lemma within_processReceiveCommands R `{!PreOrder R} view :
  (∀ table s, R s (with_currentFile (with_payloadSizes table (currentFile s)) s)) →
  within R (processReceiveCommands view).
Proof.
  intros Hf. unfold processReceiveCommands.
  apply within_bind; [done|by apply within_checked|intros].
  apply within_bind; [done|by apply within_receiveLoop|intros]. by apply within_ret.
Qed.

Lemma dispatch_relay_reset now command view flags :
  within relay_reset (dispatch now command view flags).
Proof.
  within_tac relay_leaf.
  apply within_processReceiveCommands; [apply _|]. relay_leaf.
Qed.


Lemma parseLoop_relay_reset fuel now data index flags :
  within relay_reset (parseLoop fuel now data index flags).
Proof.
  apply within_parseLoop; [apply _| |].
  - intros tail. apply within_modify. relay_leaf.
  - intros. apply dispatch_relay_reset.
Qed.

Lemma relay_after_compose h1 g1 h2 g2 r :
  relay_after h2 g2 (relay_after h1 g1 r) = relay_after (h1 || h2) (g1 || g2) r.
Proof.
  destruct r as [[cs idl] buf]. unfold relay_after.
  destruct h1, h2; simpl; try done.
  - unfold cursors_at. by rewrite map_map.
  - by rewrite andb_false_r.
  - by destruct g1, g2, idl.
Qed.

Lemma relay_after_none r : relay_after false false r = r.
Proof. by destruct r as [[? ?] ?]. Qed.

Lemma handleStatusOutput_relay_state t : keeps relay_state (handleStatusOutput t).
Proof. unfold handleStatusOutput, setStatus, setTimer. keeps_tac. Qed.

Lemma processCommand_relay_state command view : keeps relay_state (processCommand command view).
Proof. unfold processCommand. keeps_tac; apply handleStatusOutput_relay_state. Qed.

Lemma writeCommand_relay_state command payloadPtr payloadLen :
  keeps relay_state (writeCommand command payloadPtr payloadLen).
Proof.
  intros s. unfold writeCommand, run. unfold_M. unfold relay_state, idle.
  destruct (writeStream (currentFile s)) as [ws|] eqn:Hws; simpl; by rewrite ?Hws.
Qed.

Lemma endGame_relay_state s :
  relay_state (run endGame s) = relay_after false true (relay_state s).
Proof.
  unfold endGame, run. unfold_M. unfold relay_state, relay_after, idle. simpl.
  destruct (writeStream (currentFile s)) as [ws|] eqn:Hws; simpl; [|done].
  destruct (startTime _); simpl; [|by rewrite Hws].
  destruct (compose_footer _ _ _ _); simpl; by rewrite ?Hws.
Qed.

(** One frame: the flags it raises and what it does to the relay state. *)
Lemma dispatch_relay_state now command view flags s frame s' :
  dispatch now command view flags s = (Ok frame, s') →
  isNewGame frame.2 = isNewGame flags || bool_decide (command = CMD_RECEIVE_COMMANDS) ∧
  isGameEnd frame.2 = isGameEnd flags || bool_decide (command = CMD_RECEIVE_GAME_END) ∧
  relay_state s' = relay_after (bool_decide (command = CMD_RECEIVE_COMMANDS))
                               (bool_decide (command = CMD_RECEIVE_GAME_END)) (relay_state s).
Proof.
  intros Hd.
  assert (Hrun : run (dispatch now command view flags) s = s') by (unfold run; by rewrite Hd).
  assert (Hres : result (dispatch now command view flags) s = Ok frame)
    by (unfold result; by rewrite Hd).
  clear Hd. revert Hrun Hres.
  destruct (decide (command = CMD_RECEIVE_COMMANDS)) as [->|Hne].
  - unfold dispatch. rewrite decide_True by done.
    rewrite run_bind, result_bind.
    assert (result (initializeNewGame now) s = Ok tt) as ->
      by (unfold result; by rewrite initializeNewGame_eq).
    assert (H1 : relay_state (run (initializeNewGame now) s)
                 = relay_after true false (relay_state s))
      by (unfold run; by rewrite initializeNewGame_eq).
    set (s1 := run (initializeNewGame now) s) in *.
    rewrite run_bind, result_bind.
    pose proof (processReceiveCommands_keeps relay_state view (λ _ _, eq_refl) s1) as H2.
    destruct (result (processReceiveCommands view) s1) as [len|]; [|done].
    set (s2 := run (processReceiveCommands view) s1) in *.
    rewrite run_bind, result_bind. simpl result at 1 3. cbv iota.
    set (s3 := run (emit _ _) s2).
    assert (H3 : relay_state s3 = relay_state s2) by done.
    rewrite run_bind, result_bind, writeCommand_result.
    pose proof (writeCommand_relay_state CMD_RECEIVE_COMMANDS view len s3) as H4.
    set (s4 := run (writeCommand _ _ _) s3) in *.
    rewrite run_bind, result_bind. simpl result at 1 3. cbv iota.
    rewrite run_ret. intros <- [= <-]. simpl.
    rewrite orb_true_r, orb_false_r. split; [done|]. split; [done|].
    change (relay_state (run onFileStateChange s4)) with (relay_state s4).
    by rewrite H4, H3, H2, H1.
  - rewrite (dispatch_other _ _ _ _ Hne), run_bind, result_bind.
    pose proof (processCommand_relay_state command view s) as H1.
    destruct (result (processCommand command view) s) as [len|]; [|done].
    set (s1 := run (processCommand command view) s) in *.
    rewrite (bool_decide_eq_false_2 _ Hne), orb_false_r.
    unfold afterProcess.
    rewrite run_bind, result_bind.
    change (result (emit command (slice 0 len view)) s1) with (Ok tt). cbv iota.
    set (s2 := run (emit _ _) s1).
    assert (H2 : relay_state s2 = relay_state s1) by done.
    rewrite run_bind, result_bind, writeCommand_result.
    pose proof (writeCommand_relay_state command view len s2) as H3.
    set (s3 := run (writeCommand _ _ _) s2) in *.
    assert (Hsame : relay_state s3 = relay_state s) by (by rewrite H3, H2, H1).
    destruct (decide (command = CMD_RECEIVE_GAME_END)) as [->|Hne2].
    + rewrite run_bind, result_bind.
      pose proof (endGame_relay_state s3) as H4.
      destruct (result endGame s3); [|done].
      rewrite run_ret. intros <- [= <-]. simpl. rewrite orb_true_r.
      split; [done|]. split; [done|]. by rewrite H4, Hsame.
    + rewrite (bool_decide_eq_false_2 _ Hne2), orb_false_r.
      rewrite relay_after_none.
      destruct (decide (command = CMD_GAME_START)).
      * rewrite run_ret. intros <- [= <-]. by rewrite Hsame.
      * rewrite run_bind, result_bind.
        pose proof (handleStatusOutput_relay_state 200 s3) as H4.
        destruct (result (handleStatusOutput 200) s3); [|done].
        rewrite run_ret. intros <- [= <-]. by rewrite H4, Hsame.
Qed.

(** The parsing loop: the flags it returns say what happened to the relay
    state. *)
Lemma parseLoop_relay_state fuel now data :
  ∀ index flags s flags' s',
    parseLoop fuel now data index flags s = (Ok flags', s') →
    ∃ handshake gameEnd,
      isNewGame flags' = isNewGame flags || handshake ∧
      isGameEnd flags' = isGameEnd flags || gameEnd ∧
      relay_state s' = relay_after handshake gameEnd (relay_state s).
Proof.
  assert (Hnone : ∀ flags s s', relay_state s' = relay_state s →
      ∃ handshake gameEnd,
        isNewGame flags = isNewGame flags || handshake ∧
        isGameEnd flags = isGameEnd flags || gameEnd ∧
        relay_state s' = relay_after handshake gameEnd (relay_state s)).
  { intros ? ? ? ->. exists false, false. by rewrite !orb_false_r, relay_after_none. }
  induction fuel as [|fuel IH]; intros index flags s flags' s'; simpl.
  { intros [= <- <-]. by apply Hnone. }
  destruct (decide (index < length data)); [|intros [= <- <-]; by apply Hnone].
  destruct (decide (slice index (index + 5) data = HELO)); [apply IH|].
  unfold bind at 1. destruct (getUint8 data index) as [command|]; [|done].
  cbn [checked ret]. unfold bind at 1. cbn [get].
  destruct (decide _).
  { unfold_M. intros [= <- <-]. by apply Hnone. }
  unfold bind at 1. cbn [modifyFile modify].
  set (s1 := with_currentFile _ s).
  unfold bind at 1.
  destruct (dispatch now command (slice_from (index + 1) data) flags s1)
    as [[frame|] s2] eqn:Hd; [|done].
  apply dispatch_relay_state in Hd as (Hn & Hg & Hr).
  intros (h & g & Hn' & Hg' & Hr')%IH.
  exists (bool_decide (command = CMD_RECEIVE_COMMANDS) || h),
         (bool_decide (command = CMD_RECEIVE_GAME_END) || g).
  rewrite Hn', Hg', Hn, Hg, Hr', Hr, relay_after_compose, !orb_assoc. done.
Qed.

(** A delivery that returns: the state in which the relay write is made. *)
Lemma handleData_relay_state now newData s flags s' :
  handleData now newData s = (Ok flags, s') →
  ∃ mid new,
    relay_state mid = relay_after (isNewGame flags) (isGameEnd flags) (relay_state s) ∧
    effects mid = effects s ++ new ∧ Forall (λ e, is_socket_write e = false) new ∧
    s' = run relay (with_currentFile
                      (with_fullBuffer (fullBuffer (currentFile mid) ++ newData)
                         (currentFile mid)) mid).
Proof.
  unfold handleData. intros Hrun.
  rewrite (bind_ok get _ s s s) in Hrun by reflexivity.
  set (data := previousBuffer (currentFile s) ++ newData) in *.
  pose proof (parseLoop_relay_reset (S (length data)) now data 0 no_flags s)
    as (_ & _ & new & Heff & Hnew).
  change {| isNewGame := false; isGameEnd := false |} with no_flags in Hrun.
  unfold run in Heff.
  destruct (parseLoop (S (length data)) now data 0 no_flags s) as [[flags'|e] mid] eqn:Hloop.
  2:{ by rewrite (bind_throw _ _ _ _ _ Hloop) in Hrun. }
  rewrite (bind_ok _ _ _ _ _ Hloop) in Hrun.
  apply parseLoop_relay_state in Hloop as (h & g & Hn & Hg & Hr). simpl in Hn, Hg.
  unfold bind at 1 in Hrun. simpl in Hrun.
  unfold bind at 1 in Hrun. rewrite relay_eq in Hrun. simpl in Hrun.
  injection Hrun as <- <-. exists mid, new. rewrite Hn, Hg.
  split; [done|]. split; [done|]. split; [done|].
  unfold run. by rewrite relay_eq.
Qed.

Lemma relay_after_backlog flags s mid :
  relay_state mid = relay_after (isNewGame flags) (isGameEnd flags) (relay_state s) →
  fullBuffer (currentFile mid) = backlog flags s ∧
  map (λ client, (socket client, readPos client)) (clients mid)
  = map (λ client, (socket client, cursor flags client)) (clients s).
Proof.
  unfold relay_state, relay_after, backlog, cursor. simpl.
  destruct (isNewGame flags); simpl.
  - intros [= -> _ ->]. split; [done|]. unfold cursors_at. by rewrite map_map.
  - by intros [= -> _ ->].
Qed.

Lemma relay_writes_cursor buf (f : Client → nat) (cs mid : list Client) :
  map (λ client, (socket client, readPos client)) mid
  = map (λ client, (socket client, f client)) cs →
  map (λ client, SocketWrite (socket client) (slice_from (readPos client) buf)) mid
  = map (λ client, SocketWrite (socket client) (slice_from (f client) buf)) cs
  ∧ cursors_at (length buf) mid = cursors_at (length buf) cs.
Proof.
  revert mid. induction cs as [|c cs IH]; intros [|c' mid]; try done.
  simpl. intros [= Hs Hr Hrest]. destruct (IH _ Hrest) as [IH1 IH2].
  unfold cursors_at in *. simpl. by rewrite Hs, Hr, IH1, IH2.
Qed.



(** Scenario B: the late joiner is sent all 511 bytes, from offset 0. *)
Example scenario_B :
  length (fullBuffer (currentFile late_joiner)) = 500 ∧
  last (effects joined) = Some (SocketWrite 7 (backlog_500 ++ update_minus100)).
Proof. vm_compute. done. Qed.

(** ** C2: the length patched into the placeholder *)


Lemma body_length_write chunk ws :
  body_length (stream_write chunk ws) + refused_length (stream_write chunk ws) =
    body_length ws + refused_length ws
    + match chunk with
      | FrameChunk _ payload => 1 + length payload
      | _ => 0
      end.
Proof.
  unfold body_length, written_frames, refused_length, refused_frames, stream_write.
  destruct (ws_ended ws); simpl;
    rewrite omap_app, sum_list_with_app; destruct chunk; simpl; lia.
Qed.

Lemma stream_write_path chunk ws : ws_path (stream_write chunk ws) = ws_path ws.
Proof. unfold stream_write. by destruct (ws_ended ws). Qed.

Lemma stream_end_length ws :
  body_length (stream_end ws) + refused_length (stream_end ws)
  = body_length ws + refused_length ws.
Proof. reflexivity. Qed.

Lemma writeCommand_counted command payloadPtr payloadLen s :
  payloadLen ≤ length payloadPtr →
  counted_writes s → counted_writes (run (writeCommand command payloadPtr payloadLen) s).
Proof.
  intros Hfit. unfold counted_writes, recorder, writeCommand. unfold_M.
  destruct (writeStream (currentFile s)) as [ws|] eqn:Hws; simpl; [|by rewrite Hws].
  intros [Hpath Hcount]. split; [by rewrite ?stream_write_path|].
  rewrite body_length_write. unfold slice. rewrite length_take, length_drop. simpl. lia.
Qed.

Lemma endGame_counted s : counted_writes s → counted_writes (run endGame s).
Proof.
  unfold counted_writes, recorder, endGame. unfold_M.
  destruct (writeStream (currentFile s)) as [ws|] eqn:Hws; simpl; [|done].
  destruct (startTime _); simpl; [|by rewrite Hws].
  destruct (compose_footer _ _ _ _); simpl; [|by rewrite Hws].
  intros [Hpath Hcount]. split; [simpl; by rewrite stream_write_path|].
  rewrite stream_end_length, body_length_write. lia.
Qed.

Lemma receiveLoop_fits fuel view payloadLen i s :
  result (receiveLoop fuel view payloadLen i) s = Ok tt →
  payloadLen ≤ fuel + i → i ≤ length view → payloadLen ≤ length view.
Proof.
  revert i s. induction fuel as [|fuel IH]; intros i s; simpl; [lia|].
  destruct (decide (i < payloadLen)); [|lia].
  unfold result, bind, checked.
  destruct (getUint8 view i) as [c|]; [|done]. simpl.
  destruct (getUint16 view (i + 1)) as [size|] eqn:H16; [|done]. simpl.
  intros Hok Hfuel _. refine (IH (i + 3) _ Hok _ _); [lia|].
  unfold getUint16 in H16.
  destruct (getUint8 view (i + 1)); [|done]. simpl in H16.
  destruct (getUint8 view (i + 1 + 1)) eqn:H2; [|done].
  apply getUint8_Some_lt in H2. lia.
Qed.

Lemma processReceiveCommands_fits view s payloadLen :
  result (processReceiveCommands view) s = Ok payloadLen → payloadLen ≤ length view.
Proof.
  unfold processReceiveCommands, result, bind, checked.
  destruct (getUint8 view 0) as [len|] eqn:H0; [|done]. simpl.
  destruct (receiveLoop len view len 1 s) as [[[]|e] s1] eqn:Hloop; [|done]. simpl.
  intros [= <-]. apply (receiveLoop_fits len view len 1 s).
  - unfold result. by rewrite Hloop.
  - lia.
  - apply getUint8_Some_lt in H0. lia.
Qed.

Lemma processCommand_result command view s payloadLen :
  result (processCommand command view) s = Ok payloadLen →
  payloadLen = default 0 (payloadSizes (currentFile s) !! command).
Proof.
  unfold processCommand. unfold result, bind at 1, get.
  destruct (payloadSizes (currentFile s) !! command) as [[|n]|]; simpl;
    [by intros [= <-] | | by intros [= <-]].
  unfold bind. destruct (_ s) as [[[]|e] s1]; simpl; [by intros [= <-] | done].
Qed.

Lemma processCommand_recorder command view : keeps recorder (processCommand command view).
Proof.
  intros s. unfold recorder.
  destruct (processCommand_currentFile command view s)
    as [-> | (L & fi & p & ch & _ & _ & _ & _ & _ & _ & _ & Heq)]; [done|].
  unfold run. by rewrite Heq.
Qed.


#[local] Instance keeps_counted_preorder : PreOrder keeps_counted.
Proof. split; [intros s H; exact H | intros s1 s2 s3 H1 H2 H; exact (H2 (H1 H))]. Qed.

Lemma keeps_recorder_counted {A} (m : M A) : keeps recorder m → within keeps_counted m.
Proof. intros Hk s. unfold keeps_counted, counted_writes. by rewrite Hk. Qed.

Ltac counted_leaf := intros ? H; exact H.

Lemma dispatch_counted now command view flags s :
  default 0 (payloadSizes (currentFile s) !! command) ≤ length view →
  keeps_counted s (run (dispatch now command view flags) s).
Proof.
  intros Hfit. destruct (decide (command = CMD_RECEIVE_COMMANDS)) as [->|Hne].
  - intros _. unfold dispatch. simpl. rewrite run_bind.
    assert (result (initializeNewGame now) s = Ok tt) as ->
      by (unfold result; by rewrite initializeNewGame_eq).
    set (s1 := run (initializeNewGame now) s).
    assert (H1 : counted_writes s1).
    { unfold s1, run. rewrite initializeNewGame_eq. split; reflexivity. }
    rewrite run_bind.
    assert (H2 : counted_writes (run (processReceiveCommands view) s1)).
    { revert H1. apply keeps_recorder_counted. by apply processReceiveCommands_keeps. }
    destruct (result (processReceiveCommands view) s1) as [payloadLen|] eqn:Hres; [|done].
    apply processReceiveCommands_fits in Hres.
    set (s2 := run (processReceiveCommands view) s1) in *.
    rewrite run_bind. simpl result. cbv iota.
    rewrite run_bind, writeCommand_result.
    assert (H3 : counted_writes (run (writeCommand CMD_RECEIVE_COMMANDS view payloadLen)
                                   (run (emit CMD_RECEIVE_COMMANDS (slice 0 payloadLen view)) s2)))
      by (by apply writeCommand_counted).
    exact H3.
  - intros H0. rewrite (dispatch_other _ _ _ _ Hne), run_bind.
    assert (H1 : counted_writes (run (processCommand command view) s)).
    { unfold counted_writes. by rewrite processCommand_recorder. }
    destruct (result (processCommand command view) s) as [payloadLen|] eqn:Hres; [|done].
    apply processCommand_result in Hres. subst payloadLen.
    set (s1 := run (processCommand command view) s) in *.
    unfold afterProcess. rewrite run_bind. simpl result. cbv iota.
    rewrite run_bind, writeCommand_result.
    set (L := default 0 _) in *.
    assert (H2 : counted_writes (run (writeCommand command view L)
                                   (run (emit command (slice 0 L view)) s1)))
      by (by apply writeCommand_counted).
    destruct (decide (command = CMD_RECEIVE_GAME_END)).
    + rewrite run_bind. apply endGame_counted in H2.
      by destruct (result endGame _).
    + destruct (decide (command = CMD_GAME_START)); [done|].
      rewrite run_bind.
      assert (H3 : counted_writes (run (handleStatusOutput 200)
        (run (writeCommand command view L) (run (emit command (slice 0 L view)) s1)))).
      { unfold counted_writes, recorder. by rewrite handleStatusOutput_currentFile. }
      by destruct (result (handleStatusOutput 200) _).
Qed.

Lemma handleData_counted now newData : within keeps_counted (handleData now newData).
Proof.
  unfold handleData. apply within_bind; [apply _|apply within_get; apply _|intros s0].
  apply within_bind; [apply _| |intros flags].
  - apply within_parseLoop; [apply _| |].
    + intros tail. apply within_modify. counted_leaf.
    + intros. by apply dispatch_counted.
  - unfold relay. within_tac counted_leaf.
Qed.

Lemma onStreamFinished_counted : within keeps_counted onStreamFinished.
Proof. unfold onStreamFinished. within_tac ltac:(first [counted_leaf | by intros]). Qed.

Lemma step_counted s e : counted_writes s → counted_writes (step s e).
Proof.
  destruct e; simpl.
  - apply handleData_counted.
  - destruct (pendingEnd s) as [|n]; [done|]. intros H.
    by apply (onStreamFinished_counted (with_pendingEnd n s)).
  - unfold onTimeout. assert (Hk : within keeps_counted (setStatus false))
      by within_tac counted_leaf. apply Hk.
  - destruct (server s); [|done]. by intros.
  - by intros.
  - by intros.
Qed.

Lemma constructor_counted settings : counted_writes (constructor settings).
Proof.
  unfold constructor.
  assert (Hk : within keeps_counted manageRelay).
  { unfold manageRelay. within_tac counted_leaf. }
  apply Hk. reflexivity.
Qed.



Lemma octet_to_nat n : Byte.to_nat (octet n) = n mod 256.
Proof.
  unfold octet. destruct (Byte.of_nat (n mod 256)) as [b|] eqn:E; simpl.
  - by apply Byte.to_of_nat.
  - apply Byte.of_nat_None_iff in E. pose proof (Nat.mod_upper_bound n 256). lia.
Qed.

Lemma getUint32_be32 (n : Z) :
  (0 ≤ n < 4294967296)%Z → getUint32 (be32 n) 0 = Some n.
Proof.
  intros Hn. unfold getUint32, be32, getUint8. simpl.
  rewrite !octet_to_nat. f_equal.
  rewrite !Nat2Z.inj_mod, !Z2Nat.id by (apply Z.mod_pos_bound; lia).
  change (Z.of_nat 256) with 256%Z.
  rewrite !Zmod_mod.
  Z.div_mod_to_equations. lia.
Qed.




(** The recording of [finished_game] is complete and nothing was refused: its
    file holds 21 bytes of frames and the callback writes 21. *)
Example finished_game_patch :
  ∃ ws, writeStream (currentFile (steps fresh finished_game)) = Some ws ∧
    ws_ended ws = true ∧ ws_refused ws = [] ∧ body_length ws = 21 ∧
    FsWrite (ws_path ws) (be32 21) 11 ∈ effects (step (steps fresh finished_game) StreamFinished).
Proof.
  eexists. split; [vm_compute; reflexivity|].
  repeat split. apply (bool_decide_unpack _). vm_compute. exact I.
Qed.


(** ** C5: character usage counts the frame updates of the session *)

Lemma session_frames_snoc trace e :
  session_frames (trace ++ [e]) = session_step (session_frames trace) e.
Proof. unfold session_frames. by rewrite List.fold_left_app. Qed.

Lemma session_frames_neutral trace new :
  Forall (λ e, is_neutral e = true) new →
  session_frames (trace ++ new) = session_frames trace ∧ frames (trace ++ new) = frames trace.
Proof.
  induction new as [|e new IH] using rev_ind; intros Hall.
  { by rewrite app_nil_r. }
  apply Forall_app in Hall as [Hnew He]. rewrite Forall_singleton in He.
  destruct (IH Hnew) as [IH1 IH2].
  rewrite (assoc_L (++)), session_frames_snoc, frames_app, IH1, IH2.
  unfold frames at 2. destruct e; simpl in *; rewrite ?app_nil_r; done.
Qed.

Lemma session_neutral s (new : list Effect) :
  Forall (λ e, is_neutral e = true) new →
  session (with_effects (effects s ++ new) s) = session s.
Proof.
  intros Hall. unfold session, emitted. simpl.
  by destruct (session_frames_neutral (effects s) new Hall) as [-> ->].
Qed.

Ltac session_leaf :=
  intros; try reflexivity;
  first
    [ apply (session_neutral _ [_]); by repeat constructor
    | apply session_neutral; apply Forall_map; by apply Forall_true
    | unfold session; simpl; reflexivity ].

Ltac keeps_session :=
  repeat first
    [ keeps_step
    | lazymatch goal with
      | |- keeps _ (modify _) => apply keeps_modify; session_leaf
      | |- keeps _ (modifyFile _) => apply keeps_modify; session_leaf
      | |- keeps _ (perform _) => apply keeps_modify; session_leaf
      | |- keeps _ onFileStateChange => apply keeps_modify; session_leaf
      end ].

Lemma setStatus_session value : keeps session (setStatus value).
Proof. unfold setStatus. keeps_session. Qed.

Lemma setTimer_session t : keeps session (setTimer t).
Proof. unfold setTimer. keeps_session. Qed.

Lemma handleStatusOutput_session t : keeps session (handleStatusOutput t).
Proof.
  unfold handleStatusOutput. keeps_session;
    auto using setStatus_session, setTimer_session.
Qed.

Lemma writeCommand_session command payloadPtr payloadLen :
  keeps session (writeCommand command payloadPtr payloadLen).
Proof.
  intros s. unfold writeCommand, run. unfold_M. unfold session, idle.
  by destruct (writeStream (currentFile s)) eqn:E; simpl; rewrite ?E.
Qed.

Lemma usage_counted_session player charId s s' :
  session s' = session s → usage_counted player charId s → usage_counted player charId s'.
Proof.
  unfold session, usage_counted, usage, observed. intros [= Hp Ht Hw Hf He] [Hu Hn].
  rewrite Hp, Hf, Ht. split; [done|]. intros Hnone. apply Hn.
  unfold idle in Hw. rewrite Hnone in Hw. by destruct (writeStream (currentFile s)).
Qed.

Lemma endGame_usage_counted player charId s :
  usage_counted player charId s → usage_counted player charId (run endGame s).
Proof.
  intros Hs. unfold endGame, run. unfold_M.
  destruct (writeStream (currentFile s)) as [ws|] eqn:Hws; simpl.
  - destruct (startTime _); simpl; [|done].
    destruct (compose_footer _ _ _ _); simpl; [|done].
    revert Hs. apply usage_counted_session. unfold session, idle. simpl. by rewrite Hws.
  - destruct Hs as [Hu Hn]. destruct (Hn Hws) as [Ht Hp].
    split; [|done]. unfold usage, observed in *. simpl. by rewrite Hp in Hu.
Qed.

Lemma endGame_effects : keeps effects endGame.
Proof. unfold endGame. keeps_tac. Qed.

(** What follows [emit] in [afterProcess]. *)
Lemma afterProcess_emit command view flags payloadLen s :
  let s1 := run (emit command (slice 0 payloadLen view)) s in
  let s' := run (afterProcess command view flags payloadLen) s in
  emitted s' = emitted s1 ∧
  ∀ player charId, usage_counted player charId s1 → usage_counted player charId s'.
Proof.
  intros s1 s'. unfold s', afterProcess. rewrite run_bind. simpl result. cbv iota.
  fold s1. rewrite run_bind, writeCommand_result.
  set (s2 := run (writeCommand _ _ _) s1).
  assert (H2 : session s2 = session s1) by apply writeCommand_session.
  assert (He2 : emitted s2 = emitted s1) by (by injection H2).
  destruct (decide (command = CMD_RECEIVE_GAME_END)).
  - rewrite run_bind.
    assert (emitted (run endGame s2) = emitted s1) as He3
      by (unfold emitted; rewrite endGame_effects; exact He2).
    assert (∀ player charId, usage_counted player charId s1 →
                             usage_counted player charId (run endGame s2)) as Hu3.
    { intros. apply endGame_usage_counted. by apply (usage_counted_session _ _ s1). }
    by destruct (result endGame s2).
  - destruct (decide (command = CMD_GAME_START)).
    + rewrite run_ret. split; [done|]. intros. by apply (usage_counted_session _ _ s1).
    + rewrite run_bind.
      assert (H3 : session (run (handleStatusOutput 200) s2) = session s1)
        by (by rewrite handleStatusOutput_session).
      assert (emitted (run (handleStatusOutput 200) s2) = emitted s1) by (by injection H3).
      assert (∀ player charId, usage_counted player charId s1 →
                usage_counted player charId (run (handleStatusOutput 200) s2))
        by (intros; by apply (usage_counted_session _ _ s1)).
      by destruct (result (handleStatusOutput 200) s2).
Qed.




Lemma slice_0 (view : Buffer) payloadLen : slice 0 payloadLen view = take payloadLen view.
Proof. unfold slice. by rewrite Nat.sub_0_r, drop_0. Qed.



Lemma processCommand_session_frames command view :
  keeps (λ s, (session_frames (effects s), emitted s)) (processCommand command view).
Proof.
  assert (Hh : keeps (λ s, (session_frames (effects s), emitted s)) (handleStatusOutput 700)).
  { intros s. pose proof (handleStatusOutput_session 700 s) as H. by injection H as _ _ _ -> ->. }
  unfold processCommand. keeps_tac; exact Hh.
Qed.



#[local] Instance trace_grows_preorder : PreOrder trace_grows.
Proof.
  split.
  - intros s. exists []. by rewrite app_nil_r.
  - intros s1 s2 s3 [new1 H1] [new2 H2]. exists (new1 ++ new2).
    by rewrite H2, H1, (assoc_L (++)).
Qed.




#[local] Instance counting_kept_preorder player charId : PreOrder (counting_kept player charId).
Proof.
  split.
  - intros s H. split; [done|auto].
  - intros s1 s2 s3 H12 H23 H3. destruct (H23 H3) as [H2 Hc23].
    destruct (H12 H2) as [H1 Hc12]. split; [done|auto].
Qed.










Example scenario_A_usage :
  usage (steps (constructor sample_settings) scenario_A) 0 18 = 1%N ∧
  observed (steps (constructor sample_settings) scenario_A) 0 18 = 1%N.
Proof. vm_compute. done. Qed.

(** ** C1: delivery boundaries and the frames emitted *)

Lemma filter_filter_unrelayed (l : list Effect) :
  List.filter (λ e, negb (is_socket_write e)) (List.filter (λ e, negb (is_socket_write e)) l)
  = List.filter (λ e, negb (is_socket_write e)) l.
Proof.
  induction l as [|e l IH]; [done|]. simpl.
  destruct (negb (is_socket_write e)) eqn:E; simpl; rewrite ?E; by rewrite IH.
Qed.

Lemma unrelayed_idemp s : unrelayed (unrelayed s) = unrelayed s.
Proof. unfold unrelayed. simpl. by rewrite filter_filter_unrelayed. Qed.

Lemma relay_blind_ret {A} (a : A) : relay_blind (ret a).
Proof.
  intros s. split; [done|].
  change (unrelayed s = unrelayed (unrelayed s)). by rewrite unrelayed_idemp.
Qed.

Lemma relay_blind_throw {A} e : relay_blind (@throw A e).
Proof.
  intros s. split; [done|].
  change (unrelayed s = unrelayed (unrelayed s)). by rewrite unrelayed_idemp.
Qed.

Lemma relay_blind_checked {A} (o : option A) : relay_blind (checked o).
Proof. destruct o; [apply relay_blind_ret | apply relay_blind_throw]. Qed.

Lemma relay_blind_sim {A} (m : M A) s s' :
  relay_blind m → unrelayed s = unrelayed s' →
  result m s = result m s' ∧ unrelayed (run m s) = unrelayed (run m s').
Proof.
  intros Hm Hs. destruct (Hm s) as [H1 H2], (Hm s') as [H1' H2'].
  rewrite H1, H2, H1', H2', Hs. done.
Qed.

Lemma relay_blind_bind {A B} (m : M A) (k : A → M B) :
  relay_blind m → (∀ a, relay_blind (k a)) → relay_blind (bind m k).
Proof.
  intros Hm Hk s. rewrite !run_bind, !result_bind.
  destruct (Hm s) as [Hres Hrun]. rewrite <- Hres.
  destruct (result m s) as [a|e]; [|done].
  by apply relay_blind_sim.
Qed.

Lemma relay_blind_get_bind {B} (k : SlpFileWriter → M B) :
  (∀ s, k (unrelayed s) = k s) → (∀ s0, relay_blind (k s0)) → relay_blind (bind get k).
Proof.
  intros Hk Hb s. rewrite !run_bind, !result_bind. simpl.
  change (run get ?x) with x. rewrite Hk. apply Hb.
Qed.

Lemma relay_blind_modify g :
  (∀ s, unrelayed (g s) = unrelayed (g (unrelayed s))) → relay_blind (modify g).
Proof. intros H s. split; [done|]. apply H. Qed.

Ltac blind_leaf :=
  intros; unfold unrelayed; simpl;
  rewrite ?List.filter_app, ?filter_filter_unrelayed; simpl;
  rewrite ?filter_filter_unrelayed; reflexivity.

Ltac blind_step :=
  lazymatch goal with
  | |- relay_blind (bind get _) =>
      apply relay_blind_get_bind; [intros; reflexivity | intros]
  | |- relay_blind (bind _ _) => apply relay_blind_bind; [|intros]
  | |- relay_blind (ret _) => apply relay_blind_ret
  | |- relay_blind (throw _) => apply relay_blind_throw
  | |- relay_blind (checked _) => apply relay_blind_checked
  | |- relay_blind (modify _) => apply relay_blind_modify; blind_leaf
  | |- relay_blind (modifyFile _) => apply relay_blind_modify; blind_leaf
  | |- relay_blind (perform _) => apply relay_blind_modify; blind_leaf
  | |- relay_blind (emit _ _) => apply relay_blind_modify; blind_leaf
  | |- relay_blind onFileStateChange => apply relay_blind_modify; blind_leaf
  | |- relay_blind (setStatus _) => unfold setStatus
  | |- relay_blind (setTimer _) => unfold setTimer
  | |- relay_blind (handleStatusOutput _) => unfold handleStatusOutput
  | |- relay_blind (writeCommand _ _ _) => unfold writeCommand
  | |- relay_blind (initializeNewGame _) => unfold initializeNewGame
  | |- relay_blind endGame => unfold endGame
  | |- relay_blind (processCommand _ _) => unfold processCommand
  | |- relay_blind (processReceiveCommands _) => unfold processReceiveCommands
  | |- relay_blind (dispatch _ _ _ _) => unfold dispatch
  | |- relay_blind (match ?x with _ => _ end) => destruct x
  end.

Ltac blind_tac := repeat blind_step.

Lemma relay_blind_receiveLoop fuel view payloadLen i :
  relay_blind (receiveLoop fuel view payloadLen i).
Proof.
  revert i. induction fuel as [|fuel IH]; intros i; simpl; blind_tac. apply IH.
Qed.

Lemma relay_blind_dispatch now command view flags :
  relay_blind (dispatch now command view flags).
Proof. blind_tac. apply relay_blind_receiveLoop. Qed.

Lemma relay_blind_parseLoop fuel now data index flags :
  relay_blind (parseLoop fuel now data index flags).
Proof.
  revert index flags. induction fuel as [|fuel IH]; intros index flags; simpl.
  - blind_tac.
  - blind_tac; first [apply IH | apply relay_blind_receiveLoop].
Qed.

(** ** Slices and reads of a buffer that is extended or cut at the front *)
Lemma slice_5 index (data : Buffer) : slice index (index + 5) data = take 5 (drop index data).
Proof. unfold slice. f_equal. lia. Qed.

Lemma slice_HELO_length index (data : Buffer) :
  slice index (index + 5) data = HELO → index + 5 ≤ length data.
Proof.
  rewrite slice_5. intros H. apply (f_equal length) in H.
  rewrite length_take, length_drop in H. change (length HELO) with 5 in H. lia.
Qed.

Lemma slice_app_l index (data ext : Buffer) :
  index + 5 ≤ length data → slice index (index + 5) (data ++ ext) = slice index (index + 5) data.
Proof.
  intros H. rewrite !slice_5. rewrite drop_app_le by lia.
  rewrite take_app_le; [done|]. rewrite length_drop. lia.
Qed.

Lemma slice_drop i index (data : Buffer) :
  slice index (index + 5) (drop i data) = slice (i + index) (i + index + 5) data.
Proof. rewrite !slice_5. by rewrite drop_drop. Qed.

Lemma getUint8_app_l (view ext : Buffer) off b :
  getUint8 view off = Some b → getUint8 (view ++ ext) off = Some b.
Proof.
  unfold getUint8. intros (x & Hx & ->)%fmap_Some. by rewrite (lookup_app_l_Some _ _ _ _ Hx).
Qed.

Lemma getUint8_drop i (data : Buffer) off :
  getUint8 (drop i data) off = getUint8 data (i + off).
Proof. unfold getUint8. by rewrite lookup_drop. Qed.

Lemma getUint16_app_l (view ext : Buffer) off b :
  getUint16 view off = Some b → getUint16 (view ++ ext) off = Some b.
Proof.
  unfold getUint16. 
  destruct (getUint8 view off) as [hi|] eqn:H1; [|done].
  destruct (getUint8 view (off + 1)) as [lo|] eqn:H2; [|done].
  by rewrite (getUint8_app_l _ ext _ _ H1), (getUint8_app_l _ ext _ _ H2).
Qed.

Lemma getInt32_app_l (view ext : Buffer) off z :
  getInt32 view off = Some z → getInt32 (view ++ ext) off = Some z.
Proof.
  unfold getInt32, getUint32.
  destruct (getUint8 view off) as [b0|] eqn:H0; [|done].
  destruct (getUint8 view (off + 1)) as [b1|] eqn:H1; [|done].
  destruct (getUint8 view (off + 2)) as [b2|] eqn:H2; [|done].
  destruct (getUint8 view (off + 3)) as [b3|] eqn:H3; [|done].
  by rewrite (getUint8_app_l _ ext _ _ H0), (getUint8_app_l _ ext _ _ H1),
    (getUint8_app_l _ ext _ _ H2), (getUint8_app_l _ ext _ _ H3).
Qed.

Lemma slice_0_app (view ext : Buffer) payloadLen :
  payloadLen ≤ length view → slice 0 payloadLen (view ++ ext) = slice 0 payloadLen view.
Proof. intros H. rewrite !slice_0. by rewrite take_app_le. Qed.

(** ** The loop on a buffer cut at the front *)
Lemma parseLoop_drop fuel now (data : Buffer) i index flags s :
  parseLoop fuel now (drop i data) index flags s
  = parseLoop fuel now data (i + index) flags s.
Proof.
  revert index flags s. induction fuel as [|fuel IH]; intros index flags s; [done|].
  simpl. rewrite length_drop, slice_drop, getUint8_drop.
  destruct (decide (index < length data - i)), (decide (i + index < length data));
    try lia; [|done].
  destruct (decide (slice (i + index) (i + index + 5) data = HELO)).
  { rewrite IH. by rewrite (assoc_L Nat.add). }
  apply bind_ext; intros command s0.
  apply bind_ext; intros s1 s1'.
  replace (length data - i - index) with (length data - (i + index)) by lia.
  unfold slice_from. rewrite !drop_drop, !(assoc_L Nat.add).
  destruct (decide _); [done|].
  apply bind_ext; intros _ s2.
  apply bind_ext; intros frame s3.
  rewrite IH. by rewrite !(assoc_L Nat.add).
Qed.

Lemma same_but_flags_bind {A} (m : M A) (k k' : A → M (nat * Flags)) :
  (∀ a, same_but_flags (k a) (k' a)) → same_but_flags (bind m k) (bind m k').
Proof.
  intros Hk s. rewrite !run_bind, !result_bind.
  destruct (result m s) as [a|e]; [apply Hk | done].
Qed.

Lemma same_but_flags_ret payloadLen flags flags' :
  same_but_flags (ret (payloadLen, flags)) (ret (payloadLen, flags')).
Proof. by intros s. Qed.

Lemma dispatch_flags now command view flags flags' :
  same_but_flags (dispatch now command view flags) (dispatch now command view flags').
Proof.
  unfold dispatch.
  repeat (destruct (decide _));
    repeat (apply same_but_flags_bind; intros); apply same_but_flags_ret.
Qed.

Lemma parseLoop_flags fuel now data index flags flags' s :
  run (parseLoop fuel now data index flags) s = run (parseLoop fuel now data index flags') s.
Proof.
  revert index flags flags' s. induction fuel as [|fuel IH]; intros index flags flags' s; [done|].
  simpl. destruct (decide _); [|done]. destruct (decide _); [apply IH|].
  rewrite !run_bind. destruct (result _ s) as [command|]; [|done].
  set (s0 := run _ s). rewrite !run_get_bind.
  case_decide; [done|].
  rewrite !(run_bind (modifyFile _)). simpl result. cbv iota.
  set (s1 := run _ s0). rewrite !run_bind.
  destruct (dispatch_flags now command (slice_from (index + 1) data) flags flags' s1)
    as [Hrun Hres].
  rewrite Hrun.
  destruct (result (dispatch _ _ _ flags) s1) as [[len fl]|e],
           (result (dispatch _ _ _ flags') s1) as [[len' fl']|e']; simpl in Hres; try done.
  injection Hres as <-. apply IH.
Qed.

(** ** A frame is interpreted alike when more data follows it *)
Lemma receiveLoop_extend fuel view ext payloadLen i s s' :
  receiveLoop fuel view payloadLen i s = (Ok tt, s') →
  receiveLoop fuel (view ++ ext) payloadLen i s = (Ok tt, s').
Proof.
  revert i s. induction fuel as [|fuel IH]; intros i s; simpl; [done|].
  destruct (decide _); [|done].
  unfold bind at 1 3. unfold checked at 1 3.
  destruct (getUint8 view i) as [c|] eqn:H1; [|done].
  rewrite (getUint8_app_l _ ext _ _ H1).
  unfold bind at 1 3. unfold checked at 1 2. unfold ret at 1 2.
  destruct (getUint16 view (i + 1)) as [size|] eqn:H2; [|done].
  rewrite (getUint16_app_l _ ext _ _ H2).
  unfold bind. simpl. apply IH.
Qed.

Lemma processReceiveCommands_extend view ext s payloadLen s' :
  processReceiveCommands view s = (Ok payloadLen, s') →
  processReceiveCommands (view ++ ext) s = (Ok payloadLen, s').
Proof.
  unfold processReceiveCommands, bind at 1 3, checked.
  destruct (getUint8 view 0) as [len|] eqn:H0; [|done].
  rewrite (getUint8_app_l _ ext _ _ H0). unfold ret at 1 3.
  unfold bind.
  destruct (receiveLoop len view len 1 s) as [[[]|e] s1] eqn:Hloop; [|done].
  by rewrite (receiveLoop_extend _ _ ext _ _ _ _ Hloop).
Qed.

Lemma processCommand_extend command view ext s payloadLen s' :
  processCommand command view s = (Ok payloadLen, s') →
  processCommand command (view ++ ext) s = (Ok payloadLen, s').
Proof.
  intros Hv.
  destruct (payloadSizes (currentFile s) !! command) as [payloadSize|] eqn:Htab.
  2:{ rewrite processCommand_unrecognized in Hv by (by rewrite Htab). rewrite <- Hv.
      apply processCommand_unrecognized. by rewrite Htab. }
  destruct (decide (payloadSize = 0)) as [->|Hnz].
  { rewrite processCommand_unrecognized in Hv by (by rewrite Htab). rewrite <- Hv.
    apply processCommand_unrecognized. by rewrite Htab. }
  destruct (decide (command = CMD_RECEIVE_POST_FRAME_UPDATE)) as [->|Hne].
  - destruct (decide (length view < 7)) as [Hshort|Hlong].
    { by rewrite (processCommand_update_throw _ _ _ Htab Hnz Hshort) in Hv. }
    destruct (getInt32_in_range view 0) as [frameIndex H0]; [lia|].
    destruct (getUint8_in_range view 4) as [playerIndex H4]; [lia|].
    destruct (getUint8_in_range view 5) as [isFollower H5]; [lia|].
    destruct (getUint8_in_range view 6) as [charId H6]; [lia|].
    rewrite (processCommand_update view s payloadSize _ _ _ _ Htab Hnz H0 H4 H5 H6) in Hv.
    rewrite <- Hv.
    apply (processCommand_update (view ++ ext) s payloadSize _ _ _ _ Htab Hnz);
      first [by apply getInt32_app_l | by apply getUint8_app_l].
  - destruct (decide (command = CMD_RECEIVE_GAME_END)) as [->|Hne'].
    + destruct (getUint8 view 0) as [endMethod|] eqn:H0.
      * rewrite (processCommand_game_end view s payloadSize endMethod Htab Hnz H0) in Hv.
        rewrite <- Hv.
        apply (processCommand_game_end (view ++ ext) s payloadSize endMethod Htab Hnz).
        by apply getUint8_app_l.
      * exfalso. revert Hv. unfold processCommand.
        rewrite (bind_ok get _ s s s) by reflexivity. rewrite Htab.
        destruct payloadSize; [done|]. simpl. rewrite H0. unfold_M. discriminate.
    + rewrite (processCommand_other _ _ _ _ Htab Hne Hne') in Hv. rewrite <- Hv.
      by apply processCommand_other.
Qed.

Lemma writeCommand_extend command (view ext : Buffer) payloadLen :
  payloadLen ≤ length view →
  writeCommand command (view ++ ext) payloadLen = writeCommand command view payloadLen.
Proof. intros H. unfold writeCommand. by rewrite slice_0_app. Qed.

Lemma afterProcess_extend command (view ext : Buffer) flags payloadLen :
  payloadLen ≤ length view →
  afterProcess command (view ++ ext) flags payloadLen = afterProcess command view flags payloadLen.
Proof. intros H. unfold afterProcess. by rewrite slice_0_app, writeCommand_extend. Qed.

(** The payload length a dispatch returns is the one [processReceiveCommands]
    or [processCommand] gave. *)
Lemma dispatch_payload now command view flags s frame s' :
  dispatch now command view flags s = (Ok frame, s') →
  if decide (command = CMD_RECEIVE_COMMANDS)
  then result (processReceiveCommands view) (run (initializeNewGame now) s) = Ok frame.1
  else result (processCommand command view) s = Ok frame.1.
Proof.
  intros Hd. assert (Hres : result (dispatch now command view flags) s = Ok frame)
    by (unfold result; by rewrite Hd). clear Hd. revert Hres.
  destruct (decide (command = CMD_RECEIVE_COMMANDS)) as [->|Hne].
  - unfold dispatch. simpl. rewrite result_bind.
    assert (result (initializeNewGame now) s = Ok tt) as ->
      by (unfold result; by rewrite initializeNewGame_eq).
    rewrite result_bind. destruct (result (processReceiveCommands view) _) as [len|]; [|done].
    rewrite result_bind. simpl result at 1. cbv iota.
    rewrite result_bind, writeCommand_result. by intros [= <-].
  - rewrite (dispatch_other _ _ _ _ Hne), result_bind.
    destruct (result (processCommand command view) s) as [len|]; [|done].
    unfold afterProcess. rewrite result_bind. simpl result at 1. cbv iota.
    rewrite result_bind, writeCommand_result.
    repeat case_decide.
    + rewrite result_bind. destruct (result endGame _); [by intros [= <-] | done].
    + by intros [= <-].
    + rewrite result_bind. destruct (result (handleStatusOutput 200) _); [by intros [= <-]|done].
Qed.

Lemma dispatch_fits now command view flags s frame s' :
  default 0 (payloadSizes (currentFile s) !! command) ≤ length view →
  dispatch now command view flags s = (Ok frame, s') →
  frame.1 ≤ length view.
Proof.
  intros Hfit Hd. apply dispatch_payload in Hd. case_decide.
  - by apply processReceiveCommands_fits in Hd.
  - apply processCommand_result in Hd. by rewrite Hd.
Qed.

Lemma dispatch_extend now command view ext flags s frame s' :
  default 0 (payloadSizes (currentFile s) !! command) ≤ length view →
  dispatch now command view flags s = (Ok frame, s') →
  dispatch now command (view ++ ext) flags s = (Ok frame, s').
Proof.
  intros Hfit Hd. pose proof (dispatch_fits _ _ _ _ _ _ _ Hfit Hd) as Hlen.
  pose proof (dispatch_payload _ _ _ _ _ _ _ Hd) as Hpay. revert Hd.
  destruct (decide (command = CMD_RECEIVE_COMMANDS)) as [->|Hne].
  - unfold dispatch. simpl.
    rewrite !(bind_ok _ _ _ _ _ (initializeNewGame_eq now s)).
    unfold run in Hpay. rewrite initializeNewGame_eq in Hpay. simpl in Hpay.
    unfold result in Hpay.
    destruct (processReceiveCommands view _) as [[len|] s1] eqn:Hprc; [|done].
    simpl in Hpay. injection Hpay as ->.
    rewrite (bind_ok _ _ _ _ _ (processReceiveCommands_extend _ ext _ _ _ Hprc)).
    rewrite (bind_ok _ _ _ _ _ Hprc).
    by rewrite slice_0_app, writeCommand_extend.
  - rewrite !(dispatch_other _ _ _ _ Hne). unfold result in Hpay.
    destruct (processCommand command view s) as [[len|] s1] eqn:Hprc; [|done].
    simpl in Hpay. injection Hpay as ->.
    rewrite (bind_ok _ _ _ _ _ (processCommand_extend _ _ ext _ _ _ Hprc)).
    rewrite (bind_ok _ _ _ _ _ Hprc).
    by rewrite afterProcess_extend.
Qed.

#[local] Instance tail_kept_or_emptied_preorder : PreOrder tail_kept_or_emptied.
Proof.
  split; [by left|]. unfold tail_kept_or_emptied.
  intros s1 s2 s3 H1 [H2|H2]; [rewrite H2; exact H1 | by right].
Qed.

Lemma dispatch_tail now command view flags :
  within tail_kept_or_emptied (dispatch now command view flags).
Proof.
  within_tac ltac:(intros; unfold tail_kept_or_emptied; simpl; auto).
  apply within_processReceiveCommands; [apply _|]. intros. by left.
Qed.

Lemma handleFrame_indep fuel fuel' now data index command flags flags' s :
  index < length data →
  length data - index ≤ fuel → length data - index ≤ fuel' →
  run (handleFrame fuel now data index command flags) s
  = run (handleFrame fuel' now data index command flags') s.
Proof.
  intros Hlt Hf Hf'. unfold handleFrame. rewrite !run_bind.
  destruct (dispatch_flags now command (slice_from (index + 1) data) flags flags' s)
    as [Hrun Hres].
  rewrite Hrun.
  destruct (result (dispatch _ _ _ flags) s) as [[len fl]|e],
           (result (dispatch _ _ _ flags') s) as [[len' fl']|e']; simpl in Hres; try done.
  injection Hres as <-. simpl. rewrite (parseLoop_flags _ _ _ _ fl fl').
  unfold run. f_equal. apply parseLoop_fuel; lia.
Qed.

Lemma relay_blind_handleFrame fuel now data index command flags :
  relay_blind (handleFrame fuel now data index command flags).
Proof.
  unfold handleFrame. apply relay_blind_bind; [apply relay_blind_dispatch|intros].
  apply relay_blind_parseLoop.
Qed.

(** One iteration, when it is not a keep-alive that is skipped. *)
Lemma parseLoop_frame fuel now data index flags s command :
  index < length data → slice index (index + 5) data ≠ HELO →
  getUint8 data index = Some command →
  parseLoop (S fuel) now data index flags s =
    if decide (length data - index
               < default 0 (payloadSizes (currentFile s) !! command) + 1)
    then (Ok flags, with_currentFile (with_previousBuffer (slice_from index data)
                                        (currentFile s)) s)
    else handleFrame fuel now data index command flags
           (with_currentFile (with_previousBuffer [] (currentFile s)) s).
Proof.
  intros Hlt Hno Hcmd. simpl.
  destruct (decide (index < length data)); [|done].
  destruct (decide (slice index (index + 5) data = HELO)); [done|].
  rewrite Hcmd. unfold checked. rewrite (bind_ok (ret command) _ s command s) by done.
  rewrite (bind_ok get _ s s s) by done.
  destruct (decide _); done.
Qed.

Lemma parseLoop_overwrite fuel fuel' now data index flags flags' s s' :
  index < length data → slice index (index + 5) data ≠ HELO →
  length data - index < fuel → length data - index < fuel' →
  untailed s' = untailed s →
  unrelayed (run (parseLoop fuel' now data index flags') s')
  = unrelayed (run (parseLoop fuel now data index flags) s).
Proof.
  intros Hlt Hno Hf Hf' Hu.
  destruct fuel as [|fuel]; [lia|]. destruct fuel' as [|fuel']; [lia|].
  destruct (getUint8_in_range data index Hlt) as [command Hcmd].
  unfold run. rewrite !(parseLoop_frame _ _ _ _ _ _ command) by done.
  assert (Htab : payloadSizes (currentFile s') = payloadSizes (currentFile s))
    by exact (f_equal (λ t, payloadSizes (currentFile t)) Hu).
  rewrite Htab. destruct (decide _).
  - simpl.
    exact (f_equal (λ t, with_currentFile
                           (with_previousBuffer (slice_from index data) (currentFile t)) t) Hu).
  - fold (run (handleFrame fuel' now data index command flags')
              (with_currentFile (with_previousBuffer [] (currentFile s')) s')).
    fold (run (handleFrame fuel now data index command flags)
              (with_currentFile (with_previousBuffer [] (currentFile s)) s)).
    rewrite (handleFrame_indep fuel fuel' _ _ _ _ flags flags') by lia.
    apply relay_blind_sim; [apply relay_blind_handleFrame | exact Hu].
Qed.

Lemma unrelayed_untailed s s' : unrelayed s' = unrelayed s → untailed s' = untailed s.
Proof.
  intros H. unfold untailed.
  exact (f_equal (λ t, with_currentFile (with_previousBuffer [] (currentFile t)) t) H).
Qed.

Lemma parseLoop_skip fuel now data index flags s :
  slice index (index + 5) data = HELO →
  parseLoop (S fuel) now data index flags s = parseLoop fuel now data (index + 5) flags s.
Proof.
  intros Hhelo. pose proof (slice_HELO_length _ _ Hhelo). simpl.
  destruct (decide (index < length data)); [|lia].
  by destruct (decide (slice index (index + 5) data = HELO)).
Qed.

Lemma parseLoop_end fuel now data index flags s :
  length data ≤ index → parseLoop fuel now data index flags s = (Ok flags, s).
Proof.
  intros Hge. destruct fuel; [done|]. simpl.
  by destruct (decide (index < length data)); [lia|].
Qed.

Lemma run_parseLoop_drop fuel now (data : Buffer) i flags s :
  run (parseLoop fuel now (drop i data) 0 flags) s = run (parseLoop fuel now data i flags) s.
Proof. unfold run. by rewrite parseLoop_drop, Nat.add_0_r. Qed.

Lemma run_parseLoop_fuel fuel1 fuel2 now data index flags s :
  length data - index < fuel1 → length data - index < fuel2 →
  run (parseLoop fuel1 now data index flags) s = run (parseLoop fuel2 now data index flags) s.
Proof. intros. unfold run. by rewrite (parseLoop_fuel fuel1 fuel2). Qed.

(** The loop on a first delivery [first], and then on what it retained
    followed by [rest], does what the loop does on [first ++ rest]. *)
Lemma split_loop now first rest fuel :
  ∀ index flags s flags1 s1,
    length first - index < fuel → index ≤ length first →
    (previousBuffer (currentFile s) = []
     ∨ (index = 0 ∧ 0 < length first ∧ slice 0 5 (first ++ rest) ≠ HELO)) →
    straddle_free first rest →
    parseLoop fuel now first index flags s = (Ok flags1, s1) →
    previousBuffer (currentFile s1) `suffix_of` first ∧
    tail_settled (previousBuffer (currentFile s1)) rest ∧
    ∀ fuel2 fuelW flags2 s2,
      unrelayed s2 = unrelayed s1 →
      length (previousBuffer (currentFile s1) ++ rest) < fuel2 →
      length (first ++ rest) - index < fuelW →
      unrelayed (run (parseLoop fuel2 now (previousBuffer (currentFile s1) ++ rest) 0 flags2) s2)
      = unrelayed (run (parseLoop fuelW now (first ++ rest) index flags) s).
Proof.
  induction fuel as [|fuel IH]; intros index flags s flags1 s1 Hfuel Hle Htail Hfree Hrun;
    [lia|].
  destruct (decide (index < length first)) as [Hlt|Hge].
  2:{ (* the first delivery is used up *)
    assert (index = length first) as -> by lia.
    rewrite parseLoop_end in Hrun by lia. injection Hrun as <- <-.
    assert (Hnil : previousBuffer (currentFile s) = []) by (destruct Htail as [?|(?&?&_)]; [done|lia]).
    rewrite Hnil. split; [apply suffix_nil|]. split; [by left|]. simpl.
    intros fuel2 fuelW flags2 s2 Hs2 Hf2 HfW.
    replace rest with (drop (length first) (first ++ rest)) at 1
      by (by rewrite drop_app_length).
    rewrite run_parseLoop_drop.
    rewrite (parseLoop_flags _ _ _ _ flags2 flags).
    rewrite (run_parseLoop_fuel fuel2 fuelW) by (rewrite ?length_app in *; lia).
    apply relay_blind_sim; [apply relay_blind_parseLoop | done]. }
  destruct (decide (slice index (index + 5) first = HELO)) as [Hhelo|Hno].
  { (* a keep-alive inside the first delivery *)
    pose proof (slice_HELO_length _ _ Hhelo) as Hin.
    rewrite parseLoop_skip in Hrun by done.
    assert (Hnil : previousBuffer (currentFile s) = []).
    { destruct Htail as [?|(-> & _ & Hno)]; [done|].
      exfalso. apply Hno. by rewrite (slice_app_l 0). }
    destruct (IH (index + 5) flags s flags1 s1) as (Hsuf & Hset & Hsame);
      [lia | lia | by left | done | done |].
    split; [done|]. split; [done|]. intros fuel2 fuelW flags2 s2 Hs2 Hf2 HfW.
    destruct fuelW as [|fuelW]; [lia|].
    unfold run at 2. rewrite parseLoop_skip by (by rewrite slice_app_l).
    apply Hsame; [done | done | rewrite ?length_app in *; lia]. }
  (* a frame starts here; in the whole buffer too *)
  assert (HnoW : slice index (index + 5) (first ++ rest) ≠ HELO).
  { destruct (decide (index + 5 ≤ length first)); [by rewrite slice_app_l|].
    apply Hfree; lia. }
  destruct (getUint8_in_range first index Hlt) as [command Hcmd].
  rewrite (parseLoop_frame _ _ _ _ _ _ command) in Hrun by done.
  destruct (decide (length first - index <
                    default 0 (payloadSizes (currentFile s) !! command) + 1)) as [Hshort|Hfit].
  - (* the frame is incomplete: it is retained *)
    injection Hrun as <- <-. simpl.
    assert (Hdata : slice_from index first ++ rest = drop index (first ++ rest))
      by (unfold slice_from; rewrite drop_app_le by lia; done).
    split; [apply suffix_drop|]. split.
    { right. unfold slice_from. rewrite length_drop. split; [lia|].
      fold (slice_from index first). rewrite Hdata.
      change 5 with (0 + 5). rewrite slice_drop. by rewrite Nat.add_0_r. }
    intros fuel2 fuelW flags2 s2 Hs2 Hf2 HfW.
    rewrite Hdata in *. rewrite run_parseLoop_drop.
    rewrite length_drop in Hf2.
    apply parseLoop_overwrite; [rewrite length_app; lia | done | lia | lia |].
    rewrite (unrelayed_untailed _ _ Hs2). reflexivity.
  - (* the frame is complete: it is dispatched, alike in both *)
    unfold handleFrame in Hrun.
    set (s0 := with_currentFile (with_previousBuffer [] (currentFile s)) s) in *.
    destruct (dispatch now command (slice_from (index + 1) first) flags s0)
      as [[frame|e] s'] eqn:Hd; [|by rewrite (bind_throw _ _ _ _ _ Hd) in Hrun].
    rewrite (bind_ok _ _ _ _ _ Hd) in Hrun.
    assert (Hfit0 : default 0 (payloadSizes (currentFile s0) !! command)
                    ≤ length (slice_from (index + 1) first)).
    { unfold slice_from. rewrite length_drop. simpl. lia. }
    pose proof (dispatch_fits _ _ _ _ _ _ _ Hfit0 Hd) as Hlen.
    unfold slice_from in Hlen. rewrite length_drop in Hlen.
    assert (Hnil : previousBuffer (currentFile s') = []).
    { pose proof (dispatch_tail now command (slice_from (index + 1) first) flags s0) as Ht.
      unfold run in Ht. rewrite Hd in Ht. by destruct Ht. }
    destruct (IH (index + 1 + frame.1) frame.2 s' flags1 s1) as (Hsuf & Hset & Hsame);
      [lia | lia | by left | done | done |].
    split; [done|]. split; [done|]. intros fuel2 fuelW flags2 s2 Hs2 Hf2 HfW.
    rewrite (Hsame fuel2 (pred fuelW) flags2 s2 Hs2 Hf2) by (rewrite ?length_app in *; lia).
    destruct fuelW as [|fuelW]; [lia|]. simpl pred.
    unfold run. rewrite (parseLoop_frame fuelW _ (first ++ rest) _ _ _ command);
      [|rewrite length_app; lia | done | by apply getUint8_app_l].
    rewrite decide_False by (rewrite length_app; lia).
    fold s0. unfold handleFrame.
    assert (Hview : slice_from (index + 1) (first ++ rest)
                    = slice_from (index + 1) first ++ rest)
      by (unfold slice_from; by rewrite drop_app_le by lia).
    rewrite Hview.
    by rewrite (bind_ok _ _ _ _ _ (dispatch_extend _ _ _ rest _ _ _ _ Hfit0 Hd)).
Qed.

Lemma no_socket_writes_left (cs : list Client) (f : Client → Buffer) :
  List.filter (λ e, negb (is_socket_write e)) (map (λ c, SocketWrite (socket c) (f c)) cs) = [].
Proof. by induction cs. Qed.

Lemma emitted_unrelayed s : emitted (unrelayed s) = emitted s.
Proof.
  unfold emitted, unrelayed. simpl.
  induction (effects s) as [|e l IH]; [done|]. by destruct e; simpl; rewrite ?IH.
Qed.

(** Up to the relay state, [handleData] is its loop. *)
Lemma handleData_loop now newData s :
  let data := previousBuffer (currentFile s) ++ newData in
  unrelayed (run (handleData now newData) s)
    = unrelayed (run (parseLoop (S (length data)) now data 0 no_flags) s) ∧
  previousBuffer (currentFile (run (handleData now newData) s))
    = previousBuffer (currentFile (run (parseLoop (S (length data)) now data 0 no_flags) s)).
Proof.
  intros data. unfold handleData. rewrite run_get_bind. fold data.
  change {| isNewGame := false; isGameEnd := false |} with no_flags.
  rewrite run_bind. destruct (result _ s) as [flags|]; [|done].
  set (mid := run _ s).
  rewrite run_bind. simpl result. cbv iota. rewrite run_bind.
  unfold result, run at 1 2 3 5 6. rewrite relay_eq. simpl.
  split; [|done]. unfold unrelayed. simpl.
  by rewrite List.filter_app, no_socket_writes_left, app_nil_r.
Qed.

Lemma handleData_returns now newData s flags :
  result (handleData now newData) s = Ok flags →
  let data := previousBuffer (currentFile s) ++ newData in
  ∃ flags1 s1, parseLoop (S (length data)) now data 0 no_flags s = (Ok flags1, s1).
Proof.
  intros Hres data. revert Hres. unfold handleData.
  rewrite result_bind. change (result get s) with (Ok (A:=SlpFileWriter) s).
  cbv iota. change (run get s) with s. fold data.
  change {| isNewGame := false; isGameEnd := false |} with no_flags.
  rewrite result_bind.
  destruct (parseLoop (S (length data)) now data 0 no_flags s) as [[flags1|] s1] eqn:Hloop;
    [eauto|].
  unfold result at 1. by rewrite Hloop.
Qed.

Lemma straddle_free_suffix (before before' after : Buffer) :
  before' `suffix_of` before → straddle_free before after → straddle_free before' after.
Proof.
  intros [pre ->] Hfree index Hlt Hend.
  specialize (Hfree (length pre + index)). rewrite length_app in Hfree.
  rewrite <- (assoc_L (++)), <- slice_drop, drop_app_length in Hfree.
  apply Hfree; lia.
Qed.

Lemma splits_clear_suffix (before before' : Buffer) chunks :
  before' `suffix_of` before → splits_clear before chunks → splits_clear before' chunks.
Proof.
  revert before before'. induction chunks as [|chunk later IH]; intros before before' Hsuf;
    [done|].
  simpl. intros [Hfree Hlater].
  assert (Hsuf' : (before' ++ chunk) `suffix_of` (before ++ chunk))
    by (by apply suffix_app).
  split; [by apply (straddle_free_suffix (before ++ chunk)) | by apply (IH (before ++ chunk))].
Qed.

(** Two consecutive deliveries and the single delivery of their bytes. *)
Lemma split_delivery now first rest s flags :
  result (handleData now first) s = Ok flags →
  tail_settled (previousBuffer (currentFile s)) (first ++ rest) →
  straddle_free (previousBuffer (currentFile s) ++ first) rest →
  let s1 := run (handleData now first) s in
  previousBuffer (currentFile s1) `suffix_of` (previousBuffer (currentFile s) ++ first) ∧
  tail_settled (previousBuffer (currentFile s1)) rest ∧
  unrelayed (run (handleData now rest) s1)
    = unrelayed (run (handleData now (first ++ rest)) s).
Proof.
  intros Hres Htail Hfree s1.
  destruct (handleData_returns _ _ _ _ Hres) as (flags1 & mid & Hloop).
  destruct (handleData_loop now first s) as [Hun Hprev]. fold s1 in Hun, Hprev.
  unfold run in Hun, Hprev. rewrite Hloop in Hun, Hprev. simpl in Hun, Hprev.
  set (data1 := previousBuffer (currentFile s) ++ first) in *.
  destruct (split_loop now data1 rest (S (length data1)) 0 no_flags s flags1 mid)
    as (Hsuf & Hset & Hsame); [lia | lia | | done | done |].
  { destruct Htail as [?|[Hpos Hno]]; [by left|]. right. split; [done|].
    unfold data1. rewrite length_app, <- (assoc_L (++)). split; [lia|done]. }
  rewrite Hprev. split; [done|]. split; [done|].
  destruct (handleData_loop now rest s1) as [-> _].
  destruct (handleData_loop now (first ++ rest) s) as [-> _].
  rewrite Hprev, (assoc_L (++)). fold data1.
  apply Hsame; [done | lia | lia].
Qed.

Lemma deliver_nonempty now chunk later s :
  tail_settled (previousBuffer (currentFile s)) (concat (chunk :: later)) →
  splits_clear (previousBuffer (currentFile s)) (chunk :: later) →
  returns_before_last now s (chunk :: later) →
  unrelayed (deliver now s (chunk :: later))
  = unrelayed (run (handleData now (concat (chunk :: later))) s).
Proof.
  revert chunk s. induction later as [|chunk2 later IH]; intros chunk s Htail Hclear Hret.
  { simpl. by rewrite app_nil_r. }
  destruct Hret as [[flags Hres] Hret]. destruct Hclear as [Hfree Hclear].
  change (concat (chunk :: chunk2 :: later)) with (chunk ++ concat (chunk2 :: later)) in *.
  destruct (split_delivery now chunk (concat (chunk2 :: later)) s flags Hres Htail Hfree)
    as (Hsuf & Hset & <-).
  change (deliver now s (chunk :: chunk2 :: later))
    with (deliver now (run (handleData now chunk) s) (chunk2 :: later)).
  apply IH; [done | | done].
  by apply (splits_clear_suffix (previousBuffer (currentFile s) ++ chunk)).
Qed.

(** C1, amended: chunk invariance of the reassembly.  Starting with nothing
    retained, when no boundary between sub-deliveries falls inside a
    keep-alive token and every sub-delivery but the last returns, feeding the
    sub-deliveries to [handleData] one after the other emits the same frames
    as the single delivery of their concatenation; the two final states agree
    on everything but the relay (the clients' cursors, the mirrored buffer and
    the socket writes). *)
Theorem C1_chunk_invariance (now : Moment) (s : SlpFileWriter) (chunks : list Buffer) :
  previousBuffer (currentFile s) = [] →
  splits_clear [] chunks →
  returns_before_last now s chunks →
  emitted (deliver now s chunks) = emitted (run (handleData now (concat chunks)) s) ∧
  unrelayed (deliver now s chunks) = unrelayed (run (handleData now (concat chunks)) s).
Proof.
  intros Hnil Hclear Hret.
  assert (Hun : unrelayed (deliver now s chunks)
                = unrelayed (run (handleData now (concat chunks)) s)).
  { destruct chunks as [|chunk later].
    - simpl. destruct (handleData_loop now [] s) as [-> _]. by rewrite Hnil.
    - apply deliver_nonempty; [left; done | by rewrite Hnil | done]. }
  split; [|done]. by rewrite <- emitted_unrelayed, Hun, emitted_unrelayed.
Qed.

(** C1, refuted as stated: a keep-alive token cut by a delivery boundary is
    not recognised, and its five bytes are emitted as five frames without
    payload, where the single delivery emits none.  Both sub-deliveries return
    and nothing was retained beforehand. *)
Lemma C1_counterexample :
  concat helo_split = HELO ∧
  previousBuffer (currentFile recording) = [] ∧
  returns_before_last sample_now recording helo_split ∧
  emitted (run (handleData sample_now (concat helo_split)) recording) = emitted recording ∧
  emitted (deliver sample_now recording helo_split)
    = emitted recording
      ++ [ {| fr_command := 72; fr_payload := [] |};
           {| fr_command := 69; fr_payload := [] |};
           {| fr_command := 76; fr_payload := [] |};
           {| fr_command := 79; fr_payload := [] |};
           {| fr_command := 0; fr_payload := [] |} ] ∧
  emitted (deliver sample_now recording helo_split)
    ≠ emitted (run (handleData sample_now (concat helo_split)) recording).
Proof.
  split; [reflexivity|]. split; [reflexivity|].
  split; [apply (bool_decide_unpack _); vm_compute; exact I|].
  split; [vm_compute; reflexivity|]. split; [vm_compute; reflexivity|].
  vm_compute. discriminate.
Qed.

Lemma C1_witness :
  emitted (deliver sample_now fresh cut_session)
    = emitted (run (handleData sample_now (concat cut_session)) fresh) ∧
  unrelayed (deliver sample_now fresh cut_session)
    = unrelayed (run (handleData sample_now (concat cut_session)) fresh).
Proof.
  apply (C1_chunk_invariance sample_now fresh cut_session).
  - reflexivity.
  - apply (bool_decide_unpack _). vm_compute. exact I.
  - apply (bool_decide_unpack _). vm_compute. exact I.
Defined.

(** The frames of the cut session: handshake, frame update, game end. *)
Example cut_session_frames :
  map fr_command (emitted (deliver sample_now fresh cut_session)) = [53; 56; 57].
Proof. vm_compute. reflexivity. Qed.

(** A handshake cut inside its size table does not wait for the rest: the
    first delivery throws. *)
Example cut_handshake_throws :
  result (handleData sample_now (take 4 handshake_38_39)) fresh = Throw RangeError.
Proof. vm_compute. reflexivity. Qed.

(** * Further properties of the code *)

(** ** Big-endian numbers: writing and reading back *)

Lemma octet_of_byte (b : byte) : octet (Byte.to_nat b) = b.
Proof.
  unfold octet. pose proof (Byte.to_nat_bounded b).
  rewrite Nat.mod_small by lia. by rewrite Byte.of_to_nat.
Qed.

Lemma getUint32_bytes (view : Buffer) off u :
  getUint32 view off = Some u →
  (0 ≤ u < 4294967296)%Z ∧ take 4 (drop off view) = be32 u.
Proof.
  assert (getUint32 view off = getUint32 (drop off view) 0) as ->.
  { unfold getUint32. rewrite !getUint8_drop. by rewrite Nat.add_0_r. }
  unfold getUint32, getUint8.
  destruct (drop off view) as [|b0 [|b1 [|b2 [|b3 rest]]]]; simpl; try done.
  intros [= <-].
  pose proof (Byte.to_nat_bounded b0). pose proof (Byte.to_nat_bounded b1).
  pose proof (Byte.to_nat_bounded b2). pose proof (Byte.to_nat_bounded b3).
  split; [lia|]. unfold be32.
  rewrite <- (octet_of_byte b0) at 1. rewrite <- (octet_of_byte b1) at 1.
  rewrite <- (octet_of_byte b2) at 1. rewrite <- (octet_of_byte b3) at 1.
  repeat f_equal; apply Nat2Z.inj; rewrite Z2Nat.id by (apply Z.mod_pos_bound; lia);
    Z.div_mod_to_equations; lia.
Qed.

(** X1: [createInt32Buffer] and [getInt32] are inverse on signed 32-bit
    numbers: the buffer written for a number in [-2^31, 2^31) has four bytes
    and reads back as that number; outside that range [writeInt32BE] throws
    and no buffer is made. *)
Theorem createInt32Buffer_round_trip (number : Z) :
  match createInt32Buffer number with
  | Some buf =>
      (-2147483648 ≤ number < 2147483648)%Z ∧ length buf = 4 ∧ getInt32 buf 0 = Some number
  | None => ¬ (-2147483648 ≤ number < 2147483648)%Z
  end.
Proof.
  unfold createInt32Buffer. case_decide as Hrange; [|done].
  split; [done|]. split; [done|].
  unfold getInt32. rewrite getUint32_be32 by (apply Z.mod_pos_bound; lia). simpl.
  f_equal. destruct (_ <? _)%Z eqn:Hlt.
  - apply Z.ltb_lt in Hlt. Z.div_mod_to_equations. lia.
  - apply Z.ltb_ge in Hlt. Z.div_mod_to_equations. lia.
Qed.

Lemma getInt32_range (view : Buffer) off number :
  getInt32 view off = Some number → (-2147483648 ≤ number < 2147483648)%Z.
Proof.
  unfold getInt32. destruct (getUint32 view off) as [u|] eqn:Hu; [|done]. simpl.
  apply getUint32_bytes in Hu as [Hrange _]. intros [= <-].
  destruct (u <? 2147483648)%Z eqn:Hlt; [apply Z.ltb_lt in Hlt | apply Z.ltb_ge in Hlt]; lia.
Qed.

(** X2: a number read with [getInt32] is always written back by
    [createInt32Buffer], as the very four bytes it was read from.  So the
    frame index copied from a frame update into [lastFrame] never makes the
    trailer fail, and appears there byte for byte. *)
Theorem getInt32_reencoded (view : Buffer) (off : nat) (number : Z) :
  getInt32 view off = Some number →
  createInt32Buffer number = Some (slice off (off + 4) view).
Proof.
  unfold getInt32. destruct (getUint32 view off) as [u|] eqn:Hu; [|done]. simpl.
  apply getUint32_bytes in Hu as [Hrange Hbytes]. intros [= <-].
  unfold slice. replace (off + 4 - off) with 4 by lia. rewrite Hbytes.
  unfold createInt32Buffer. destruct (u <? 2147483648)%Z eqn:Hlt.
  - apply Z.ltb_lt in Hlt. rewrite decide_True by lia. by rewrite Z.mod_small by lia.
  - apply Z.ltb_ge in Hlt. rewrite decide_True by lia. do 2 f_equal.
    Z.div_mod_to_equations. lia.
Qed.

Lemma getInt32_reencoded_witness :
  createInt32Buffer (-100) = Some (slice 1 (1 + 4) update_minus100).
Proof. apply (getInt32_reencoded update_minus100 1 (-100)). reflexivity. Defined.

(** ** The size table of a handshake *)

(** The loop of [processReceiveCommands] from [i] on reads up to index
    [last_read payloadLen i] of the view, and nothing when [payloadLen ≤ i]. *)
Lemma receiveLoop_result fuel view payloadLen i s :
  payloadLen ≤ i + 3 * fuel →
  result (receiveLoop fuel view payloadLen i) s =
    if decide (payloadLen ≤ i ∨ i + 3 * ((payloadLen - i + 2) / 3) - 1 < length view)
    then Ok tt else Throw RangeError.
Proof.
  revert i s. induction fuel as [|fuel IH]; intros i s Hfuel; cbn [receiveLoop].
  { rewrite decide_True by lia. reflexivity. }
  destruct (decide (i < payloadLen)) as [Hlt|Hge]; [|by rewrite decide_True by lia].
  assert (Hdiv : (payloadLen - i + 2) / 3 = S ((payloadLen - (i + 3) + 2) / 3)).
  { replace (payloadLen - i + 2) with ((payloadLen - i - 1) + 1 * 3) by lia.
    rewrite Nat.div_add by lia.
    destruct (decide (i + 3 ≤ payloadLen)).
    - replace (payloadLen - i - 1) with (payloadLen - (i + 3) + 2) by lia. lia.
    - replace (payloadLen - (i + 3) + 2) with 2 by lia.
      rewrite (Nat.div_small (payloadLen - i - 1)) by lia. reflexivity. }
  destruct (decide (i + 2 < length view)) as [Hin|Hout].
  - destruct (getUint8_in_range view i) as [c Hc]; [lia|].
    destruct (getUint8_in_range view (i + 1)) as [hi Hhi]; [lia|].
    destruct (getUint8_in_range view (i + 1 + 1)) as [lo Hlo]; [lia|].
    rewrite Hdiv.
    rewrite result_bind, Hc. cbn [checked]. change (result (ret c) s) with (Ok (A:=nat) c).
    cbv iota. change (run (ret c) s) with s. rewrite result_bind.
    unfold getUint16. rewrite Hhi, Hlo. cbn [mbind option_bind checked].
    change (result (ret (256 * hi + lo)) s) with (Ok (A:=nat) (256 * hi + lo)).
    cbv iota. change (run (ret (256 * hi + lo)) s) with s.
    rewrite result_bind.
    change (result (modifyFile ?f) s) with (Ok (A:=unit) tt). cbv iota.
    rewrite IH by lia.
    destruct (decide (payloadLen ≤ i + 3 ∨ _)) as [H|H].
    + rewrite decide_True; [done|]. right. destruct H as [H|H]; [|lia].
      replace (payloadLen - (i + 3) + 2) with 2 by lia. simpl. lia.
    + rewrite decide_False; [done|]. intros [?|?]; [lia|]. apply H. right. lia.
  - rewrite decide_False by (rewrite Hdiv; lia).
    rewrite result_bind.
    destruct (getUint8 view i) as [c|] eqn:Hc; [|done].
    cbn [checked]. change (result (ret c) s) with (Ok (A:=nat) c).
    cbv iota. change (run (ret c) s) with s.
    rewrite result_bind. unfold getUint16.
    destruct (getUint8 view (i + 1)) as [hi|] eqn:Hhi; [|done].
    destruct (getUint8 view (i + 1 + 1)) as [lo|] eqn:Hlo; [|done].
    apply getUint8_Some_lt in Hlo. lia.
Qed.

Lemma processReceiveCommands_reads (view : Buffer) (s : SlpFileWriter) payloadLen :
  getUint8 view 0 = Some payloadLen →
  result (processReceiveCommands view) s =
    if decide (3 * ((payloadLen + 1) / 3) < length view)
    then Ok payloadLen else Throw RangeError.
Proof.
  intros Hlen. unfold processReceiveCommands. rewrite result_bind, Hlen.
  cbn [checked]. change (result (ret payloadLen) s) with (Ok (A:=nat) payloadLen).
  cbv iota. change (run (ret payloadLen) s) with s.
  apply getUint8_Some_lt in Hlen.
  rewrite result_bind, receiveLoop_result by lia.
  destruct (decide (payloadLen ≤ 1 ∨ _)) as [H|H].
  - rewrite decide_True; [done|].
    destruct (decide (payloadLen ≤ 1)); [rewrite Nat.div_small by lia; lia|].
    destruct H as [H|H]; [lia|].
    replace (payloadLen - 1 + 2) with (payloadLen + 1) in H by lia. lia.
  - rewrite decide_False; [done|]. intros H'. apply H. right.
    replace (payloadLen - 1 + 2) with (payloadLen + 1) by lia. lia.
Qed.

Lemma processReceiveCommands_empty (view : Buffer) (s : SlpFileWriter) :
  getUint8 view 0 = None → result (processReceiveCommands view) s = Throw RangeError.
Proof. intros Hlen. unfold processReceiveCommands. by rewrite result_bind, Hlen. Qed.

(** X3: [processReceiveCommands] returns the length byte exactly when the
    view holds every byte the loop reads, that is up to index
    [3 * ((payloadLen + 1) / 3)] (which lies beyond the declared payload when
    [payloadLen - 1] is no multiple of 3); in every other case, an empty view
    included, it throws a [RangeError]. *)
Theorem processReceiveCommands_bounds (view : Buffer) (s : SlpFileWriter) :
  result (processReceiveCommands view) s =
    match getUint8 view 0 with
    | Some payloadLen =>
        if decide (3 * ((payloadLen + 1) / 3) < length view)
        then Ok payloadLen else Throw RangeError
    | None => Throw RangeError
    end.
Proof.
  destruct (getUint8 view 0) as [payloadLen|] eqn:Hlen.
  - by apply processReceiveCommands_reads.
  - by apply processReceiveCommands_empty.
Qed.

Lemma getUint8_app_r (pre view : Buffer) off :
  getUint8 (pre ++ view) (length pre + off) = getUint8 view off.
Proof. unfold getUint8. by rewrite lookup_app_r, Nat.add_comm, Nat.add_sub by lia. Qed.

Lemma with_payloadSizes_same s :
  with_currentFile (with_payloadSizes (payloadSizes (currentFile s)) (currentFile s)) s = s.
Proof. destruct s as [? ? ? ? [] ? ? ? ? ? ? ?]. reflexivity. Qed.

Lemma receiveLoop_table fuel (pre rest : Buffer) entries s :
  Forall (λ entry, entry.1 < 256 ∧ entry.2 < 256 * 256) entries →
  length entries ≤ fuel →
  receiveLoop fuel (pre ++ flat_map encode_entry entries ++ rest)
      (length pre + 3 * length entries) (length pre) s
  = (Ok tt,
     with_currentFile
       (with_payloadSizes (declare (payloadSizes (currentFile s)) entries) (currentFile s)) s).
Proof.
  revert fuel pre s. induction entries as [|[command size] entries IH];
    intros fuel pre s Hok Hfuel.
  { cbn [length flat_map declare fold_left]. rewrite with_payloadSizes_same.
    destruct fuel; cbn [receiveLoop]; [done|]. by rewrite decide_False by lia. }
  destruct fuel as [|fuel]; [simpl in Hfuel; lia|].
  apply Forall_cons in Hok as [[Hc Hs] Hok]. cbn [fst snd] in Hc, Hs.
  cbn [receiveLoop length]. rewrite decide_True by lia.
  cbn [flat_map encode_entry fst snd app].
  set (tail := flat_map encode_entry entries ++ rest).
  assert (Hread : ∀ a b c : byte,
            getUint8 (pre ++ a :: b :: c :: tail) (length pre) = Some (Byte.to_nat a) ∧
            getUint16 (pre ++ a :: b :: c :: tail) (length pre + 1)
              = Some (256 * Byte.to_nat b + Byte.to_nat c)).
  { intros a b c. unfold getUint16, getUint8.
    rewrite !lookup_app_r by lia.
    replace (length pre - length pre) with 0 by lia.
    replace (length pre + 1 - length pre) with 1 by lia.
    replace (length pre + 1 + 1 - length pre) with 2 by lia. done. }
  destruct (Hread (octet command) (octet (size / 256)) (octet (size mod 256))) as [H0 H1].
  rewrite octet_to_nat in H0. rewrite !octet_to_nat in H1.
  rewrite (Nat.mod_small command) in H0 by lia.
  rewrite (Nat.mod_small (size / 256)) in H1
    by (apply Nat.Div0.div_lt_upper_bound; lia).
  rewrite (Nat.mod_small (size mod 256)) in H1
    by (apply Nat.mod_upper_bound; lia).
  rewrite <- Nat.div_mod_eq in H1.
  unfold bind at 1. rewrite H0. cbn [checked ret].
  unfold bind at 1. rewrite H1. cbn [checked ret].
  unfold bind at 1. cbn [modifyFile modify].
  specialize (IH fuel (pre ++ [octet command; octet (size / 256); octet (size mod 256)])).
  rewrite length_app in IH. cbn [length] in IH.
  rewrite <- !(assoc_L (++)) in IH. cbn [app] in IH. fold tail in IH.
  replace (length pre + 3 * S (length entries))
    with (length pre + 3 + 3 * length entries) by lia.
  rewrite IH by (done || (cbn [length] in Hfuel; lia)). reflexivity.
Qed.

(** X4: reading back an encoded size table.  For entries whose command fits
    a byte and whose size fits two, [processReceiveCommands] on the encoded
    table, whatever follows it, returns the length byte [1 + 3n] and records
    the entries in order in the payload-size table (so a later entry for a
    command replaces an earlier one); nothing else changes. *)
Theorem processReceiveCommands_table (entries : list (nat * nat)) (rest : Buffer)
    (s : SlpFileWriter) :
  Forall (λ entry, entry.1 < 256 ∧ entry.2 < 256 * 256) entries →
  1 + 3 * length entries < 256 →
  processReceiveCommands (encode_table entries ++ rest) s
  = (Ok (1 + 3 * length entries),
     with_currentFile
       (with_payloadSizes (declare (payloadSizes (currentFile s)) entries) (currentFile s)) s).
Proof.
  intros Hok Hlen. unfold processReceiveCommands, encode_table.
  rewrite <- app_comm_cons.
  unfold bind at 1. unfold getUint8 at 1. cbn [lookup list_lookup fmap option_fmap option_map].
  rewrite octet_to_nat, Nat.mod_small by lia. cbn [checked ret].
  pose proof (receiveLoop_table (1 + 3 * length entries)
                [octet (1 + 3 * length entries)] rest entries s Hok) as Hloop.
  cbn [length app] in Hloop.
  unfold bind at 1. rewrite Hloop by lia. reflexivity.
Qed.

Lemma processReceiveCommands_table_witness :
  processReceiveCommands (encode_table [(56, 10); (57, 1)] ++ []) fresh
  = (Ok (1 + 3 * length [(56, 10); (57, 1)]),
     with_currentFile
       (with_payloadSizes (declare (payloadSizes (currentFile fresh)) [(56, 10); (57, 1)])
          (currentFile fresh)) fresh).
Proof.
  apply (processReceiveCommands_table [(56, 10); (57, 1)] [] fresh).
  - repeat (constructor; [cbn [fst snd]; lia|]). constructor.
  - cbn [length]. lia.
Defined.

(** ** The flags [handleData] returns *)

Lemma emitted_snoc s e :
  emitted (with_effects (effects s ++ [e]) s) = emitted s ++ from_option (λ f, [f]) [] (frame_of e).
Proof. unfold emitted. simpl. rewrite frames_app. unfold frames at 2. simpl. by destruct (frame_of e). Qed.

Lemma initializeNewGame_emitted now : keeps emitted (initializeNewGame now).
Proof. unfold initializeNewGame. keeps_tac. Qed.

Lemma writeCommand_emitted command payloadPtr payloadLen :
  keeps emitted (writeCommand command payloadPtr payloadLen).
Proof. unfold writeCommand. keeps_tac. Qed.

Lemma processCommand_emitted command view : keeps emitted (processCommand command view).
Proof. intros s. pose proof (processCommand_session_frames command view s) as H. by injection H. Qed.

(** A dispatch that returns has emitted one frame, the command with the
    payload it reports, and has raised the flag of the command, if any. *)
Lemma dispatch_emitted now command view flags s frame s' :
  dispatch now command view flags s = (Ok frame, s') →
  emitted s' = emitted s ++ [{| fr_command := command; fr_payload := slice 0 frame.1 view |}] ∧
  isNewGame frame.2 = isNewGame flags || bool_decide (command = CMD_RECEIVE_COMMANDS) ∧
  isGameEnd frame.2 = isGameEnd flags || bool_decide (command = CMD_RECEIVE_GAME_END).
Proof.
  intros Hd.
  assert (Hrun : run (dispatch now command view flags) s = s') by (unfold run; by rewrite Hd).
  assert (Hres : result (dispatch now command view flags) s = Ok frame)
    by (unfold result; by rewrite Hd).
  clear Hd. revert Hrun Hres.
  destruct (decide (command = CMD_RECEIVE_COMMANDS)) as [->|Hne].
  - unfold dispatch. rewrite decide_True by done.
    rewrite run_bind, result_bind.
    assert (result (initializeNewGame now) s = Ok tt) as ->
      by (unfold result; by rewrite initializeNewGame_eq).
    pose proof (initializeNewGame_emitted now s) as H1.
    set (s1 := run (initializeNewGame now) s) in *.
    rewrite run_bind, result_bind.
    pose proof (processReceiveCommands_keeps emitted view (λ _ _, eq_refl) s1) as H2.
    destruct (result (processReceiveCommands view) s1) as [len|]; [|done].
    set (s2 := run (processReceiveCommands view) s1) in *.
    rewrite run_bind, result_bind. simpl result at 1 3. cbv iota.
    set (s3 := run (emit _ _) s2).
    assert (H3 : emitted s3 = emitted s2
                 ++ [{| fr_command := CMD_RECEIVE_COMMANDS; fr_payload := slice 0 len view |}])
      by (unfold s3, emit, perform, run, modify; simpl; by rewrite emitted_snoc).
    rewrite run_bind, result_bind, writeCommand_result.
    pose proof (writeCommand_emitted CMD_RECEIVE_COMMANDS view len s3) as H4.
    set (s4 := run (writeCommand _ _ _) s3) in *.
    rewrite run_bind, result_bind. simpl result at 1 3. cbv iota.
    rewrite run_ret. intros <- [= <-]. simpl.
    unfold emitted at 1. simpl. rewrite frames_app. simpl. rewrite app_nil_r.
    fold (emitted s4). rewrite H4, H3, H2, H1. split; [done|].
    by rewrite orb_true_r, orb_false_r.
  - rewrite (dispatch_other _ _ _ _ Hne), run_bind, result_bind.
    pose proof (processCommand_emitted command view s) as H1.
    destruct (result (processCommand command view) s) as [len|]; [|done].
    set (s1 := run (processCommand command view) s) in *.
    destruct (afterProcess_emit command view flags len s1) as [H2 _].
    intros Hrun Hres. rewrite Hrun in H2. rewrite H2.
    assert (emitted (run (emit command (slice 0 len view)) s1)
            = emitted s1 ++ [{| fr_command := command; fr_payload := slice 0 len view |}]) as ->
      by (unfold emit, perform, run, modify; simpl; by rewrite emitted_snoc).
    rewrite H1. revert Hres. unfold afterProcess.
    rewrite result_bind. simpl result at 1. cbv iota.
    rewrite result_bind, writeCommand_result.
    rewrite (bool_decide_eq_false_2 _ Hne), orb_false_r.
    destruct (decide (command = CMD_RECEIVE_GAME_END)) as [->|Hne2].
    + rewrite result_bind. destruct (result endGame _); [|done].
      intros [= <-]. simpl. by rewrite orb_true_r.
    + rewrite (bool_decide_eq_false_2 _ Hne2), orb_false_r.
      destruct (decide (command = CMD_GAME_START)).
      * by intros [= <-].
      * rewrite result_bind. destruct (result (handleStatusOutput 200) _); [|done].
        by intros [= <-].
Qed.

Lemma parseLoop_emitted fuel now data :
  ∀ index flags s flags' s',
    parseLoop fuel now data index flags s = (Ok flags', s') →
    ∃ new, emitted s' = emitted s ++ new ∧
      isNewGame flags'
        = isNewGame flags || bool_decide (CMD_RECEIVE_COMMANDS ∈ map fr_command new) ∧
      isGameEnd flags'
        = isGameEnd flags || bool_decide (CMD_RECEIVE_GAME_END ∈ map fr_command new).
Proof.
  assert (Hnone : ∀ flags s s', emitted s' = emitted s →
      ∃ new : list Frame, emitted s' = emitted s ++ new ∧
      isNewGame flags
        = isNewGame flags || bool_decide (CMD_RECEIVE_COMMANDS ∈ map fr_command new) ∧
      isGameEnd flags
        = isGameEnd flags || bool_decide (CMD_RECEIVE_GAME_END ∈ map fr_command new)).
  { intros ? ? ? ->. exists []. rewrite app_nil_r. cbn [map].
    rewrite !(bool_decide_eq_false_2 (_ ∈ [])) by (by intros ?%elem_of_nil).
    by rewrite !orb_false_r. }
  induction fuel as [|fuel IH]; intros index flags s flags' s'; simpl.
  { intros [= <- <-]. by apply Hnone. }
  destruct (decide (index < length data)); [|intros [= <- <-]; by apply Hnone].
  destruct (decide (slice index (index + 5) data = HELO)); [apply IH|].
  unfold bind at 1. destruct (getUint8 data index) as [command|]; [|done].
  cbn [checked ret]. unfold bind at 1. cbn [get].
  destruct (decide _).
  { unfold_M. intros [= <- <-]. by apply Hnone. }
  unfold bind at 1. cbn [modifyFile modify].
  set (s1 := with_currentFile _ s).
  unfold bind at 1.
  destruct (dispatch now command (slice_from (index + 1) data) flags s1)
    as [[frame|] s2] eqn:Hd; [|done].
  apply dispatch_emitted in Hd as (He & Hn & Hg).
  intros (new & He' & Hn' & Hg')%IH.
  exists ({| fr_command := command;
             fr_payload := slice 0 frame.1 (slice_from (index + 1) data) |} :: new).
  split; [by rewrite He', He, <- (assoc_L (++))|].
  rewrite Hn', Hg', Hn, Hg. cbn [map fr_command].
  rewrite <- !orb_assoc, <- !bool_decide_or.
  split; f_equal; apply bool_decide_ext; rewrite elem_of_cons;
    (split; intros [?|?]; auto).
Qed.

Lemma handleData_result now newData s :
  result (handleData now newData) s
  = result (parseLoop (S (length (previousBuffer (currentFile s) ++ newData))) now
              (previousBuffer (currentFile s) ++ newData) 0 no_flags) s.
Proof.
  unfold handleData, result. unfold bind at 1. cbn [get]. unfold bind at 1.
  change {| isNewGame := false; isGameEnd := false |} with no_flags.
  by destruct (parseLoop _ _ _ _ _ s) as [[flags|e] mid].
Qed.

(** X5: what the flags returned by [handleData] mean.  When a delivery
    returns, [isNewGame] is set exactly when one of the frames it emitted is a
    handshake, and [isGameEnd] exactly when one of them is a game end. *)
Theorem handleData_flags (now : Moment) (newData : Buffer) (s : SlpFileWriter) (flags : Flags) :
  result (handleData now newData) s = Ok flags →
  ∃ new,
    emitted (run (handleData now newData) s) = emitted s ++ new ∧
    (isNewGame flags = true ↔ CMD_RECEIVE_COMMANDS ∈ map fr_command new) ∧
    (isGameEnd flags = true ↔ CMD_RECEIVE_GAME_END ∈ map fr_command new).
Proof.
  intros Hres.
  destruct (handleData_returns _ _ _ _ Hres) as (flags1 & mid & Hloop).
  destruct (handleData_loop now newData s) as [Hun _].
  apply (f_equal emitted) in Hun. rewrite !emitted_unrelayed in Hun.
  unfold run at 2 in Hun. rewrite Hloop in Hun. simpl in Hun.
  assert (flags = flags1) as ->.
  { rewrite handleData_result in Hres. unfold result in Hres. rewrite Hloop in Hres.
    by injection Hres. }
  apply parseLoop_emitted in Hloop as (new & He & Hn & Hg).
  exists new. rewrite Hun. split; [done|]. simpl in Hn, Hg.
  rewrite Hn, Hg, !bool_decide_eq_true. done.
Qed.

Lemma handleData_flags_witness :
  ∃ new,
    emitted (run (handleData sample_now (update_minus100 ++ game_end_7)) recording)
      = emitted recording ++ new ∧
    (isNewGame {| isNewGame := false; isGameEnd := true |} = true
       ↔ CMD_RECEIVE_COMMANDS ∈ map fr_command new) ∧
    (isGameEnd {| isNewGame := false; isGameEnd := true |} = true
       ↔ CMD_RECEIVE_GAME_END ∈ map fr_command new).
Proof.
  apply (handleData_flags sample_now (update_minus100 ++ game_end_7) recording
           {| isNewGame := false; isGameEnd := true |}).
  vm_compute. reflexivity.
Defined.

(** ** Keep-alive tokens and whole frames *)

Lemma parseLoop_keep_alive fuel now (rest : Buffer) flags s :
  length rest < fuel →
  parseLoop (S (length (HELO ++ rest))) now (HELO ++ rest) 0 flags s
  = parseLoop fuel now rest 0 flags s.
Proof.
  intros Hfuel. rewrite parseLoop_skip by done.
  change (0 + 5) with (5 + 0). rewrite <- parseLoop_drop.
  change (drop 5 (HELO ++ rest)) with rest.
  apply parseLoop_fuel; [rewrite length_app; simpl|]; lia.
Qed.

(** X6: a keep-alive token at the head of a delivery is skipped.  With no
    retained tail, delivering the token followed by [rest] returns what
    delivering [rest] returns and leaves the same writer, up to the relay
    state (which mirrors the bytes delivered): the token emits no frame, is
    written to no file and counted in no length. *)
Theorem keep_alive_skipped (now : Moment) (rest : Buffer) (s : SlpFileWriter) :
  previousBuffer (currentFile s) = [] →
  result (handleData now (HELO ++ rest)) s = result (handleData now rest) s ∧
  unrelayed (run (handleData now (HELO ++ rest)) s) = unrelayed (run (handleData now rest) s).
Proof.
  intros Hnil. split.
  - rewrite !handleData_result, Hnil. cbn [app]. unfold result.
    change (x48 :: x45 :: x4c :: x4f :: x00 :: rest) with (HELO ++ rest).
    by rewrite (parseLoop_keep_alive (S (length rest))) by lia.
  - destruct (handleData_loop now (HELO ++ rest) s) as [-> _].
    destruct (handleData_loop now rest s) as [-> _].
    rewrite Hnil. cbn [app]. unfold run.
    change (x48 :: x45 :: x4c :: x4f :: x00 :: rest) with (HELO ++ rest).
    by rewrite (parseLoop_keep_alive (S (length rest))) by lia.
Qed.

Lemma keep_alive_skipped_witness :
  result (handleData sample_now (HELO ++ update_minus100)) recording
    = result (handleData sample_now update_minus100) recording ∧
  unrelayed (run (handleData sample_now (HELO ++ update_minus100)) recording)
    = unrelayed (run (handleData sample_now update_minus100) recording).
Proof. apply (keep_alive_skipped sample_now update_minus100 recording). reflexivity. Defined.

Lemma handleStatusOutput_result timeoutLength s :
  result (handleStatusOutput timeoutLength) s = Ok tt.
Proof.
  unfold handleStatusOutput, setTimer, setStatus, result. unfold_M.
  destruct (decide _); [done|].
  destruct (status (statusOutput s)); simpl; by destruct (timeout (statusOutput s)).
Qed.

Lemma afterProcess_table command view flags payloadLen :
  command ≠ CMD_RECEIVE_GAME_END →
  keeps (λ s, payloadSizes (currentFile s)) (afterProcess command view flags payloadLen).
Proof.
  intros Hne. unfold afterProcess. rewrite decide_False by done.
  assert (keeps (λ s, payloadSizes (currentFile s)) (handleStatusOutput 200))
    by (intros s; by rewrite handleStatusOutput_currentFile).
  unfold writeCommand. keeps_tac. assumption.
Qed.

Lemma afterProcess_result command view flags payloadLen s :
  command ≠ CMD_RECEIVE_GAME_END →
  result (afterProcess command view flags payloadLen) s = Ok (payloadLen, flags).
Proof.
  intros Hne. unfold afterProcess.
  rewrite result_bind. simpl result at 1. cbv iota.
  rewrite result_bind, writeCommand_result, decide_False by done.
  destruct (decide _); [done|].
  by rewrite result_bind, handleStatusOutput_result.
Qed.

Lemma processCommand_table command view :
  keeps (λ s, payloadSizes (currentFile s)) (processCommand command view).
Proof.
  intros s. pose proof (processCommand_recorder command view s).
  destruct (processCommand_currentFile command view s)
    as [-> | (L & fi & p & ch & _ & _ & _ & _ & _ & _ & _ & Heq)]; [done|].
  unfold run. by rewrite Heq.
Qed.

(** The dispatch of a frame of a game in progress. *)
Lemma dispatch_in_game now command view flags s :
  command ≠ CMD_RECEIVE_COMMANDS → command ≠ CMD_RECEIVE_GAME_END →
  (command = CMD_RECEIVE_POST_FRAME_UPDATE →
   default 0 (payloadSizes (currentFile s) !! command) = 0 ∨ 7 ≤ length view) →
  result (dispatch now command view flags) s
    = Ok (default 0 (payloadSizes (currentFile s) !! command), flags) ∧
  payloadSizes (currentFile (run (dispatch now command view flags) s))
    = payloadSizes (currentFile s).
Proof.
  intros Hne1 Hne2 Hsized. rewrite (dispatch_other _ _ _ _ Hne1).
  rewrite result_bind, run_bind.
  assert (Hres : result (processCommand command view) s
                 = Ok (default 0 (payloadSizes (currentFile s) !! command))).
  { destruct (payloadSizes (currentFile s) !! command) as [size|] eqn:Htab;
      [|unfold result; by rewrite processCommand_unrecognized by (by rewrite Htab)].
    destruct (decide (size = 0)) as [->|Hnz];
      [unfold result; by rewrite processCommand_unrecognized by (by rewrite Htab)|].
    destruct (decide (command = CMD_RECEIVE_POST_FRAME_UPDATE)) as [->|Hne3].
    - destruct Hsized as [Hz|Hlen]; [done | by simpl in Hz | ].
      destruct (getInt32_in_range view 0) as [fi Hfi]; [lia|].
      destruct (getUint8_in_range view 4) as [p Hp]; [lia|].
      destruct (getUint8_in_range view 5) as [fo Hfo]; [lia|].
      destruct (getUint8_in_range view 6) as [ch Hch]; [lia|].
      unfold result. by rewrite (processCommand_update _ _ _ _ _ _ _ Htab Hnz Hfi Hp Hfo Hch).
    - unfold result. by rewrite (processCommand_other _ _ _ _ Htab). }
  rewrite Hres. split; [by apply afterProcess_result|].
  by rewrite afterProcess_table, processCommand_table.
Qed.

Lemma slice_head_HELO (b : byte) (l : Buffer) : slice 0 (0 + 5) (b :: l) = HELO → b = x48.
Proof. unfold slice. simpl. by intros [= -> _]. Qed.

Lemma octet_small n : n < 256 → Byte.to_nat (octet n) = n.
Proof. intros. rewrite octet_to_nat. by apply Nat.mod_small. Qed.

Lemma app_prefix_split {A} (l1 l2 k1 k2 : list A) :
  l1 ++ l2 = k1 ++ k2 → length k1 ≤ length l1 →
  l1 = k1 ++ drop (length k1) l1 ∧ drop (length k1) l1 ++ l2 = k2.
Proof.
  intros H Hle.
  assert (Htake : take (length k1) (l1 ++ l2) = k1) by (by rewrite H, take_app_length).
  assert (Hdrop : drop (length k1) (l1 ++ l2) = k2) by (by rewrite H, drop_app_length).
  rewrite take_app_le in Htake by done. rewrite drop_app_le in Hdrop by done.
  split; [|done]. by rewrite <- Htake at 1; rewrite take_drop.
Qed.

(** One iteration on a whole frame of a game in progress: the frame is
    emitted, and the loop goes on with what follows it. *)
Lemma parseLoop_whole_frame fuel now frame (more : Buffer) flags s :
  in_game (payloadSizes (currentFile s)) frame →
  ∃ s2,
    parseLoop (S fuel) now (encode_frame frame ++ more) 0 flags s
      = parseLoop fuel now more 0 flags s2 ∧
    emitted s2 = emitted s ++ [frame] ∧
    payloadSizes (currentFile s2) = payloadSizes (currentFile s) ∧
    previousBuffer (currentFile s2) = [].
Proof.
  destruct frame as [command payload].
  intros (Hbyte & Hne1 & Hne2 & HneH & Hlen & Hsized).
  unfold sized in Hsized. cbn [fr_command fr_payload] in *.
  set (frame := {| fr_command := command; fr_payload := payload |}).
  set (data := encode_frame frame ++ more).
  assert (Hdata : length data = S (length payload + length more))
    by (unfold data; simpl; by rewrite length_app).
  assert (Hcmd : getUint8 data 0 = Some command)
    by (unfold data, getUint8; simpl; by rewrite octet_small).
  assert (Hno : slice 0 (0 + 5) data ≠ HELO).
  { intros H%slice_head_HELO. apply (f_equal Byte.to_nat) in H.
    rewrite octet_small in H by done. by apply HneH. }
  assert (Hpos : 0 < length data) by lia.
  pose proof (parseLoop_frame fuel now data 0 flags s command Hpos Hno Hcmd) as Hstep.
  rewrite <- Hlen, Nat.sub_0_r, decide_False in Hstep by lia.
  set (s1 := with_currentFile (with_previousBuffer [] (currentFile s)) s) in *.
  assert (Hview : slice_from (0 + 1) data = payload ++ more) by done.
  unfold handleFrame in Hstep. rewrite Hview in Hstep.
  destruct (dispatch_in_game now command (payload ++ more) flags s1 Hne1 Hne2)
    as [Hres Htab].
  { intros ->. change (payloadSizes (currentFile s1)) with (payloadSizes (currentFile s)).
    rewrite <- Hlen. destruct (Hsized eq_refl) as [->|H7]; [by left|right].
    rewrite length_app. lia. }
  change (payloadSizes (currentFile s1)) with (payloadSizes (currentFile s)) in *.
  rewrite <- Hlen in *.
  destruct (dispatch now command (payload ++ more) flags s1) as [[pair|] s2] eqn:Hd;
    [|by unfold result in Hres; rewrite Hd in Hres].
  unfold result in Hres. rewrite Hd in Hres. injection Hres as ->.
  unfold run in Htab. rewrite Hd in Htab. cbn [snd] in Htab.
  destruct (dispatch_emitted _ _ _ _ _ _ _ Hd) as [He _]. cbn [fst] in He.
  rewrite slice_0, take_app_length in He.
  assert (Htl : previousBuffer (currentFile s2) = []).
  { pose proof (dispatch_tail now command (payload ++ more) flags s1) as Ht.
    unfold tail_kept_or_emptied, run in Ht. rewrite Hd in Ht. by destruct Ht. }
  rewrite (bind_ok _ _ _ _ _ Hd) in Hstep. cbn [fst snd] in Hstep.
  replace (0 + 1 + length payload) with (S (length payload) + 0) in Hstep by lia.
  rewrite <- (parseLoop_drop _ _ data) in Hstep.
  assert (drop (S (length payload)) data = more) as Hmore
    by (unfold data; simpl; by rewrite drop_app_length).
  rewrite Hmore in Hstep. by exists s2.
Qed.

(** The loop on a prefix [data] of the encoding of frames of a game in
    progress: the frames that are whole in [data] are emitted, and the
    beginning of the next one, if any of it is there, is retained. *)
Lemma parseLoop_prefix now fs :
  ∀ fuel flags s (data ext : Buffer),
    data ++ ext = encode_frames fs →
    length data < fuel →
    Forall (in_game (payloadSizes (currentFile s))) fs →
    (data = [] → previousBuffer (currentFile s) = []) →
    ∃ whole rest,
      fs = whole ++ rest ∧
      result (parseLoop fuel now data 0 flags) s = Ok flags ∧
      emitted (run (parseLoop fuel now data 0 flags) s) = emitted s ++ whole ∧
      payloadSizes (currentFile (run (parseLoop fuel now data 0 flags) s))
        = payloadSizes (currentFile s) ∧
      previousBuffer (currentFile (run (parseLoop fuel now data 0 flags) s)) ++ ext
        = encode_frames rest ∧
      (previousBuffer (currentFile (run (parseLoop fuel now data 0 flags) s)) = [] ∨
       ∃ frame later, rest = frame :: later ∧
         length (previousBuffer (currentFile (run (parseLoop fuel now data 0 flags) s)))
           < length (encode_frame frame)).
Proof.
  induction fs as [|[command payload] fs IH]; intros fuel flags s data ext Hdata Hfuel Hok Hnil.
  { apply app_eq_nil in Hdata as [-> ->]. exists [], [].
    unfold run, result. rewrite parseLoop_end by (simpl; lia). simpl.
    rewrite app_nil_r, (Hnil eq_refl). repeat split; auto. }
  apply Forall_cons in Hok as [(Hbyte & Hne1 & Hne2 & HneH & Hlen & Hsized) Hok].
  unfold sized in Hsized. cbn [fr_command fr_payload] in *.
  set (frame := {| fr_command := command; fr_payload := payload |}).
  change (encode_frames (frame :: fs)) with (encode_frame frame ++ encode_frames fs) in Hdata.
  destruct (decide (data = [])) as [->|Hsome].
  { exists [], (frame :: fs). unfold run, result. rewrite parseLoop_end by (simpl; lia).
    simpl. rewrite app_nil_r, (Hnil eq_refl). simpl in Hdata. repeat split; auto. }
  assert (Hpos : 0 < length data) by (destruct data; [done | simpl; lia]).
  destruct fuel as [|fuel]; [lia|].
  assert (Hcmd : getUint8 data 0 = Some command).
  { unfold getUint8. rewrite <- (lookup_app_l data ext) by done. rewrite Hdata. simpl.
    by rewrite octet_small. }
  assert (Hno : slice 0 (0 + 5) data ≠ HELO).
  { destruct data as [|b data']; [done|]. intros H%slice_head_HELO.
    unfold getUint8 in Hcmd. simpl in Hcmd. injection Hcmd as Hcmd. rewrite H in Hcmd.
    apply HneH. by rewrite <- Hcmd. }
  pose proof (parseLoop_frame fuel now data 0 flags s command Hpos Hno Hcmd) as Hstep.
  rewrite <- Hlen, Nat.sub_0_r in Hstep.
  destruct (decide (length data < length payload + 1)) as [Hshort|Hwhole].
  - exists [], (frame :: fs). unfold run, result. rewrite Hstep. simpl.
    rewrite app_nil_r. split; [done|]. split; [done|]. split; [done|]. split; [done|].
    split; [done|]. right. exists frame, fs. split; [done|]. simpl in *. lia.
  - destruct (app_prefix_split data ext (encode_frame frame) (encode_frames fs) Hdata)
      as [Hhead Htail]; [simpl; lia|].
    set (more := drop (length (encode_frame frame)) data) in *.
    destruct (parseLoop_whole_frame fuel now frame more flags s) as (s2 & Hwhole' & He & Htab & Htl).
    { by repeat split. }
    rewrite <- Hhead in Hwhole'.
    destruct (IH fuel flags s2 more ext Htail) as (whole & rest & -> & IHr & IHe & IHt & IHp & IHq).
    { assert (length data = length (encode_frame frame) + length more)
        by (by rewrite Hhead at 1; rewrite length_app).
      simpl in *. lia. }
    { by rewrite Htab. }
    { done. }
    exists (frame :: whole), rest. unfold run, result in *. rewrite Hwhole'.
    split; [done|]. split; [done|]. split; [by rewrite IHe, He, <- (assoc_L (++))|].
    split; [by rewrite IHt|]. by split.
Qed.

Lemma parseLoop_items now items :
  ∀ fuel flags s,
    length (encode_items items) < fuel →
    Forall (in_game_item (payloadSizes (currentFile s))) items →
    result (parseLoop fuel now (encode_items items) 0 flags) s = Ok flags ∧
    emitted (run (parseLoop fuel now (encode_items items) 0 flags) s)
      = emitted s ++ omap id items.
Proof.
  induction items as [|[frame|] items IH]; intros fuel flags s Hfuel Hok.
  - unfold run, result. rewrite parseLoop_end by (simpl; lia). by rewrite app_nil_r.
  - apply Forall_cons in Hok as [Hframe Hok]. simpl in Hframe.
    change (encode_items (Some frame :: items))
      with (encode_frame frame ++ encode_items items) in *.
    destruct fuel as [|fuel]; [lia|].
    destruct (parseLoop_whole_frame fuel now frame (encode_items items) flags s Hframe)
      as (s2 & Hstep & He & Htab & _).
    destruct (IH fuel flags s2) as [IHr IHe].
    { rewrite length_app in Hfuel. simpl in Hfuel. lia. }
    { by rewrite Htab. }
    unfold run, result in *. rewrite Hstep, IHr, IHe, He.
    split; [done|]. by rewrite <- (assoc_L (++)).
  - apply Forall_cons in Hok as [_ Hok].
    change (encode_items (None :: items)) with (HELO ++ encode_items items) in *.
    destruct fuel as [|fuel]; [lia|].
    assert (Hstep : parseLoop (S fuel) now (HELO ++ encode_items items) 0 flags s
                    = parseLoop fuel now (encode_items items) 0 flags s).
    { rewrite parseLoop_skip by done. change (0 + 5) with (5 + 0).
      by rewrite <- parseLoop_drop. }
    destruct (IH fuel flags s) as [IHr IHe]; [|done|].
    { rewrite length_app in Hfuel. simpl in Hfuel. lia. }
    unfold run, result in *. by rewrite Hstep, IHr, IHe.
Qed.

(** X7: frames written back to back are read back as they are.  With no
    retained tail, a delivery made of frames of a game in progress, with
    keep-alive tokens anywhere between them, returns with both flags unset and
    has emitted exactly those frames, in order, and nothing for the tokens. *)
Theorem frames_round_trip (now : Moment) (items : list (option Frame)) (s : SlpFileWriter) :
  previousBuffer (currentFile s) = [] →
  Forall (in_game_item (payloadSizes (currentFile s))) items →
  result (handleData now (encode_items items)) s = Ok no_flags ∧
  emitted (run (handleData now (encode_items items)) s) = emitted s ++ omap id items.
Proof.
  intros Hnil Hok.
  destruct (parseLoop_items now items (S (length (encode_items items))) no_flags s) as [Hr He];
    [lia | done |].
  split.
  - by rewrite handleData_result, Hnil.
  - destruct (handleData_loop now (encode_items items) s) as [Hun _].
    apply (f_equal emitted) in Hun. rewrite !emitted_unrelayed in Hun.
    by rewrite Hun, Hnil.
Qed.

Lemma frames_round_trip_witness :
  result (handleData sample_now
            (encode_items [ Some {| fr_command := 56; fr_payload := drop 1 update_minus100 |};
                            None;
                            Some {| fr_command := 16; fr_payload := [] |};
                            Some {| fr_command := 56; fr_payload := drop 1 update_0 |};
                            None ]))
    recording = Ok no_flags ∧
  emitted (run (handleData sample_now
                  (encode_items [ Some {| fr_command := 56; fr_payload := drop 1 update_minus100 |};
                                  None;
                                  Some {| fr_command := 16; fr_payload := [] |};
                                  Some {| fr_command := 56; fr_payload := drop 1 update_0 |};
                                  None ]))
             recording)
    = emitted recording
      ++ omap id [ Some {| fr_command := 56; fr_payload := drop 1 update_minus100 |};
                   None;
                   Some {| fr_command := 16; fr_payload := [] |};
                   Some {| fr_command := 56; fr_payload := drop 1 update_0 |};
                   None ].
Proof.
  apply (frames_round_trip sample_now
           [ Some {| fr_command := 56; fr_payload := drop 1 update_minus100 |};
             None;
             Some {| fr_command := 16; fr_payload := [] |};
             Some {| fr_command := 56; fr_payload := drop 1 update_0 |};
             None ] recording).
  - reflexivity.
  - apply (bool_decide_unpack _). vm_compute. exact I.
Defined.

(** ** Without a handshake nothing is recorded *)

Lemma unused_emit s command payload :
  unused s → unused (run (emit command payload) s).
Proof.
  intros (? & ? & ? & ? & ? & ? & ? & ? & Hfx). repeat split; try done.
  simpl. apply Forall_app. split; [done|]. by repeat constructor.
Qed.

Lemma byte_to_nat_x35 (b : byte) : Byte.to_nat b = CMD_RECEIVE_COMMANDS → b = x35.
Proof.
  intros H. pose proof (Byte.of_to_nat b) as Hb. rewrite H in Hb.
  by injection Hb.
Qed.

(** The dispatch of any command but the handshake by an unused writer. *)
Lemma dispatch_unused now command view flags s :
  command ≠ CMD_RECEIVE_COMMANDS → unused s →
  ∃ s', dispatch now command view flags s
        = (Ok (0, {| isNewGame := isNewGame flags;
                     isGameEnd := isGameEnd flags
                                  || bool_decide (command = CMD_RECEIVE_GAME_END) |}), s')
        ∧ unused s'.
Proof.
  intros Hne Hun. rewrite (dispatch_other _ _ _ _ Hne).
  pose proof Hun as (Hws & Hpath & Htab & Htail & Hmeta & Hpend & Hst & Hto & Hfx).
  rewrite (bind_ok _ _ _ _ _ (processCommand_unrecognized command view s
                                ltac:(by rewrite Htab))).
  unfold afterProcess.
  pose proof (unused_emit s command (slice 0 0 view) Hun) as Hun1.
  rewrite (bind_ok _ _ s tt (run (emit command (slice 0 0 view)) s)) by done.
  set (s1 := run (emit command (slice 0 0 view)) s) in *.
  pose proof Hun1 as (Hws1 & _).
  assert (Hw : writeCommand command view 0 s1 = (Ok tt, s1)).
  { unfold writeCommand. unfold_M. by rewrite Hws1. }
  rewrite (bind_ok _ _ _ _ _ Hw).
  destruct (decide (command = CMD_RECEIVE_GAME_END)) as [->|Hne2].
  - assert (He : endGame s1 = (Ok tt, with_currentFile getClearedCurrentFile s1)).
    { unfold endGame. unfold_M. by rewrite Hws1. }
    rewrite (bind_ok _ _ _ _ _ He). eexists. split; [by rewrite orb_true_r|].
    destruct Hun1 as (? & ? & ? & ? & ? & ? & ? & ? & ?). by repeat split.
  - rewrite (bool_decide_eq_false_2 _ Hne2), orb_false_r.
    destruct (decide (command = CMD_GAME_START)).
    + eexists. split; [by destruct flags|done].
    + assert (Hh : handleStatusOutput 200 s1 = (Ok tt, s1)).
      { apply handleStatusOutput_below. unfold below_threshold.
        destruct Hun1 as (_ & _ & _ & _ & -> & _). simpl. lia. }
      rewrite (bind_ok _ _ _ _ _ Hh). eexists. split; [by destruct flags|done].
Qed.

Lemma parseLoop_unused fuel now data :
  x35 ∉ data →
  ∀ index flags s, unused s →
    ∃ flags' s', parseLoop fuel now data index flags s = (Ok flags', s') ∧
                 isNewGame flags' = isNewGame flags ∧ unused s'.
Proof.
  intros Hno. induction fuel as [|fuel IH]; intros index flags s Hun; simpl.
  { by exists flags, s. }
  destruct (decide (index < length data)); [|by exists flags, s].
  destruct (decide (slice index (index + 5) data = HELO)); [by apply IH|].
  destruct (data !! index) as [b|] eqn:Hb; [|apply lookup_ge_None in Hb; lia].
  unfold getUint8. rewrite Hb. cbn [fmap option_fmap option_map checked].
  rewrite (bind_ok (ret (Byte.to_nat b)) _ s (Byte.to_nat b) s) by done.
  rewrite (bind_ok get _ s s s) by done.
  pose proof Hun as (Hws & Hpath & Htab & Htail & Hrest).
  rewrite Htab, lookup_empty. destruct (decide _) as [Hshort|_]; [simpl in Hshort; lia|].
  set (s1 := with_currentFile (with_previousBuffer [] (currentFile s)) s).
  rewrite (bind_ok _ _ s tt s1) by done.
  assert (Hun1 : unused s1)
    by (destruct Hun as (? & ? & ? & ? & ? & ? & ? & ? & ?); by repeat split).
  assert (Hne : Byte.to_nat b ≠ CMD_RECEIVE_COMMANDS).
  { intros ->%byte_to_nat_x35. apply Hno. by eapply list_elem_of_lookup_2. }
  destruct (dispatch_unused now (Byte.to_nat b) (slice_from (index + 1) data) flags s1 Hne Hun1)
    as (s2 & Hd & Hun2).
  rewrite (bind_ok _ _ _ _ _ Hd). cbn [fst snd].
  destruct (IH (index + 1 + 0) {| isNewGame := isNewGame flags;
             isGameEnd := isGameEnd flags
                          || bool_decide (Byte.to_nat b = CMD_RECEIVE_GAME_END) |} s2 Hun2)
    as (flags' & s' & Hloop & Hflag & Hun').
  by exists flags', s'.
Qed.

Lemma handleData_unused now newData s :
  x35 ∉ newData → unused s → unused (run (handleData now newData) s).
Proof.
  intros Hno Hun. pose proof Hun as (_ & _ & _ & Htail & _).
  unfold handleData, run. rewrite (bind_ok get _ s s s) by done.
  rewrite Htail. cbn [app].
  destruct (parseLoop_unused (S (length newData)) now newData Hno 0
              {| isNewGame := false; isGameEnd := false |} s Hun)
    as (flags' & mid & Hloop & _ & Hmid).
  rewrite (bind_ok _ _ _ _ _ Hloop).
  unfold relay. unfold_M. simpl.
  destruct Hmid as (? & ? & ? & ? & ? & ? & ? & ? & Hfx). repeat split; try done.
  simpl. apply Forall_app. split; [done|]. apply Forall_map. by apply Forall_true.
Qed.

Lemma step_unused s e : no_handshake_byte e → unused s → unused (step s e).
Proof.
  intros Hno Hun. destruct e as [now newData| | |sock|sock|pairs]; simpl.
  - by apply handleData_unused.
  - pose proof Hun as (_ & _ & _ & _ & _ & -> & _). exact Hun.
  - destruct Hun as (? & ? & ? & ? & ? & ? & ? & ? & Hfx). repeat split; try done.
    simpl. apply Forall_app. split; [done|]. apply Forall_map. by apply Forall_true.
  - destruct (server s); [|done]. by destruct Hun as (? & ? & ? & ? & ? & ? & ? & ? & ?).
  - by destruct Hun as (? & ? & ? & ? & ? & ? & ? & ? & ?).
  - by destruct Hun as (? & ? & ? & ? & ? & ? & ? & ? & ?).
Qed.

Lemma constructor_unused settings : unused (constructor settings).
Proof.
  unfold constructor, manageRelay, run. unfold_M. simpl.
  destruct (st_isRelaying settings); simpl; repeat split; try done; by repeat constructor.
Qed.

(** X8: without a handshake nothing is recorded.  As long as no delivered
    byte is 0x35, the writer creates, opens and patches no file, has no
    current file path and does not show the source, whatever else arrives
    (keep-alives, game ends, frame updates, timers, relay clients). *)
Theorem no_handshake_no_file (settings : Settings) (events : list Event) :
  Forall no_handshake_byte events →
  let s := steps (constructor settings) events in
  writeStream (currentFile s) = None ∧
  path (currentFile s) = None ∧
  status (statusOutput s) = false ∧
  Forall (λ e, is_file_effect e = false) (effects s).
Proof.
  intros Hno s.
  assert (Hun : unused s).
  { unfold s, steps. generalize (constructor_unused settings).
    generalize (constructor settings).
    induction Hno as [|e events He _ IH]; intros s0 H0; [done|].
    simpl. apply IH. by apply step_unused. }
  by destruct Hun as (? & ? & ? & ? & ? & ? & ? & ? & ?).
Qed.

Lemma no_handshake_no_file_witness :
  let s := steps (constructor sample_settings) idle_chatter in
  writeStream (currentFile s) = None ∧
  path (currentFile s) = None ∧
  status (statusOutput s) = false ∧
  Forall (λ e, is_file_effect e = false) (effects s).
Proof.
  apply (no_handshake_no_file sample_settings idle_chatter).
  apply (bool_decide_unpack _). vm_compute. exact I.
Defined.

(** ** The relay as a mirror of the deliveries *)

Lemma filter_socket_writes (new : list Effect) (cs : list Client) (f : Client → Buffer) :
  Forall (λ e, is_socket_write e = false) new →
  List.filter is_socket_write (new ++ map (λ c, SocketWrite (socket c) (f c)) cs)
  = map (λ c, SocketWrite (socket c) (f c)) cs.
Proof.
  intros Hnew. rewrite List.filter_app.
  assert (List.filter is_socket_write new = []) as ->.
  { induction Hnew as [|e new He _ IH]; [done|]. simpl. by rewrite He. }
  simpl. induction cs as [|c cs IH]; [done|]. simpl. by rewrite IH.
Qed.

(** X9: the relay mirrors the deliveries of a recording, client by client.
    When a delivery to a writer with an open recording returns, a relay client
    that had been sent all of the accumulated buffer is sent exactly the bytes
    of this delivery, whatever the cursors of the other clients are and
    whether or not the delivery carries a handshake; the delivery makes one
    socket write per client, and every client has again been sent all of the
    buffer. *)
Theorem relay_mirrors_delivery (now : Moment) (newData : Buffer) (s : SlpFileWriter)
    (flags : Flags) (i : nat) (client : Client) :
  writeStream (currentFile s) ≠ None →
  clients s !! i = Some client →
  readPos client = length (fullBuffer (currentFile s)) →
  result (handleData now newData) s = Ok flags →
  let s' := run (handleData now newData) s in
  relayed s s' !! i = Some (SocketWrite (socket client) newData) ∧
  length (relayed s s') = length (clients s) ∧
  Forall (λ c, readPos c = length (fullBuffer (currentFile s'))) (clients s').
Proof.
  intros Hopen Hi Hpos Hres s'.
  assert (Hrun : handleData now newData s = (Ok flags, s')).
  { unfold s', run. unfold result in Hres.
    destruct (handleData now newData s) as [r t]. simpl in *. by subst r. }
  destruct (handleData_relay_state _ _ _ _ _ Hrun) as (mid & new & Hr & Heff & Hnew & Hs').
  apply relay_after_backlog in Hr as [Hbuf Hcur].
  unfold run in Hs'. rewrite relay_eq in Hs'. simpl in Hs'. rewrite Hbuf in Hs'.
  destruct (relay_writes_cursor (backlog flags s ++ newData) (cursor flags) _ _ Hcur)
    as [Hw Hc].
  rewrite Hw, Hc, Heff in Hs'. rewrite Hs'.
  unfold relayed. simpl. rewrite <- (assoc_L (++)), drop_app_length.
  rewrite filter_socket_writes by done.
  split; [|split].
  - rewrite list_lookup_fmap, Hi. simpl. do 2 f_equal.
    assert (Hrec : idle s = false)
      by (unfold idle; by destruct (writeStream (currentFile s))).
    unfold cursor, backlog. rewrite Hrec, andb_false_r, orb_false_r.
    destruct (isNewGame flags); [done|].
    unfold slice_from. by rewrite Hpos, drop_app_length.
  - by rewrite length_map.
  - unfold cursors_at. apply Forall_map. by apply Forall_true.
Qed.

Lemma relay_mirrors_delivery_witness :
  let s' := run (handleData sample_now update_0) mixed_audience in
  relayed mixed_audience s' !! 0 = Some (SocketWrite (socket {| socket := 3; readPos := 500 |})
                                           update_0) ∧
  length (relayed mixed_audience s') = length (clients mixed_audience) ∧
  Forall (λ c, readPos c = length (fullBuffer (currentFile s'))) (clients s').
Proof.
  apply (relay_mirrors_delivery sample_now update_0 mixed_audience no_flags 0
           {| socket := 3; readPos := 500 |}).
  - vm_compute. discriminate.
  - vm_compute. reflexivity.
  - vm_compute. reflexivity.
  - vm_compute. reflexivity.
Defined.

(** In [mixed_audience] the late joiner is sent all 511 bytes by the same
    delivery that sends the other client its 11. *)
Example mixed_audience_writes :
  relayed mixed_audience (run (handleData sample_now update_0) mixed_audience)
  = [SocketWrite 3 update_0; SocketWrite 7 (backlog_500 ++ update_0)].
Proof. vm_compute. reflexivity. Qed.

(** ** The relay server under settings updates *)

(** Without clients, [InUse.manageRelay] is [manageRelay]. *)
Lemma manageRelay_unconnected s : clients s = [] → InUse.manageRelay s = manageRelay s.
Proof.
  intros Hnone. unfold InUse.manageRelay, manageRelay. unfold_M.
  destruct s as [fp osn nick pairs cf so relaying up cs nt pe fx]. simpl in *. subst cs.
  destruct relaying; simpl; [done|]. rewrite app_nil_r. by destruct up.
Qed.

(** X10: disabling the relay while a client is connected fails.  The loop
    that is to drop the clients calls [destroy] on the client records, which
    have no such method: [updateSettings] throws a [TypeError] once it has
    stored the new settings, and the server is not closed and stays
    registered with all its clients, so deliveries are still relayed. *)
Theorem updateSettings_disable_connected (settings : InUse.NewSettings) (s : SlpFileWriter) :
  InUse.new_isRelaying settings = false →
  clients s ≠ [] →
  result (InUse.updateSettings settings) s = Throw TypeError ∧
  let s' := run (InUse.updateSettings settings) s in
  isRelaying s' = false ∧ server s' = server s ∧ clients s' = clients s ∧
  effects s' = effects s.
Proof.
  intros Hoff Hsome. unfold InUse.updateSettings, InUse.manageRelay, run, result. unfold_M.
  simpl. rewrite Hoff. simpl. by destruct (clients s).
Qed.

Lemma updateSettings_disable_connected_witness :
  result (InUse.updateSettings relay_off) connected = Throw TypeError ∧
  let s' := run (InUse.updateSettings relay_off) connected in
  isRelaying s' = false ∧ server s' = server connected ∧ clients s' = clients connected ∧
  effects s' = effects connected.
Proof.
  apply (updateSettings_disable_connected relay_off connected).
  - reflexivity.
  - vm_compute. discriminate.
Defined.

(** X11: [manageRelay] is idempotent: run a second time in a row, whether
    the first run returned or threw, it changes nothing more. *)
Theorem manageRelay_idempotent (s : SlpFileWriter) :
  run InUse.manageRelay (run InUse.manageRelay s) = run InUse.manageRelay s.
Proof.
  unfold InUse.manageRelay, run. unfold_M.
  destruct s as [fp osn nick pairs cf so relaying up cs nt pe fx]. simpl.
  destruct relaying; simpl.
  - by destruct up.
  - destruct cs; [|done]. by destruct up.
Qed.

Lemma listening_snoc trace e :
  listening (trace ++ [e]) = server_step (listening trace) e.
Proof. unfold listening. by rewrite List.fold_left_app. Qed.

Lemma listening_app trace new :
  Forall (λ e, is_server_effect e = false) new →
  listening (trace ++ new) = listening trace.
Proof.
  induction new as [|e new IH] using rev_ind; intros Hall; [by rewrite app_nil_r|].
  apply Forall_app in Hall as [Hnew He]. rewrite Forall_singleton in He.
  rewrite (assoc_L (++)), listening_snoc, IH by done. by destruct e.
Qed.

#[local] Instance same_preorder {B} (f : SlpFileWriter → B) : PreOrder (same f).
Proof. split; [done|]. intros s1 s2 s3 H1 H2. unfold same in *. congruence. Qed.

Lemma relay_setup_app s new :
  Forall (λ e, is_server_effect e = false) new →
  same relay_setup s (with_effects (effects s ++ new) s).
Proof. intros H. unfold same, relay_setup. simpl. by rewrite listening_app. Qed.

Ltac setup_leaf :=
  intros;
  first
    [ reflexivity
    | apply (relay_setup_app _ [_]); by repeat constructor
    | apply relay_setup_app; apply Forall_map; by apply Forall_true
    | unfold same, relay_setup; simpl; by rewrite ?length_map ].

Lemma handleData_relay_setup now newData : within (same relay_setup) (handleData now newData).
Proof.
  unfold handleData. apply within_bind; [apply _|apply within_get; apply _|intros s0].
  apply within_bind; [apply _| |intros flags].
  - apply within_parseLoop; [apply _| |].
    + intros tail. apply within_modify. setup_leaf.
    + intros command view fl s _. revert s.
      change (within (same relay_setup) (dispatch now command view fl)).
      within_tac setup_leaf.
      apply within_processReceiveCommands; [apply _|]. setup_leaf.
  - unfold relay. within_tac setup_leaf.
Qed.

Lemma onStreamFinished_relay_setup : within (same relay_setup) onStreamFinished.
Proof. unfold onStreamFinished. within_tac setup_leaf. Qed.

Lemma relay_sound_same s s' : same relay_setup s s' → relay_sound s → relay_sound s'.
Proof.
  unfold same, relay_setup, relay_sound. intros [= Hr Hs Hl Hc] (H1 & H2 & H3).
  rewrite Hr, Hs, Hl. split; [done|]. split; [|done].
  intros Hdown. specialize (H2 Hdown). rewrite H2 in Hc. by destruct (clients s').
Qed.

Lemma manageRelay_sound s :
  listening (effects s) = Some (server s) →
  (server s = false → clients s = []) →
  relay_sound (run InUse.manageRelay s).
Proof.
  intros Hl Hc. unfold InUse.manageRelay, run. unfold_M. unfold relay_sound.
  destruct (isRelaying s) eqn:Hr; simpl.
  - destruct (server s) eqn:Hs; simpl; rewrite ?Hr, ?Hs;
      repeat split; try done. by rewrite listening_snoc, Hl.
  - destruct (clients s) eqn:Hcs; simpl; rewrite ?Hr.
    + destruct (server s) eqn:Hs; simpl; rewrite ?Hs; repeat split;
        try done; try congruence.
      by rewrite listening_snoc, Hl.
    + repeat split; try done; try congruence.
      intros Hs. by specialize (Hc Hs).
Qed.

Lemma call_relay_sound s c : relay_sound s → relay_sound (InUse.call s c).
Proof.
  intros Hs. destruct c as [e|settings|scenes]; simpl.
  - destruct e as [now newData| | |sock|sock|pairs]; simpl.
    + revert Hs. apply relay_sound_same. apply handleData_relay_setup.
    + destruct (pendingEnd s); [done|].
      cut (relay_sound (with_pendingEnd n s)).
      { apply relay_sound_same. apply onStreamFinished_relay_setup. }
      exact Hs.
    + revert Hs. apply relay_sound_same.
      assert (Hw : within (same relay_setup) onTimeout)
        by (unfold onTimeout, setStatus; within_tac setup_leaf).
      apply Hw.
    + destruct (server s) eqn:Hup; [|done].
      destruct Hs as (H1 & H2 & H3). unfold relay_sound. simpl. rewrite Hup in *.
      repeat split; try done; congruence.
    + destruct Hs as (H1 & H2 & H3). unfold relay_sound. simpl. split; [done|]. split; [|done].
      intros Hdown. rewrite (H2 Hdown). done.
    + exact Hs.
  - unfold InUse.updateSettings. rewrite run_bind. simpl result. cbv iota.
    destruct Hs as (H1 & H2 & H3). by apply manageRelay_sound.
  - exact Hs.
Qed.

Lemma constructor_relay_sound settings : relay_sound (constructor settings).
Proof.
  unfold constructor, manageRelay, run, relay_sound. unfold_M. simpl.
  by destruct (st_isRelaying settings).
Qed.

(** X12: the relay server through the life of a writer.  Whatever is called
    on it, the server is up whenever relaying is enabled, clients are
    registered only while it is up, and the server has been started and closed
    in turns: it is never asked to listen while it is listening, nor closed
    while it is down. *)
Theorem relay_server_sound (settings : Settings) (cs : list InUse.Call) :
  let s := InUse.calls (constructor settings) cs in
  (isRelaying s = true → server s = true) ∧
  (server s = false → clients s = []) ∧
  listening (effects s) = Some (server s).
Proof.
  intros s. unfold s, InUse.calls. generalize (constructor_relay_sound settings).
  generalize (constructor settings).
  induction cs as [|c cs IH]; intros s0 H0; [done|].
  simpl. apply IH. by apply call_relay_sound.
Qed.

(** ** The auto-hide timer *)

Lemma uncleared_snoc trace e : uncleared (trace ++ [e]) = timer_step (uncleared trace) e.
Proof. unfold uncleared. by rewrite List.fold_left_app. Qed.

Lemma uncleared_app trace new :
  Forall (λ e, is_timer_effect e = false) new →
  uncleared (trace ++ new) = uncleared trace.
Proof.
  induction new as [|e new IH] using rev_ind; intros Hall; [by rewrite app_nil_r|].
  apply Forall_app in Hall as [Hnew He]. rewrite Forall_singleton in He.
  rewrite (assoc_L (++)), uncleared_snoc, IH by done. by destruct e.
Qed.

#[local] Instance keeps_one_timer_preorder : PreOrder keeps_one_timer.
Proof.
  split; [intros s H; exact H|]. intros s1 s2 s3 H1 H2 H. by apply H2, H1.
Qed.

Lemma one_timer_same s s' : timer_view s' = timer_view s → keeps_one_timer s s'.
Proof. unfold timer_view, keeps_one_timer, one_timer. by intros [= -> ->]. Qed.

Lemma timer_view_app s new :
  Forall (λ e, is_timer_effect e = false) new →
  timer_view (with_effects (effects s ++ new) s) = timer_view s.
Proof. intros H. unfold timer_view. simpl. by rewrite uncleared_app. Qed.

Ltac timer_leaf :=
  intros; apply one_timer_same;
  first
    [ reflexivity
    | apply (timer_view_app _ [_]); by repeat constructor
    | apply timer_view_app; apply Forall_map; by apply Forall_true ].

Lemma filter_out_only (t : nat) : filter (λ t', t' ≠ t) [t] = [].
Proof. rewrite filter_cons, decide_False; [done|]. intros H. by apply H. Qed.

Lemma setTimer_one_timer timeoutLength : within keeps_one_timer (setTimer timeoutLength).
Proof.
  intros s Hone. unfold setTimer, run. unfold_M. unfold one_timer in *.
  destruct (timeout (statusOutput s)) as [t|] eqn:Ht; simpl in *.
  - rewrite !uncleared_snoc, Hone. cbn [timer_step option_list].
    by rewrite filter_out_only.
  - by rewrite uncleared_snoc, Hone.
Qed.

Lemma dispatch_one_timer now command view flags :
  within keeps_one_timer (dispatch now command view flags).
Proof.
  unfold dispatch.
  repeat lazymatch goal with
         | |- within _ (setTimer _) => apply setTimer_one_timer
         | _ => within_step timer_leaf
         end.
  apply within_processReceiveCommands; [apply _|]. timer_leaf.
Qed.

Lemma handleData_one_timer now newData : within keeps_one_timer (handleData now newData).
Proof.
  unfold handleData. apply within_bind; [apply _|apply within_get; apply _|intros s0].
  apply within_bind; [apply _| |intros flags].
  - apply within_parseLoop; [apply _| |].
    + intros tail. apply within_modify. timer_leaf.
    + intros. apply dispatch_one_timer.
  - unfold relay. within_tac timer_leaf.
Qed.

Lemma call_one_timer s c : one_timer s → one_timer (InUse.call s c).
Proof.
  revert s. change (∀ s, keeps_one_timer s (InUse.call s c)).
  destruct c as [e|settings|scenes]; intros s; simpl.
  - destruct e as [now newData| | |sock|sock|pairs]; simpl.
    + apply handleData_one_timer.
    + destruct (pendingEnd s); [done|].
      assert (Hw : within keeps_one_timer onStreamFinished)
        by (unfold onStreamFinished; within_tac timer_leaf).
      etrans; [|apply Hw]. by apply one_timer_same.
    + assert (Hw : within keeps_one_timer onTimeout)
        by (unfold onTimeout, setStatus; within_tac timer_leaf).
      apply Hw.
    + destruct (server s); [|done]. by apply one_timer_same.
    + by apply one_timer_same.
    + by apply one_timer_same.
  - assert (Hw : within keeps_one_timer (InUse.updateSettings settings))
      by (unfold InUse.updateSettings, InUse.manageRelay; within_tac timer_leaf).
    apply Hw.
  - assert (Hw : within keeps_one_timer (InUse.getSceneSources scenes))
      by (unfold InUse.getSceneSources; within_tac timer_leaf).
    apply Hw.
Qed.

Lemma constructor_one_timer settings : one_timer (constructor settings).
Proof.
  assert (Hw : within keeps_one_timer manageRelay)
    by (unfold manageRelay; within_tac timer_leaf).
  unfold constructor. apply Hw. reflexivity.
Qed.

(** X13: at most one auto-hide timer.  Whatever is called on a writer, the
    timers it has armed and not cleared since are at most one, the one whose
    handle it holds in [statusOutput.timeout]: before [setTimer] arms a timer
    it clears the one armed before.  So the source is hidden by the timer
    armed last only. *)
Theorem one_timer_armed (settings : Settings) (cs : list InUse.Call) :
  let s := InUse.calls (constructor settings) cs in
  uncleared (effects s) = option_list (timeout (statusOutput s)).
Proof.
  intros s. unfold s, InUse.calls. generalize (constructor_one_timer settings).
  generalize (constructor settings).
  induction cs as [|c cs IH]; intros s0 H0; [done|].
  simpl. apply IH. by apply call_one_timer.
Qed.

(** ** Scenes, and the path of the current file *)

Lemma scene_pairs_filter (name scene : string) (sources : list string) :
  filter (λ pair : string * string, pair.2 = name) (map (λ source, (scene, source)) sources)
  = map (λ source, (scene, source)) (filter (λ source, source = name) sources).
Proof.
  induction sources as [|source sources IH]; [done|].
  cbn [map]. rewrite !filter_cons. cbn [snd]. rewrite IH. by destruct (decide (source = name)).
Qed.

(** X14: from the scene list to the visibility commands.  After
    [getSceneSources], every pair kept names the configured source, and
    [setStatus value] sends one visibility command for every occurrence of the
    source in a scene, scene by scene in the order of the list, and none for a
    scene that does not hold it; a missing scene list or source list counts as
    empty. *)
Theorem scene_list_drives_visibility (scenes : option (list InUse.Scene)) (value : bool)
    (s : SlpFileWriter) :
  let s' := run (InUse.getSceneSources scenes) s in
  Forall (λ pair, pair.2 = obsSourceName s) (obsPairs s') ∧
  effects (run (setStatus value) s')
  = effects s
    ++ flat_map (λ scene,
         map (λ _, ObsSetVisible (InUse.scene_name scene) (obsSourceName s) value)
             (filter (λ source, source = obsSourceName s)
                     (default [] (InUse.scene_sources scene))))
       (default [] scenes).
Proof.
  intros s'. unfold s', InUse.getSceneSources, setStatus, run. unfold_M. simpl. split.
  - apply Forall_forall. by intros pair [? _]%list_elem_of_filter.
  - f_equal. induction (default [] scenes) as [|scene rest IH]; [done|].
    cbn [flat_map]. rewrite filter_app, map_app, IH. f_equal.
    rewrite scene_pairs_filter, map_map. done.
Qed.

(** The recorder after a settings update or a scene list. *)
Lemma updateSettings_recorder settings : keeps recorder (InUse.updateSettings settings).
Proof. unfold InUse.updateSettings, InUse.manageRelay. keeps_tac. Qed.

Lemma getSceneSources_recorder scenes : keeps recorder (InUse.getSceneSources scenes).
Proof. unfold InUse.getSceneSources. keeps_tac. Qed.

Lemma calls_counted s cs : counted_writes s → counted_writes (InUse.calls s cs).
Proof.
  revert s. induction cs as [|c cs IH]; intros s Hs; [done|].
  simpl. apply IH. destruct c as [e|settings|scenes]; simpl.
  - by apply step_counted.
  - unfold counted_writes. by rewrite updateSettings_recorder.
  - unfold counted_writes. by rewrite getSceneSources_recorder.
Qed.

(** X15: [getCurrentFilePath] names the file being written.  Whatever has
    been called on a writer, the path it reports is the path of the open write
    stream, and it reports none exactly when no stream is open. *)
Theorem getCurrentFilePath_open (settings : Settings) (cs : list InUse.Call) :
  let s := InUse.calls (constructor settings) cs in
  InUse.getCurrentFilePath s = ws_path <$> writeStream (currentFile s).
Proof.
  intros s. pose proof (calls_counted _ cs (constructor_counted settings)) as H.
  fold s in H. unfold counted_writes, recorder, count_agrees in H.
  unfold InUse.getCurrentFilePath.
  destruct (writeStream (currentFile s)) as [ws|]; [by destruct H as [-> _] | done].
Qed.

(** ** [endGame] composes its trailer *)

#[local] Instance keeps_trailer_ready_preorder : PreOrder keeps_trailer_ready.
Proof.
  split; [intros s H; exact H|]. intros s1 s2 s3 H1 H2 H. by apply H2, H1.
Qed.

Lemma trailer_ready_same s s' : trailer_view s' = trailer_view s → keeps_trailer_ready s s'.
Proof. unfold trailer_view, keeps_trailer_ready, trailer_ready. by intros [= -> ->]. Qed.

Ltac trailer_leaf := intros; apply trailer_ready_same; reflexivity.

Lemma writeCommand_trailer command payloadPtr payloadLen :
  within keeps_trailer_ready (writeCommand command payloadPtr payloadLen).
Proof.
  intros s. apply trailer_ready_same. unfold trailer_view.
  rewrite writeCommand_metadata. f_equal.
  pose proof (writeCommand_session command payloadPtr payloadLen s) as H.
  unfold session in H. by injection H.
Qed.

Lemma handleStatusOutput_trailer timeoutLength :
  within keeps_trailer_ready (handleStatusOutput timeoutLength).
Proof.
  intros s. apply trailer_ready_same. unfold trailer_view, idle.
  by rewrite handleStatusOutput_currentFile.
Qed.

Lemma initializeNewGame_trailer now : within keeps_trailer_ready (initializeNewGame now).
Proof.
  intros s _. unfold run. rewrite initializeNewGame_eq. unfold trailer_ready. simpl.
  split; [done|lia].
Qed.

Lemma endGame_trailer : within keeps_trailer_ready endGame.
Proof.
  intros s [H1 H2]. unfold endGame, run. unfold_M. unfold trailer_ready, idle in *.
  destruct (writeStream (currentFile s)) as [ws|] eqn:Hws; simpl; [|split; [done|lia]].
  destruct (startTime (metadata (currentFile s))) as [start|] eqn:Hstart; simpl.
  2:{ by destruct (H1 eq_refl). }
  destruct (compose_footer _ _ _ _) as [footer|]; simpl; rewrite ?Hws, ?Hstart; by split.
Qed.

Lemma processCommand_trailer command view :
  within keeps_trailer_ready (processCommand command view).
Proof.
  intros s [H1 H2].
  destruct (processCommand_currentFile command view s)
    as [Heq | (L & fi & p & ch & _ & _ & _ & Hfi & _ & _ & _ & Heq)].
  - unfold trailer_ready, idle in *. by rewrite Heq.
  - unfold run. rewrite Heq. unfold trailer_ready, idle in *. simpl. split; [done|].
    apply getInt32_range in Hfi. lia.
Qed.

Lemma dispatch_trailer now command view flags :
  within keeps_trailer_ready (dispatch now command view flags).
Proof.
  unfold dispatch.
  repeat lazymatch goal with
         | |- within _ (writeCommand _ _ _) => apply writeCommand_trailer
         | |- within _ (handleStatusOutput _) => apply handleStatusOutput_trailer
         | |- within _ (initializeNewGame _) => apply initializeNewGame_trailer
         | |- within _ endGame => apply endGame_trailer
         | |- within _ (processCommand _ _) => apply processCommand_trailer
         | _ => within_step trailer_leaf
         end.
  apply within_processReceiveCommands; [apply _|]. trailer_leaf.
Qed.

Lemma handleData_trailer now newData : within keeps_trailer_ready (handleData now newData).
Proof.
  unfold handleData. apply within_bind; [apply _|apply within_get; apply _|intros s0].
  apply within_bind; [apply _| |intros flags].
  - apply within_parseLoop; [apply _| |].
    + intros tail. apply within_modify. trailer_leaf.
    + intros. apply dispatch_trailer.
  - unfold relay. within_tac trailer_leaf.
Qed.

Lemma call_trailer s c : trailer_ready s → trailer_ready (InUse.call s c).
Proof.
  revert s. change (∀ s, keeps_trailer_ready s (InUse.call s c)).
  destruct c as [e|settings|scenes]; intros s; simpl.
  - destruct e as [now newData| | |sock|sock|pairs]; simpl.
    + apply handleData_trailer.
    + destruct (pendingEnd s); [done|].
      intros Hs. unfold onStreamFinished, run. unfold_M. simpl.
      destruct (path (currentFile s)); simpl; [|exact Hs].
      destruct (createUInt32Buffer _); simpl; [split; [done|simpl; lia] | exact Hs].
    + assert (Hw : within keeps_trailer_ready onTimeout)
        by (unfold onTimeout, setStatus; within_tac trailer_leaf).
      apply Hw.
    + destruct (server s); [|done]. by apply trailer_ready_same.
    + by apply trailer_ready_same.
    + by apply trailer_ready_same.
  - assert (Hw : within keeps_trailer_ready (InUse.updateSettings settings))
      by (unfold InUse.updateSettings, InUse.manageRelay; within_tac trailer_leaf).
    apply Hw.
  - assert (Hw : within keeps_trailer_ready (InUse.getSceneSources scenes))
      by (unfold InUse.getSceneSources; within_tac trailer_leaf).
    apply Hw.
Qed.

Lemma constructor_trailer settings : trailer_ready (constructor settings).
Proof.
  assert (Hw : within keeps_trailer_ready manageRelay)
    by (unfold manageRelay; within_tac trailer_leaf).
  unfold constructor. apply Hw. split; [done|simpl; lia].
Qed.

Lemma calls_trailer s cs : trailer_ready s → trailer_ready (InUse.calls s cs).
Proof.
  revert s. induction cs as [|c cs IH]; intros s Hs; [done|].
  simpl. apply IH. by apply call_trailer.
Qed.

Lemma entries_Forall {V} (P : nat * V → Prop) (m : gmap nat V) :
  map_Forall (λ k v, P (k, v)) m → Forall P (entries m).
Proof.
  intros Hall. unfold entries. rewrite merge_sort_Permutation.
  apply Forall_forall. intros [k v] Hin%elem_of_map_to_list. by apply Hall in Hin.
Qed.

Lemma footer_character_Some (entry : nat * N) :
  (entry.2 < 4294967296)%N → is_Some (footer_character entry).
Proof.
  destruct entry as [internalId count]. simpl. intros Hlt.
  unfold createUInt32Buffer. rewrite decide_True by lia. by eexists.
Qed.

Lemma footer_player_Some (entry : nat * Player) :
  map_Forall (λ _ count, (count < 4294967296)%N) (characterUsage entry.2) →
  is_Some (footer_player entry).
Proof.
  destruct entry as [index player]. simpl. intros Hall.
  assert (is_Some (mapM footer_character (entries (characterUsage player)))) as [chars ->].
  { apply mapM_is_Some. apply entries_Forall. intros k v Hkv. apply footer_character_Some.
    by apply (Hall k v). }
  by eexists.
Qed.

(** X16: [endGame] does not fail on a writer in use.  Whatever has been
    called on a writer (constructed with a console nickname), [endGame]
    returns, unless some character has been counted 2^32 times or more: an
    open recording always has its start time, and [lastFrame] always fits the
    four bytes the trailer gives it. *)
Theorem endGame_returns (settings : Settings) (cs : list InUse.Call) :
  let s := InUse.calls (constructor settings) cs in
  usage_fits s → result endGame s = Ok tt.
Proof.
  intros s Hfits.
  pose proof (calls_trailer _ cs (constructor_trailer settings)) as [Hstart Hrange].
  fold s in Hstart, Hrange. unfold endGame, result. unfold_M. unfold idle in Hstart.
  destruct (writeStream (currentFile s)) as [ws|]; [|done].
  destruct (startTime (metadata (currentFile s))) as [start|]; [|by destruct Hstart].
  simpl.
  assert (is_Some (compose_footer (toISOString start) (lastFrame (metadata (currentFile s)))
                     (consoleNick s) (players (metadata (currentFile s))))) as [footer ->].
  { unfold compose_footer, createInt32Buffer. rewrite decide_True by done. simpl.
    assert (is_Some (mapM footer_player (entries (players (metadata (currentFile s))))))
      as [perPlayer ->]; [|by eexists].
    apply mapM_is_Some. apply entries_Forall. intros k v Hkv. apply footer_player_Some.
    by apply (Hfits k v). }
  done.
Qed.

Lemma endGame_returns_witness :
  let s := InUse.calls (constructor sample_settings)
             [InUse.Loop (Deliver sample_now (handshake_38 ++ update_minus100))] in
  result endGame s = Ok tt.
Proof.
  apply (endGame_returns sample_settings
           [InUse.Loop (Deliver sample_now (handshake_38 ++ update_minus100))]).
  apply (bool_decide_unpack _). vm_compute. exact I.
Defined.

(** ** A handshake that is cut short *)

(** The new file is named by [path.join] of the folder and the file name: a
    trailing slash, a leading ["./"], doubled slashes and [".."] segments do not
    show in it, and an empty folder gives the bare file name. *)
Example getNewFilePath_joined :
  getNewFilePath "replays" sample_now = "replays/Game_20200101T120000.slp" ∧
  getNewFilePath "replays/" sample_now = "replays/Game_20200101T120000.slp" ∧
  getNewFilePath "./replays" sample_now = "replays/Game_20200101T120000.slp" ∧
  getNewFilePath "" sample_now = "Game_20200101T120000.slp" ∧
  getNewFilePath "/srv/tmp/..//replays/" sample_now = "/srv/replays/Game_20200101T120000.slp" ∧
  getNewFilePath "../.." sample_now = "../../Game_20200101T120000.slp".
Proof. vm_compute. done. Qed.

(** X17: a handshake whose size table is cut short leaves an empty recording
    behind.  When the view does not hold every byte [processReceiveCommands]
    reads, the dispatch of the handshake throws a [RangeError], but only after
    [initializeNewGame]: a new file has been created and is the current file,
    holding the preamble alone, and no frame has been emitted; the recording
    that was open before, if any, has been replaced as the current file. *)
Theorem handshake_cut_short (now : Moment) (view : Buffer) (flags : Flags) (s : SlpFileWriter) :
  (∀ payloadLen, getUint8 view 0 = Some payloadLen →
                 length view ≤ 3 * ((payloadLen + 1) / 3)) →
  let s' := run (dispatch now CMD_RECEIVE_COMMANDS view flags) s in
  result (dispatch now CMD_RECEIVE_COMMANDS view flags) s = Throw RangeError ∧
  writeStream (currentFile s')
    = Some {| ws_path := getNewFilePath (folderPath s) now;
              ws_written := [HeaderChunk header];
              ws_ended := false;
              ws_refused := [] |} ∧
  emitted s' = emitted s ∧
  Forall (λ e, is_file_effect e = false ∨ e = CreateWriteStream (getNewFilePath (folderPath s) now))
         (drop (length (effects s)) (effects s')).
Proof.
  intros Hshort s'.
  assert (Hres : result (processReceiveCommands view) (run (initializeNewGame now) s)
                 = Throw RangeError).
  { destruct (getUint8 view 0) as [payloadLen|] eqn:Hlen;
      [|by apply processReceiveCommands_empty].
    rewrite (processReceiveCommands_reads _ _ _ Hlen).
    specialize (Hshort payloadLen eq_refl). by rewrite decide_False by lia. }
  unfold s', dispatch. rewrite decide_True by done.
  rewrite result_bind, run_bind.
  assert (result (initializeNewGame now) s = Ok tt) as ->
    by (unfold result; by rewrite initializeNewGame_eq).
  rewrite result_bind, run_bind, Hres. split; [done|].
  set (s1 := run (initializeNewGame now) s).
  pose proof (processReceiveCommands_keeps
                (λ t, (writeStream (currentFile t), effects t)) view (λ _ _, eq_refl) s1) as Hk.
  injection Hk as Hws He. rewrite Hws. unfold emitted. rewrite He.
  rewrite <- !(assoc_L (++)). split; [done|]. split.
  - rewrite frames_app. simpl. by rewrite app_nil_r.
  - rewrite drop_app_length. constructor; [by right|]. constructor; [by left|]. constructor.
Qed.

Lemma handshake_cut_short_witness :
  let s' := run (dispatch sample_now CMD_RECEIVE_COMMANDS (take 3 (drop 1 handshake_38_39))
                   no_flags) recording in
  result (dispatch sample_now CMD_RECEIVE_COMMANDS (take 3 (drop 1 handshake_38_39)) no_flags)
    recording = Throw RangeError ∧
  writeStream (currentFile s')
    = Some {| ws_path := getNewFilePath (folderPath recording) sample_now;
              ws_written := [HeaderChunk header];
              ws_ended := false;
              ws_refused := [] |} ∧
  emitted s' = emitted recording ∧
  Forall (λ e, is_file_effect e = false
               ∨ e = CreateWriteStream (getNewFilePath (folderPath recording) sample_now))
         (drop (length (effects recording)) (effects s')).
Proof.
  apply (handshake_cut_short sample_now (take 3 (drop 1 handshake_38_39)) no_flags recording).
  intros payloadLen [= <-]. vm_compute. lia.
Defined.

(** ** What a write stream holds *)

#[local] Instance keeps_preamble_first_preorder : PreOrder keeps_preamble_first.
Proof.
  split; [intros s H; exact H|]. intros s1 s2 s3 H1 H2 H. by apply H2, H1.
Qed.

Lemma preamble_first_same s s' :
  writeStream (currentFile s') = writeStream (currentFile s) → keeps_preamble_first s s'.
Proof. unfold keeps_preamble_first, preamble_first. by intros ->. Qed.

Ltac preamble_leaf := intros; apply preamble_first_same; reflexivity.

Lemma writeCommand_preamble command payloadPtr payloadLen :
  within keeps_preamble_first (writeCommand command payloadPtr payloadLen).
Proof.
  intros s Hs. unfold writeCommand, run. unfold_M.
  destruct (writeStream (currentFile s)) as [ws|] eqn:Hws; simpl; [|by intros ws; rewrite Hws].
  intros ws' [= <-]. destruct (Hs ws Hws) as (body & Hbody & Hframes).
  unfold stream_write. destruct (ws_ended ws) eqn:Hended; simpl.
  - exists body. by split.
  - exists (body ++ [FrameChunk (octet command) (slice 0 payloadLen payloadPtr)]).
    rewrite Hbody. split; [done|]. intros _. apply Forall_app. split; [by apply Hframes|].
    by repeat constructor.
Qed.

Lemma endGame_preamble : within keeps_preamble_first endGame.
Proof.
  intros s Hs. unfold endGame, run. unfold_M.
  destruct (writeStream (currentFile s)) as [ws|] eqn:Hws; simpl; [|by intros ws].
  destruct (startTime (metadata (currentFile s))) as [start|]; simpl;
    [|by intros ws'; rewrite Hws; intros [= <-]; apply Hs].
  destruct (compose_footer _ _ _ _) as [footer|]; simpl;
    [|by intros ws'; rewrite Hws; intros [= <-]; apply Hs].
  intros ws' [= <-]. destruct (Hs ws Hws) as (body & Hbody & _).
  unfold stream_end, stream_write.
  destruct (ws_ended ws); simpl; [exists body | exists (body ++ [FooterChunk footer])];
    by rewrite Hbody.
Qed.

Lemma initializeNewGame_preamble now : within keeps_preamble_first (initializeNewGame now).
Proof.
  intros s _. unfold run. rewrite initializeNewGame_eq. simpl.
  intros ws [= <-]. exists []. simpl. by split.
Qed.

Lemma processCommand_preamble command view :
  within keeps_preamble_first (processCommand command view).
Proof.
  intros s. apply preamble_first_same.
  pose proof (processCommand_recorder command view s) as H. unfold recorder in H.
  by injection H.
Qed.

Lemma handleStatusOutput_preamble timeoutLength :
  within keeps_preamble_first (handleStatusOutput timeoutLength).
Proof. intros s. apply preamble_first_same. by rewrite handleStatusOutput_currentFile. Qed.

Lemma dispatch_preamble now command view flags :
  within keeps_preamble_first (dispatch now command view flags).
Proof.
  unfold dispatch.
  repeat lazymatch goal with
         | |- within _ (writeCommand _ _ _) => apply writeCommand_preamble
         | |- within _ (handleStatusOutput _) => apply handleStatusOutput_preamble
         | |- within _ (initializeNewGame _) => apply initializeNewGame_preamble
         | |- within _ endGame => apply endGame_preamble
         | |- within _ (processCommand _ _) => apply processCommand_preamble
         | _ => within_step preamble_leaf
         end.
  apply within_processReceiveCommands; [apply _|]. preamble_leaf.
Qed.

Lemma handleData_preamble now newData : within keeps_preamble_first (handleData now newData).
Proof.
  unfold handleData. apply within_bind; [apply _|apply within_get; apply _|intros s0].
  apply within_bind; [apply _| |intros flags].
  - apply within_parseLoop; [apply _| |].
    + intros tail. apply within_modify. preamble_leaf.
    + intros. apply dispatch_preamble.
  - unfold relay. within_tac preamble_leaf.
Qed.

Lemma call_preamble s c : preamble_first s → preamble_first (InUse.call s c).
Proof.
  revert s. change (∀ s, keeps_preamble_first s (InUse.call s c)).
  destruct c as [e|settings|scenes]; intros s; simpl.
  - destruct e as [now newData| | |sock|sock|pairs]; simpl.
    + apply handleData_preamble.
    + destruct (pendingEnd s); [done|].
      intros Hs. unfold onStreamFinished, run. unfold_M. simpl.
      destruct (path (currentFile s)); simpl; [|exact Hs].
      destruct (createUInt32Buffer _); simpl; [by intros ws | exact Hs].
    + assert (Hw : within keeps_preamble_first onTimeout)
        by (unfold onTimeout, setStatus; within_tac preamble_leaf).
      apply Hw.
    + destruct (server s); [|done]. by apply preamble_first_same.
    + by apply preamble_first_same.
    + by apply preamble_first_same.
  - assert (Hw : within keeps_preamble_first (InUse.updateSettings settings))
      by (unfold InUse.updateSettings, InUse.manageRelay; within_tac preamble_leaf).
    apply Hw.
  - assert (Hw : within keeps_preamble_first (InUse.getSceneSources scenes))
      by (unfold InUse.getSceneSources; within_tac preamble_leaf).
    apply Hw.
Qed.

Lemma constructor_preamble settings : preamble_first (constructor settings).
Proof.
  assert (Hw : within keeps_preamble_first manageRelay)
    by (unfold manageRelay; within_tac preamble_leaf).
  unfold constructor. apply Hw. by intros ws.
Qed.

(** X18: what a recording's stream has been given.  Whatever has been called
    on a writer, the open write stream was first given the 15-byte preamble,
    whose last four bytes are the zero placeholder at offset 11, and, until it
    is ended by a game end, nothing but frames after it. *)
Theorem stream_preamble_then_frames (settings : Settings) (cs : list InUse.Call) :
  let s := InUse.calls (constructor settings) cs in
  match writeStream (currentFile s) with
  | Some ws =>
      ∃ body, ws_written ws = HeaderChunk header :: body ∧
              length header = 15 ∧ drop 11 header = be32 0 ∧
              (ws_ended ws = false → Forall (λ chunk, is_frame_chunk chunk = true) body)
  | None => True
  end.
Proof.
  intros s.
  assert (Hs : preamble_first s).
  { unfold s, InUse.calls. generalize (constructor_preamble settings).
    generalize (constructor settings).
    induction cs as [|c cs IH]; intros s0 H0; [done|].
    simpl. apply IH. by apply call_preamble. }
  destruct (writeStream (currentFile s)) as [ws|] eqn:Hws; [|done].
  destruct (Hs ws Hws) as (body & Hbody & Hframes).
  exists body. by repeat split.
Qed.

(** X19: paging through the games wraps around.  With at least one file,
    [setStatsGamePage] dispatches a page inside the list and loads the game of
    the file at that page: the index itself when it is inside the list, the
    first page when it is past the end, the last page when it is negative.
    With no file at all it dispatches page 0 (or -1 for a negative index) and
    then throws a [TypeError]. *)
Theorem setStatsGamePage_wraps {Game : Type} (files : list (@FileLoader.File Game)) (index : Z) :
  match files with
  | [] =>
      FileLoader.setStatsGamePage files index
      = ([FileLoader.SET_STATS_GAME_PAGE (if decide (0 ≤ index)%Z then 0 else -1)%Z],
         Throw TypeError)
  | _ :: _ =>
      ∃ page file,
        (0 ≤ page < Z.of_nat (length files))%Z ∧
        files !! Z.to_nat page = Some file ∧
        FileLoader.setStatsGamePage files index
        = ([FileLoader.SET_STATS_GAME_PAGE page;
            FileLoader.GameProfileLoad (FileLoader.game file)], Ok tt) ∧
        page = (if decide (Z.of_nat (length files) ≤ index)%Z then 0
                else if decide (index < 0)%Z then Z.of_nat (length files) - 1
                else index)%Z
  end.
Proof.
  destruct files as [|first rest].
  - unfold FileLoader.setStatsGamePage. cbn [length]. change (Z.of_nat 0) with 0%Z.
    destruct (decide (0 ≤ index)%Z) as [Hpos|Hneg].
    + by rewrite (decide_False (P := (0 < 0)%Z)), (decide_True (P := (0 ≤ 0)%Z)) by lia.
    + rewrite (decide_True (P := (index < 0)%Z)) by lia.
      by rewrite (decide_False (P := (0 ≤ 0 - 1)%Z)) by lia.
  - set (files := first :: rest).
    assert (Hlen : (0 < Z.of_nat (length files))%Z) by (simpl; lia).
    set (page := (if decide (Z.of_nat (length files) ≤ index)%Z then 0
                  else if decide (index < 0)%Z then Z.of_nat (length files) - 1
                  else index)%Z).
    assert (Hpage : (0 ≤ page < Z.of_nat (length files))%Z)
      by (unfold page; repeat case_decide; lia).
    destruct (lookup_lt_is_Some_2 files (Z.to_nat page)) as [file Hfile]; [lia|].
    exists page, file. split; [done|]. split; [done|]. split; [|done].
    unfold FileLoader.setStatsGamePage.
    assert ((if decide ((if decide (Z.of_nat (length files) ≤ index)%Z then 0 else index) < 0)%Z
             then (Z.of_nat (length files) - 1)%Z
             else if decide (Z.of_nat (length files) ≤ index)%Z then 0%Z else index) = page) as ->
      by (unfold page; repeat case_decide; lia).
    by rewrite decide_True, Hfile by lia.
Qed.

(** ** Frames of a game in progress, delivered in pieces *)

Lemma encode_frames_nil fs : encode_frames fs = [] → fs = [].
Proof. by destruct fs. Qed.

Lemma deliver_frames now chunks :
  ∀ s fs,
    Forall (in_game (payloadSizes (currentFile s))) fs →
    previousBuffer (currentFile s) ++ concat chunks = encode_frames fs →
    (previousBuffer (currentFile s) = [] ∨
     ∃ frame later, fs = frame :: later ∧
       length (previousBuffer (currentFile s)) < length (encode_frame frame)) →
    emitted (deliver now s chunks) = emitted s ++ fs.
Proof.
  induction chunks as [|chunk chunks IH]; intros s fs Hok Hdata Htail.
  { cbn [concat deliver fold_left] in *. rewrite app_nil_r in Hdata.
    destruct Htail as [Hnil|(frame & later & -> & Hlt)].
    - rewrite Hnil in Hdata. symmetry in Hdata. apply encode_frames_nil in Hdata as ->.
      by rewrite app_nil_r.
    - rewrite Hdata in Hlt.
      change (encode_frames (frame :: later))
        with (encode_frame frame ++ encode_frames later) in Hlt.
      rewrite length_app in Hlt. lia. }
  change (deliver now s (chunk :: chunks))
    with (deliver now (run (handleData now chunk) s) chunks).
  set (data := previousBuffer (currentFile s) ++ chunk).
  destruct (parseLoop_prefix now fs (S (length data)) no_flags s data (concat chunks))
    as (whole & rest & -> & _ & He & Ht & Hp & Hq).
  { unfold data. by rewrite <- (assoc_L (++)). }
  { lia. }
  { done. }
  { unfold data. by intros [-> _]%app_eq_nil. }
  destruct (handleData_loop now chunk s) as [Hun Hprev]. fold data in Hun, Hprev.
  set (s1 := run (handleData now chunk) s) in *.
  set (mid := run (parseLoop (S (length data)) now data 0 no_flags) s) in *.
  assert (Hem : emitted s1 = emitted mid)
    by (by rewrite <- (emitted_unrelayed s1), Hun, emitted_unrelayed).
  assert (Htab : payloadSizes (currentFile s1) = payloadSizes (currentFile mid))
    by exact (f_equal (λ t, payloadSizes (currentFile t)) Hun).
  rewrite (IH s1 rest).
  - by rewrite Hem, He, <- (assoc_L (++)).
  - rewrite Htab, Ht. by apply Forall_app in Hok as [_ ?].
  - by rewrite Hprev.
  - by rewrite Hprev.
Qed.

(** X20: frames of a game in progress survive any cutting.  With no retained
    tail, however the encoding of such frames is cut into consecutive
    deliveries (wherever the cuts fall, empty deliveries included), feeding
    the deliveries to [handleData] one after the other emits exactly those
    frames, in order. *)
Theorem frames_chunk_invariance (now : Moment) (fs : list Frame) (chunks : list Buffer)
    (s : SlpFileWriter) :
  previousBuffer (currentFile s) = [] →
  Forall (in_game (payloadSizes (currentFile s))) fs →
  concat chunks = encode_frames fs →
  emitted (deliver now s chunks) = emitted s ++ fs.
Proof.
  intros Hnil Hok Hdata. apply deliver_frames; [done | by rewrite Hnil | by left].
Qed.

Lemma frames_chunk_invariance_witness :
  emitted (deliver sample_now recording
             [take 4 update_minus100; []; drop 4 update_minus100 ++ take 1 update_0;
              drop 1 update_0])
  = emitted recording ++ [ {| fr_command := 56; fr_payload := drop 1 update_minus100 |};
                           {| fr_command := 56; fr_payload := drop 1 update_0 |} ].
Proof.
  apply (frames_chunk_invariance sample_now
           [ {| fr_command := 56; fr_payload := drop 1 update_minus100 |};
             {| fr_command := 56; fr_payload := drop 1 update_0 |} ]
           [take 4 update_minus100; []; drop 4 update_minus100 ++ take 1 update_0;
            drop 1 update_0] recording).
  - reflexivity.
  - apply (bool_decide_unpack _). vm_compute. exact I.
  - reflexivity.
Defined.
